(** * Anchor generation and the synthetic shapes loader

    A shallow embedding of [examples/efficientdet/anchors.py] and of
    [examples/mask_rcnn/shapes_loader.py], and the properties of both;
    of [examples/efficientdet/detection.py] the function
    [change_box_coordinates].

    Conventions of the embedding.
    - numpy floating point arrays are lists over the real numbers: the
      arithmetic is the exact one and [astype('float32')] is the identity.
      The IEEE values [inf] and [nan] have no counterpart; in the code they
      arise only from a zero feature dimension or from an aspect ratio
      that is not positive.  Rounding is not modelled: what is proved of
      a sign or of an equality of computed values is proved of the exact
      values.
    - Python exceptions are values [Raise e] of the [result] monad, [e]
      being the name of the exception class.
    - a draw of the random module is the list of its equally likely
      outcomes; a sampler is a computation over such draws and lists every
      outcome it can produce, results and exceptions. *)

From Stdlib Require Import ZArith QArith Reals Lra Lia List String.
From stdpp Require Import base tactics option list list_numbers strings gmap.
Import ListNotations.

Local Open Scope string_scope.
Local Open Scope list_scope.
Local Open Scope Z_scope.

(** ** Exceptions *)

Definition exn := string.

Inductive result (A : Type) : Type :=
| Ok (a : A)
| Raise (e : exn).
Arguments Ok {A} a.
Arguments Raise {A} e.

#[export] Instance result_bind : MBind result := fun A B k c =>
  match c with
  | Ok a => k a
  | Raise e => Raise e
  end.

(** A loop that builds a list with [append], stopping at the first
    exception. *)
Fixpoint for_each {A B} (f : A -> result B) (l : list A) : result (list B) :=
  match l with
  | [] => Ok []
  | a :: l' => b ← f a; bs ← for_each f l'; Ok (b :: bs)
  end.

(** [a, b = t] *)
Definition unpack2 {A} (t : list A) : result (A * A) :=
  match t with
  | [a; b] => Ok (a, b)
  | _ => Raise "ValueError"
  end.

(** [l[i]] for a non-negative index *)
Definition getitem {A} (l : list A) (i : nat) : result A :=
  match l !! i with
  | Some a => Ok a
  | None => Raise "IndexError"
  end.

(** [t[lo:hi]] *)
Definition slice {A} (lo hi : nat) (t : list A) : list A :=
  take (hi - lo) (drop lo t).

(** ** The fragment of numpy the anchor generator uses *)

Abbreviation vector := (list R).
Abbreviation matrix := (list (list R)).
Abbreviation tensor3 := (list (list (list R))).

(** [np.repeat(v, n)] for a scalar [v] *)
Definition np_repeat_scalar {A} (v : A) (n : nat) : list A := repeat v n.

(** [np.repeat(xs, n)]: every element [n] times in a row *)
Definition np_repeat {A} (xs : list A) (n : nat) : list A :=
  flat_map (fun x => repeat x n) xs.

(** [np.tile(xs, n)]: the whole list [n] times *)
Definition np_tile {A} (xs : list A) (n : nat) : list A :=
  concat (repeat xs n).

(** [np.arange(start, stop, step)]: [ceil((stop - start) / step)] values
    [start + i * step].  A zero step has no length and raises. *)
Definition np_arange (start stop step : R) : result vector :=
  if Req_dec_T step 0 then Raise "ValueError"
  else
    let n := Z.to_nat (Zceil ((stop - start) / step)) in
    Ok (map (fun i => (start + INR i * step)%R) (seq 0 n)).

(** [np.meshgrid(x, y)] with the default ['xy'] indexing: two arrays of
    shape [(len y, len x)]. *)
Definition np_meshgrid (x y : vector) : matrix * matrix :=
  (map (fun _ => x) y, map (fun yi => map (fun _ => yi) x) y).

(** [a.reshape(-1)] of a two-dimensional array (row-major) *)
Definition reshape_flat (a : matrix) : vector := concat a.

(** [a.T] of a two-dimensional array *)
Fixpoint transpose (a : matrix) : matrix :=
  match a with
  | [] => []
  | [r] => map (fun v => [v]) r
  | r :: a' => zip_with cons r (transpose a')
  end.

(** [np.expand_dims(a, axis=1)]: shape [(G, 4)] to [(G, 1, 4)] *)
Definition expand_dims_1 (a : matrix) : tensor3 := map (fun r => [r]) a.

(** [np.concatenate(arrays, axis=1)] of three-dimensional arrays: an empty
    sequence and arrays of different lengths along axis 0 raise. *)
Fixpoint np_concatenate_axis1 (arrays : list tensor3) : result tensor3 :=
  match arrays with
  | [] => Raise "ValueError"
  | [a] => Ok a
  | a :: rest =>
      r ← np_concatenate_axis1 rest;
      if Nat.eqb (length a) (length r) then Ok (zip_with app a r)
      else Raise "ValueError"
  end.

(** [np.concatenate(arrays, axis=0)] of two-dimensional arrays *)
Definition np_concatenate_axis0 (arrays : list matrix) : result matrix :=
  match arrays with
  | [] => Raise "ValueError"
  | _ => Ok (concat arrays)
  end.

(** [a.reshape([-1, 4])] of an array of shape [(G, K, 4)] *)
Definition reshape_rows (a : tensor3) : matrix := concat a.

(** [zip(a, b, c, d, e)] *)
Fixpoint zip5 {A} (a b c d e : list A) : list (A * A * A * A * A) :=
  match a, b, c, d, e with
  | x1 :: a', x2 :: b', x3 :: c', x4 :: d', x5 :: e' =>
      (x1, x2, x3, x4, x5) :: zip5 a' b' c' d' e'
  | _, _, _, _, _ => []
  end.

(** ** paz.backend.boxes *)

(** Modelled from the spec: [to_center_form] of [paz.backend.boxes] is not
    part of the sources at hand.  The glossary gives center form as
    [(center_x, center_y, width, height)] against the corner form
    [(x_min, y_min, x_max, y_max)]. *)
Definition to_center_form_row (box : list R) : list R :=
  match box with
  | [x_min; y_min; x_max; y_max] =>
      [((x_max + x_min) / 2)%R; ((y_max + y_min) / 2)%R;
       (x_max - x_min)%R; (y_max - y_min)%R]
  | _ => box
  end.

Definition to_center_form (boxes : matrix) : matrix :=
  map to_center_form_row boxes.

(** Modelled from the spec: [to_corner_form] of [paz.backend.boxes], the
    inverse encoding, from the same glossary entry. *)
Definition to_corner_form_row (box : list R) : list R :=
  match box with
  | [center_x; center_y; W; H] =>
      [(center_x - W / 2)%R; (center_y - H / 2)%R;
       (center_x + W / 2)%R; (center_y + H / 2)%R]
  | _ => box
  end.

Definition to_corner_form (boxes : matrix) : matrix :=
  map to_corner_form_row boxes.

(** ** anchors.py *)

(** A branch is a tensor of which only the shape is read:
    [(batch, feature_H, feature_W, channels)]. *)
Record branch := Branch { shape : list Z }.

Definition build_octaves (num_scales : nat) (aspect_ratios : vector) : vector :=
  let octave := np_repeat (seq 0 num_scales) (length aspect_ratios) in
  map (fun k => (INR k / INR num_scales)%R) octave.

Definition build_aspect (aspect_ratios : vector) (num_scales : nat) : vector :=
  np_tile aspect_ratios num_scales.

Definition build_scales (scale : R) (num_scale_aspect : nat) : vector :=
  np_repeat_scalar scale num_scale_aspect.

Definition build_strides (branch_arg : nat) (image_shape : list Z)
    (branches : list branch) (num_scale_aspect : nat)
    : result (vector * vector) :=
  '(base_feature_H, base_feature_W) ← unpack2 image_shape;
  b ← getitem branches branch_arg;
  '(feature_H, feature_W) ← unpack2 (slice 1 3 (shape b));
  let features_H := np_repeat_scalar (IZR feature_H) num_scale_aspect in
  let features_W := np_repeat_scalar (IZR feature_W) num_scale_aspect in
  let H_inverse := map Rinv features_H in
  let W_inverse := map Rinv features_W in
  let strides_y := map (Rmult (IZR base_feature_H)) H_inverse in
  let strides_x := map (Rmult (IZR base_feature_W)) W_inverse in
  Ok (strides_y, strides_x).

Definition compute_box_coordinates (image_shape : list Z)
    (stride_y stride_x octave_scale aspect scale : R) : result matrix :=
  '(W, H) ← unpack2 image_shape;
  let base_anchor_W := (scale * stride_x * Rpower 2 octave_scale)%R in
  let base_anchor_H := (scale * stride_y * Rpower 2 octave_scale)%R in
  let aspect_W := sqrt aspect in
  let aspect_H := (1 / sqrt aspect)%R in
  let anchor_W := ((base_anchor_W * aspect_W / 2) / IZR H)%R in
  let anchor_H := ((base_anchor_H * aspect_H / 2) / IZR W)%R in
  x ← np_arange (stride_x / 2)%R (IZR H) stride_x;
  y ← np_arange (stride_y / 2)%R (IZR W) stride_y;
  let '(center_x, center_y) := np_meshgrid x y in
  let center_x := map (fun v => (v / IZR H)%R) (reshape_flat center_x) in
  let center_y := map (fun v => (v / IZR W)%R) (reshape_flat center_y) in
  Ok [map (fun c => (c - anchor_W)%R) center_x;
      map (fun c => (c - anchor_H)%R) center_y;
      map (fun c => (c + anchor_W)%R) center_x;
      map (fun c => (c + anchor_H)%R) center_y].

Definition build_branch_boxes (stride_y stride_x octave aspect scales : vector)
    (image_shape : list Z) : result tensor3 :=
  branch_boxes ←
    for_each (fun '(sy, sx, o, a, s) =>
                boxes ← compute_box_coordinates image_shape sy sx o a s;
                Ok (expand_dims_1 (transpose boxes)))
             (zip5 stride_y stride_x octave aspect scales);
  np_concatenate_axis1 branch_boxes.

(** The body of the loop of [build_anchors], for one [branch_arg]. *)
Definition build_anchors_level (image_shape : list Z) (branches : list branch)
    (num_scales : nat) (aspect_ratios : vector) (scale : R)
    (num_scale_aspect : nat) (branch_arg : nat) : result matrix :=
  '(stride_y, stride_x) ←
    build_strides branch_arg image_shape branches num_scale_aspect;
  let octave := build_octaves num_scales aspect_ratios in
  let aspect := build_aspect aspect_ratios num_scales in
  let scales := build_scales scale num_scale_aspect in
  branch_boxes ←
    build_branch_boxes stride_y stride_x octave aspect scales image_shape;
  Ok (reshape_rows branch_boxes).

(** The corner-form array [anchor_boxes] of [build_anchors], before its
    last line. *)
Definition build_anchor_boxes (image_shape : list Z) (branches : list branch)
    (num_scales : nat) (aspect_ratios : vector) (scale : R) : result matrix :=
  let num_scale_aspect := (num_scales * length aspect_ratios)%nat in
  anchor_boxes ←
    for_each (build_anchors_level image_shape branches num_scales
                                  aspect_ratios scale num_scale_aspect)
             (seq 0 (length branches));
  np_concatenate_axis0 anchor_boxes.

Definition build_anchors (image_shape : list Z) (branches : list branch)
    (num_scales : nat) (aspect_ratios : vector) (scale : R) : result matrix :=
  anchor_boxes ←
    build_anchor_boxes image_shape branches num_scales aspect_ratios scale;
  Ok (to_center_form anchor_boxes).

(** ** The flat generation loop

    The anchors written as one explicit loop over (level, grid position,
    box-shape variant); [build_anchor_boxes] is proved equal to it. *)

(** The grid positions [(i, j)] of a [rows x cols] feature map, row-major. *)
Definition grid (rows cols : nat) : list (nat * nat) :=
  flat_map (fun i => map (fun j => (i, j)) (seq 0 cols)) (seq 0 rows).

(** The box-shape variants of one level: scale index outer, aspect ratio
    inner. *)
Definition variants (num_scales : nat) (aspect_ratios : vector)
    : list (nat * R) :=
  flat_map (fun s => map (fun a => (s, a)) aspect_ratios) (seq 0 num_scales).

Definition feature_dims (b : branch) : Z * Z :=
  match slice 1 3 (shape b) with
  | [feature_H; feature_W] => (feature_H, feature_W)
  | _ => (0, 0)
  end.

Section FlatLoop.
Variables (image_H image_W : Z) (num_scales : nat) (scale : R).
Variables (feature_H feature_W : Z).

Definition stride_y_of : R := (IZR image_H * / IZR feature_H)%R.
Definition stride_x_of : R := (IZR image_W * / IZR feature_W)%R.

Definition octave_of (s : nat) : R := (INR s / INR num_scales)%R.

(** half extents, each normalised by the image extent of its own axis *)
Definition half_width (s : nat) (a : R) : R :=
  ((scale * stride_x_of * Rpower 2 (octave_of s) * sqrt a / 2)
   / IZR image_W)%R.
Definition half_height (s : nat) (a : R) : R :=
  ((scale * stride_y_of * Rpower 2 (octave_of s) * (1 / sqrt a) / 2)
   / IZR image_H)%R.

Definition center_x_of (j : nat) : R :=
  ((stride_x_of / 2 + INR j * stride_x_of) / IZR image_W)%R.
Definition center_y_of (i : nat) : R :=
  ((stride_y_of / 2 + INR i * stride_y_of) / IZR image_H)%R.

Definition corner_anchor (p : nat * nat) (v : nat * R) : list R :=
  [(center_x_of p.2 - half_width v.1 v.2)%R;
   (center_y_of p.1 - half_height v.1 v.2)%R;
   (center_x_of p.2 + half_width v.1 v.2)%R;
   (center_y_of p.1 + half_height v.1 v.2)%R].

Definition center_anchor (p : nat * nat) (v : nat * R) : list R :=
  [center_x_of p.2; center_y_of p.1;
   (2 * half_width v.1 v.2)%R; (2 * half_height v.1 v.2)%R].
End FlatLoop.

Definition level_corner_anchors (image_H image_W : Z) (num_scales : nat)
    (aspect_ratios : vector) (scale : R) (b : branch) : matrix :=
  let '(feature_H, feature_W) := feature_dims b in
  flat_map (fun p =>
              map (corner_anchor image_H image_W num_scales scale
                                 feature_H feature_W p)
                  (variants num_scales aspect_ratios))
           (grid (Z.to_nat feature_H) (Z.to_nat feature_W)).

Definition level_center_anchors (image_H image_W : Z) (num_scales : nat)
    (aspect_ratios : vector) (scale : R) (b : branch) : matrix :=
  let '(feature_H, feature_W) := feature_dims b in
  flat_map (fun p =>
              map (center_anchor image_H image_W num_scales scale
                                 feature_H feature_W p)
                  (variants num_scales aspect_ratios))
           (grid (Z.to_nat feature_H) (Z.to_nat feature_W)).

(** Number of anchors of one level, and of the levels before level [l]. *)
Definition level_size (num_scales : nat) (aspect_ratios : vector)
    (b : branch) : nat :=
  let '(feature_H, feature_W) := feature_dims b in
  (Z.to_nat feature_H * Z.to_nat feature_W
   * (num_scales * length aspect_ratios))%nat.

Definition level_offset (num_scales : nat) (aspect_ratios : vector)
    (branches : list branch) (l : nat) : nat :=
  sum_list (map (level_size num_scales aspect_ratios) (take l branches)).

(** A branch whose feature map has positive height and width. *)
Definition valid_branch (b : branch) : Prop :=
  exists feature_H feature_W,
    slice 1 3 (shape b) = [feature_H; feature_W]
    /\ 0 < feature_H /\ 0 < feature_W.

(** ** The normalisation as the specification words it

    The same computation as [compute_box_coordinates], with the image
    shape read as [(H, W)]: widths and x-centers are then divided by the
    image height, heights and y-centers by the image width. *)
Definition cross_axis_box_coordinates (image_shape : list Z)
    (stride_y stride_x octave_scale aspect scale : R) : result matrix :=
  '(image_H, image_W) ← unpack2 image_shape;
  let base_anchor_width := (scale * stride_x * Rpower 2 octave_scale)%R in
  let base_anchor_height := (scale * stride_y * Rpower 2 octave_scale)%R in
  let anchor_half_width :=
    ((base_anchor_width * sqrt aspect / 2) / IZR image_H)%R in
  let anchor_half_height :=
    ((base_anchor_height * (1 / sqrt aspect) / 2) / IZR image_W)%R in
  x ← np_arange (stride_x / 2)%R (IZR image_H) stride_x;
  y ← np_arange (stride_y / 2)%R (IZR image_W) stride_y;
  let '(center_x, center_y) := np_meshgrid x y in
  let center_x := map (fun v => (v / IZR image_H)%R) (reshape_flat center_x) in
  let center_y := map (fun v => (v / IZR image_W)%R) (reshape_flat center_y) in
  Ok [map (fun c => (c - anchor_half_width)%R) center_x;
      map (fun c => (c - anchor_half_height)%R) center_y;
      map (fun c => (c + anchor_half_width)%R) center_x;
      map (fun c => (c + anchor_half_height)%R) center_y].

(** * shapes_loader.py *)

(** ** Random draws

    A sampler is the list of its outcomes, results or exceptions; the
    outcomes of a draw of the random module are equally likely. *)

Record sampler (A : Type) : Type := Sampler { outcomes : list (result A) }.
Arguments Sampler {A} outcomes.
Arguments outcomes {A} s.

#[export] Instance sampler_ret : MRet sampler := fun A a => Sampler [Ok a].

#[export] Instance sampler_bind : MBind sampler := fun A B k m =>
  Sampler (flat_map (fun r => match r with
                              | Ok a => outcomes (k a)
                              | Raise e => [Raise e]
                              end)
                    (outcomes m)).

(** A deterministic step inside a sampler. *)
Definition lift {A} (r : result A) : sampler A := Sampler [r].

(** One of [values], each as likely as the others; [if_empty] is raised
    when there is nothing to draw from. *)
Definition uniform {A} (values : list A) (if_empty : exn) : sampler A :=
  match values with
  | [] => Sampler [Raise if_empty]
  | _ => Sampler (map Ok values)
  end.

(** [random.randint(a, b)]: an integer N with a <= N <= b *)
Definition random_randint (a b : Z) : sampler Z :=
  uniform (seqZ a (b - a + 1)) "ValueError".

(** [random.choice(seq)] *)
Definition random_choice {A} (seq : list A) : sampler A :=
  uniform seq "IndexError".

(** [np.random.randint(low, high)]: an integer N with low <= N < high *)
Definition np_random_randint (low high : Z) : sampler Z :=
  uniform (seqZ low (high - low)) "ValueError".

(** [np.random.randint(low, high, size=3)] *)
Definition np_random_randint_3 (low high : Z) : sampler (Z * Z * Z) :=
  c1 ← np_random_randint low high;
  c2 ← np_random_randint low high;
  c3 ← np_random_randint low high;
  mret (c1, c2, c3).

(** A loop that builds a list with [append], in a sampler. *)
Fixpoint sample_each {A B} (f : A -> sampler B) (l : list A)
    : sampler (list B) :=
  match l with
  | [] => mret []
  | a :: l' => b ← f a; bs ← sample_each f l'; mret (b :: bs)
  end.

(** A loop that updates one variable, stopping at the first exception. *)
Fixpoint for_fold {A S} (f : S -> A -> result S) (s : S) (l : list A)
    : result S :=
  match l with
  | [] => Ok s
  | a :: l' => s' ← f s a; for_fold f s' l'
  end.

(** ** Dictionaries *)

(** [dict(zip(keys, values))]: a key that occurs twice keeps its last
    value. *)
Definition dict_zip {V} (keys : list string) (values : list V)
    : gmap string V :=
  list_to_map (reverse (zip keys values)).

(** [d[key]] *)
Definition dict_getitem {V} (d : gmap string V) (key : string) : result V :=
  match d !! key with
  | Some v => Ok v
  | None => Raise "KeyError"
  end.

(** ** Images and the drawing primitives *)

(** An array of shape [(H, W, channels)]: rows of pixels. *)
Abbreviation image := (list (list (list Z))).

Definition color : Type := Z * Z * Z.

(** An array of shape [(H, W, len(pixel))] filled with [pixel]:
    [np.zeros([H, W, 1])] for the pixel [[0]]. *)
Definition np_full (H W : Z) (pixel : list Z) : image :=
  replicate (Z.to_nat H) (replicate (Z.to_nat W) pixel).

(** Which pixels [(x, y)] a shape of a given center and size covers:
    the rasterisation of the three drawing primitives. *)
Class Rasterizer : Type := {
  square_covers : Z * Z -> Z -> Z -> Z -> bool;
  circle_covers : Z * Z -> Z -> Z -> Z -> bool;
  triangle_covers : Z * Z -> Z -> Z -> Z -> bool
}.

(** A pixel takes a colour channel by channel. *)
Definition paint (c : color) (pixel : list Z) : list Z :=
  let '(c1, c2, c3) := c in take (length pixel) [c1; c2; c3].

Definition stamp (covers : Z -> Z -> bool) (c : color) (img : image) : image :=
  imap (fun y row =>
          imap (fun x pixel =>
                  if covers (Z.of_nat x) (Z.of_nat y) then paint c pixel
                  else pixel)
               row)
       img.

Section Draw.
Context `{Rasterizer}.

(** Modelled from the spec: [draw_square], [draw_circle] and
    [draw_triangle] of [paz.backend.image.draw] are not part of the sources
    at hand.  The specification has each of them return the image with the
    shape stamped on it in the given colour and leaves the rasterisation
    open; it is the parameter [Rasterizer] here. *)
Definition draw_square (img : image) (center : Z * Z) (c : color) (size : Z)
    : image :=
  stamp (square_covers center size) c img.

Definition draw_circle (img : image) (center : Z * Z) (c : color) (size : Z)
    : image :=
  stamp (circle_covers center size) c img.

Definition draw_triangle (img : image) (center : Z * Z) (c : color) (size : Z)
    : image :=
  stamp (triangle_covers center size) c img.
End Draw.

(** A rasterisation to compute with: the square of half-side [size], the
    disc of radius [size], and the triangle with its apex [size] above
    the center and its base [size] below it. *)
Definition filled_shapes : Rasterizer := {|
  square_covers := fun '(center_x, center_y) size x y =>
    (Z.abs (x - center_x) <=? size) && (Z.abs (y - center_y) <=? size);
  circle_covers := fun '(center_x, center_y) size x y =>
    (x - center_x) * (x - center_x) + (y - center_y) * (y - center_y)
    <=? size * size;
  triangle_covers := fun '(center_x, center_y) size x y =>
    (Z.abs (y - center_y) <=? size)
    && (2 * Z.abs (x - center_x) <=? y - (center_y - size))
|}.

(** ** Non-maximum suppression *)

Definition box_area (box : list Z) : Z :=
  match box with
  | [x_min; y_min; x_max; y_max] => (x_max - x_min) * (y_max - y_min)
  | _ => 0
  end.

Definition intersection_area (a b : list Z) : Z :=
  match a, b with
  | [ax_min; ay_min; ax_max; ay_max], [bx_min; by_min; bx_max; by_max] =>
      Z.max 0 (Z.min ax_max bx_max - Z.max ax_min bx_min)
      * Z.max 0 (Z.min ay_max by_max - Z.max ay_min by_min)
  | _, _ => 0
  end.

(** intersection over union *)
Definition iou (a b : list Z) : Q :=
  let intersection := intersection_area a b in
  (inject_Z intersection
   / inject_Z (box_area a + box_area b - intersection))%Q.

(** Insertion into a list of indices ordered by decreasing score; among
    equal scores the index that came first stays first. *)
Fixpoint insert_by_score (scores : list Q) (i : nat) (sorted : list nat)
    : list nat :=
  match sorted with
  | [] => [i]
  | j :: rest =>
      if Qle_bool (nth i scores 0%Q) (nth j scores 0%Q)
      then j :: insert_by_score scores i rest
      else i :: j :: rest
  end.

Definition order_by_score (scores : list Q) (n : nat) : list nat :=
  foldl (fun sorted i => insert_by_score scores i sorted) [] (seq 0 n).

(** The greedy filter: a candidate is dropped when its box overlaps a box
    kept before it beyond the threshold. *)
Fixpoint nms_select (boxes : list (list Z)) (iou_thresh : Q)
    (candidates kept : list nat) : list nat :=
  match candidates with
  | [] => kept
  | i :: rest =>
      if existsb (fun k => negb (Qle_bool (iou (nth k boxes []) (nth i boxes []))
                                          iou_thresh))
                 kept
      then nms_select boxes iou_thresh rest kept
      else nms_select boxes iou_thresh rest (kept ++ [i])
  end.

(** Modelled from the spec: [apply_non_max_suppression] of
    [paz.backend.boxes] is not part of the sources at hand.  The
    specification has it return the ordered kept indices and their count,
    as a greedy filter in order of decreasing score, equal scores in the
    order of the original indices, that drops a box overlapping an
    earlier-kept box beyond [iou_thresh]. *)
Definition apply_non_max_suppression (boxes : list (list Z)) (scores : list Q)
    (iou_thresh : Q) : list nat * nat :=
  let kept :=
    nms_select boxes iou_thresh (order_by_score scores (length boxes)) [] in
  (kept, length kept).

(** ** The loader *)

Definition dimensions : Type := Z * Z * Z.
Definition shape_descriptor : Type := string * color * dimensions.

Record Shapes : Type := {
  name_to_arg : gmap string nat;
  num_samples : nat;
  image_size : Z * Z;
  labels : list string;
  iou_thresh : Q;
  max_num_shapes : Z;
  class_names : list string
}.

Record sample : Type := {
  sample_image : image;
  sample_masks : image;
  sample_box_data : list (list Z)
}.

(** [Shapes.__init__]; [None] for the default ['all'] of [class_names]. *)
Definition Shapes_init (num_samples : nat) (image_size : Z * Z)
    (class_names : option (list string)) (iou_thresh : Q)
    (max_num_shapes : Z) : Shapes :=
  let class_names :=
    match class_names with
    | None => ["BG"; "square"; "circle"; "triangle"]
    | Some names => names
    end in
  {| name_to_arg := dict_zip class_names (seq 0 (length class_names));
     num_samples := num_samples;
     image_size := image_size;
     labels := ["image"; "masks"; "box_data"];
     iou_thresh := iou_thresh;
     max_num_shapes := max_num_shapes;
     class_names := class_names |}.

Definition _sample_shape (self : Shapes) (H W offset : Z)
    : sampler shape_descriptor :=
  shape ← random_choice (drop 1 (class_names self));
  color ← np_random_randint_3 0 255;
  center_x ← random_randint offset (W - offset - 1);
  center_y ← random_randint offset (H - offset - 1);
  size ← random_randint offset (H / 4);
  mret (shape, color, (center_x, center_y, size)).

Definition _sample_shapes (self : Shapes) (num_shapes H W offset : Z)
    : sampler (list shape_descriptor) :=
  N ← random_randint 1 num_shapes;
  sample_each (fun shape_arg => _sample_shape self H W 20)
              (seq 0 (Z.to_nat N)).

Definition _compute_bounding_box (center_x center_y size : Z) : list Z :=
  let '(x_min, y_min) := (center_x - size, center_y - size) in
  let '(x_max, y_max) := (center_x + size, center_y + size) in
  [x_min; y_min; x_max; y_max].

Definition _compute_bounding_boxes (shapes : list shape_descriptor)
    : list (list Z) :=
  map (fun shape : shape_descriptor =>
         let '(center_x, center_y, size) := shape.2 in
         _compute_bounding_box center_x center_y size)
      shapes.

Definition _filter_shapes (boxes : list (list Z))
    (shapes : list shape_descriptor) (iou_thresh : Q)
    : result (list shape_descriptor * list (list Z)) :=
  let scores := repeat 1%Q (length boxes) in
  let '(args, num_boxes) := apply_non_max_suppression boxes scores iou_thresh in
  let box_args := take num_boxes args in
  selected_shapes ← for_each (getitem shapes) box_args;
  selected_boxes ← for_each (getitem boxes) box_args;
  Ok (selected_shapes, selected_boxes).

Section Loader.
Context `{Rasterizer}.

Definition _draw_shape (self : Shapes) (img : image) (shape : string)
    (dims : dimensions) (c : color) : result image :=
  let '(center_x, center_y, size) := dims in
  let functions := [draw_square; draw_circle; draw_triangle] in
  let draw := dict_zip (drop 1 (class_names self)) functions in
  f ← dict_getitem draw shape;
  Ok (f img (center_x, center_y) c size).

Definition _draw_shapes (self : Shapes) (shapes : list shape_descriptor)
    : sampler image :=
  let '(H, W) := image_size self in
  '(b1, b2, b3) ← np_random_randint_3 0 255;
  let img := np_full H W [b1 mod 256; b2 mod 256; b3 mod 256] in
  lift (for_fold (fun img '(shape, c, dims) =>
                    _draw_shape self img shape dims c)
                 img shapes).
End Loader.


(** ** Masks *)

(** [np.concatenate(arrays, axis=-1)] of arrays of shape [(H, W, c)]: an
    empty sequence and arrays of different heights or widths raise. *)
Fixpoint np_concatenate_last (arrays : list image) : result image :=
  match arrays with
  | [] => Raise "ValueError"
  | [a] => Ok a
  | a :: rest =>
      r ← np_concatenate_last rest;
      if bool_decide (map length a = map length r)
      then Ok (zip_with (zip_with app) a r)
      else Raise "ValueError"
  end.

(** [a.astype(np.uint8)] *)
Definition astype_uint8 (a : image) : image :=
  map (map (map (fun v => v mod 256))) a.

(** [masks[:, :, i]] *)
Definition channel (i : nat) (masks : image) : list (list Z) :=
  map (map (fun pixel => nth i pixel 0)) masks.

(** [masks[:, :, i] = values] *)
Definition set_channel (i : nat) (values : list (list Z)) (masks : image)
    : image :=
  zip_with (zip_with (fun pixel v => <[i := v]> pixel)) masks values.

(** the truth value of an array entry *)
Definition truth (v : Z) : bool := negb (v =? 0).

Definition np_logical_and (a b : list (list Z)) : list (list bool) :=
  zip_with (zip_with (fun x y => truth x && truth y)) a b.

Definition np_logical_xor (a : list (list Z)) (b : list (list bool))
    : list (list bool) :=
  zip_with (zip_with (fun x y => xorb (truth x) y)) a b.

(** [a.astype(np.uint8)] of a boolean array *)
Definition bool_astype_uint8 (a : list (list bool)) : list (list Z) :=
  map (map Z.b2z) a.

(** The body of the inner loop of [_draw_masks]. *)
Definition resolve_pair (i j : nat) (masks : image) : image :=
  let occulusions := np_logical_and (channel i masks) (channel j masks) in
  set_channel i
    (bool_astype_uint8 (np_logical_xor (channel i masks) occulusions))
    masks.

(** The two nested loops of [_draw_masks] over the [n] channels. *)
Definition resolve_occlusions (n : nat) (masks : image) : image :=
  foldl (fun masks i =>
           foldl (fun masks j => resolve_pair i j masks)
                 masks (seq (i + 1) (n - (i + 1))))
        masks (seq 0 n).

(** [enumerate(l)] *)
Definition enumerate {A} (l : list A) : list (nat * A) :=
  imap (fun i a => (i, a)) l.

Section Masks.
Context `{Rasterizer}.

(** The body of the first loop of [_draw_masks]. *)
Definition draw_class_mask (self : Shapes) (class_masks : list image)
    (item : nat * shape_descriptor) : result (list image) :=
  let '(shape_arg, (shape, c, dims)) := item in
  mask ← getitem class_masks shape_arg;
  class_mask ← _draw_shape self mask shape dims (1, 1, 1);
  Ok (<[shape_arg := class_mask]> class_masks).

(** The channels of [_draw_masks] before they are concatenated. *)
Definition _draw_class_masks (self : Shapes) (shapes : list shape_descriptor)
    : result (list image) :=
  let '(H, W) := image_size self in
  let class_masks :=
    map (fun class_mask => np_full H W [0])
        (seq 0 (Z.to_nat (max_num_shapes self))) in
  for_fold (draw_class_mask self) class_masks (enumerate shapes).

Definition _draw_masks (self : Shapes) (shapes : list shape_descriptor)
    : result image :=
  class_masks ← _draw_class_masks self shapes;
  masks ← np_concatenate_last class_masks;
  let masks := astype_uint8 masks in
  Ok (resolve_occlusions (length class_masks) masks).

Definition load_sample (self : Shapes) : sampler sample :=
  let '(H, W) := image_size self in
  shapes ← _sample_shapes self (max_num_shapes self) H W 20;
  let boxes := _compute_bounding_boxes shapes in
  '(shapes, boxes) ← lift (_filter_shapes boxes shapes (iou_thresh self));
  img ← _draw_shapes self shapes;
  masks ← lift (_draw_masks self shapes);
  class_args ←
    lift (for_each (fun name : shape_descriptor =>
                      dict_getitem (name_to_arg self) name.1.1)
                   shapes);
  let class_args := map (fun arg => [Z.of_nat arg]) class_args in
  box_data ←
    lift (if Nat.eqb (length boxes) (length class_args)
          then Ok (zip_with app boxes class_args)
          else Raise "ValueError");
  mret {| sample_image := img;
          sample_masks := masks;
          sample_box_data := box_data |}.

Definition load_data (self : Shapes) : sampler (list sample) :=
  sample_each (fun arg => load_sample self) (seq 0 (num_samples self)).
End Masks.

(** The number of channels with a nonzero pixel. *)
Definition channel_nonempty (masks : image) (i : nat) : bool :=
  existsb (existsb (fun pixel => truth (nth i pixel 0))) masks.

Definition nonempty_channels (n : nat) (masks : image) : nat :=
  length (filter (fun i => channel_nonempty masks i = true) (seq 0 n)).


(** ** The occlusion loops, pixel by pixel

    What the loops of [_draw_masks] do to the channel values of one pixel;
    [resolve_occlusions] is proved to be this map over the pixels. *)

Definition resolve_pair_pixel (i j : nat) (pixel : list Z) : list Z :=
  let occulusion := truth (nth i pixel 0) && truth (nth j pixel 0) in
  <[i := Z.b2z (xorb (truth (nth i pixel 0)) occulusion)]> pixel.

Definition resolve_pixel (n : nat) (pixel : list Z) : list Z :=
  foldl (fun pixel i =>
           foldl (fun pixel j => resolve_pair_pixel i j pixel)
                 pixel (seq (i + 1) (n - (i + 1))))
        pixel (seq 0 n).

(** Channel [i] covers the pixel and no later channel does. *)
Definition on_top (n : nat) (pixel : list Z) (i : nat) : bool :=
  truth (nth i pixel 0)
  && forallb (fun j => negb (truth (nth j pixel 0))) (seq (S i) (n - S i)).

(** The value the loops leave in channel [i] of a pixel: 1 when the
    channel is on top, 0 when it is not; the last channel is never
    written. *)
Definition resolved_value (n : nat) (pixel : list Z) (i : nat) : Z :=
  if (S i <? n)%nat then Z.b2z (on_top n pixel i) else nth i pixel 0.

(** ** The shapes that can be drawn *)

Definition possible_shape (self : Shapes) (H W offset : Z)
    (s : shape_descriptor) : Prop :=
  let '(shape, (c1, c2, c3), (center_x, center_y, size)) := s in
  shape ∈ drop 1 (class_names self)
  /\ (0 <= c1 < 255 /\ 0 <= c2 < 255 /\ 0 <= c3 < 255)
  /\ offset <= center_x <= W - offset - 1
  /\ offset <= center_y <= H - offset - 1
  /\ offset <= size <= H / 4.

(** ** Shapes of the mask channels *)

(** An array of shape [(H, W, 1)]. *)
Definition single_channel (a : image) : Prop :=
  Forall (Forall (fun pixel => length pixel = 1%nat)) a.

(** Channel [i] is zero everywhere. *)
Definition blank_channel (i : nat) (a : image) : Prop :=
  Forall (Forall (fun pixel => nth i pixel 0 = 0)) a.

(** A box is a row of four coordinates. *)
Definition is_box (row : list R) : Prop := length row = 4%nat.


(** ** A loader and three shapes to compute with

    A 160 x 160 canvas with the default classes and thresholds; a small
    square, a large square over it, and a second small square inside the
    large one. *)
Definition example_loader : Shapes :=
  Shapes_init 1 (160, 160) None (3 # 10)%Q 4.

Definition nested_squares : list shape_descriptor :=
  [("square", (10, 20, 30), (60, 60, 20));
   ("square", (40, 50, 60), (80, 80, 40));
   ("square", (70, 80, 90), (100, 100, 20))].

(** ** Arrays of zeros and ones *)

(** An array of shape [(H, W, n)] whose entries are 0 or 1. *)
Definition binary_array (H W n : nat) (a : image) : Prop :=
  length a = H
  /\ Forall (fun row =>
               length row = W
               /\ Forall (fun pixel =>
                            length pixel = n
                            /\ Forall (fun v => v = 0 \/ v = 1) pixel)
                         row)
            a.

(** ** Calls that return *)

(** A call has an outcome, and none of its outcomes is an exception. *)
Definition returns {A} (m : sampler A) : Prop :=
  (exists a, Ok a ∈ outcomes m) /\ forall e, Raise e ∉ outcomes m.

(** A class name with a drawing primitive and a class index: one of the
    first three names after the background, and a key of [name_to_arg]. *)
Definition drawable_class (self : Shapes) (name : string) : Prop :=
  name ∈ take 3 (drop 1 (class_names self))
  /\ is_Some (name_to_arg self !! name).

(** ** What the masks show *)

(** The value of a one-channel array at the pixel in column [x] of row
    [y]. *)
Definition value_at (a : image) (y x : nat) : Z :=
  nth 0 (nth x (nth y a []) []) 0.

Section Covering.
Context `{Rasterizer}.

(** Whether the [i]-th of [shapes] covers the pixel in column [x] of row
    [y]: the rasterisation of its class, the one that [_draw_shape] looks
    up, at its center and size.  A position without a shape and a class
    without a drawing primitive cover nothing. *)
Definition shape_covers (self : Shapes) (shapes : list shape_descriptor)
    (i x y : nat) : bool :=
  match shapes !! i with
  | Some (shape, _, (center_x, center_y, size)) =>
      match dict_zip (drop 1 (class_names self))
                     [square_covers; circle_covers; triangle_covers]
            !! shape with
      | Some covers => covers (center_x, center_y) size (Z.of_nat x) (Z.of_nat y)
      | None => false
      end
  | None => false
  end.

(** The [i]-th shape covers the pixel and, of the [n] channels, no later
    shape does. *)
Definition shape_on_top (self : Shapes) (shapes : list shape_descriptor)
    (n i x y : nat) : bool :=
  shape_covers self shapes i x y
  && forallb (fun j => negb (shape_covers self shapes j x y))
             (seq (S i) (n - S i)).
End Covering.

(** * detection.py *)

(** ** Two-dimensional arrays

    An array of shape [(len(rows), columns)]; the number of columns is
    kept apart from the rows, an array without rows has one as well. *)

Record array2 : Type := Array2 { columns : nat; rows : list (list R) }.

(** Every row has [columns] entries. *)
Definition rectangular (a : array2) : Prop :=
  Forall (fun row => length row = columns a) (rows a).

(** [a[:, :stop]] *)
Definition columns_until (stop : nat) (a : array2) : array2 :=
  Array2 (Nat.min stop (columns a)) (map (take stop) (rows a)).

(** [a[:, start:]] *)
Definition columns_from (start : nat) (a : array2) : array2 :=
  Array2 (columns a - start) (map (drop start) (rows a)).

(** [np.hsplit(a, sections)] for an integer [sections]: the columns cut
    into [sections] arrays of equal width, an error when [sections] does
    not divide the number of columns. *)
Definition np_hsplit (a : array2) (sections : nat) : result (list array2) :=
  if Nat.eqb sections 0 then Raise "ZeroDivisionError"
  else if negb (Nat.eqb (columns a mod sections) 0) then Raise "ValueError"
  else
    let each := (columns a / sections)%nat in
    Ok (map (fun i =>
               Array2 each
                      (map (fun row => take each (drop (i * each) row))
                           (rows a)))
            (seq 0 sections)).

(** [a, b, c, d = t] *)
Definition unpack4 {A} (t : list A) : result (A * A * A * A) :=
  match t with
  | [a; b; c; d] => Ok (a, b, c, d)
  | _ => Raise "ValueError"
  end.

(** [np.concatenate(arrays, axis=1)] of two-dimensional arrays *)
Fixpoint concatenate_columns (arrays : list array2) : result array2 :=
  match arrays with
  | [] => Raise "ValueError"
  | [a] => Ok a
  | a :: rest =>
      r ← concatenate_columns rest;
      if Nat.eqb (length (rows a)) (length (rows r))
      then Ok (Array2 (columns a + columns r) (zip_with app (rows a) (rows r)))
      else Raise "ValueError"
  end.

(** [np.concatenate([a, b], axis=2)] of three-dimensional arrays, lists
    of two-dimensional ones *)
Definition concatenate_axis2 (a b : list array2) : result (list array2) :=
  if Nat.eqb (length a) (length b)
  then for_each (fun '(x, y) => concatenate_columns [x; y]) (zip a b)
  else Raise "ValueError".

(** ** The model output *)

Definition change_box_coordinates (outputs : list array2)
    : result (list array2) :=
  outputs ← getitem outputs 0;
  let '(boxes, classes) := (columns_until 4 outputs, columns_from 4 outputs) in
  sections ← np_hsplit boxes 4;
  '(s1, s2, s3, s4) ← unpack4 sections;
  boxes ← concatenate_columns [s2; s1; s4; s3];
  let boxes := [boxes] in
  let classes := [classes] in
  concatenate_axis2 boxes classes.

(** A row [(y_min, x_min, y_max, x_max, classes...)] with the
    coordinates of each corner exchanged. *)
Definition exchange_coordinates (row : list R) : list R :=
  match row with
  | y_min :: x_min :: y_max :: x_max :: classes =>
      x_min :: y_min :: x_max :: y_max :: classes
  | _ => row
  end.

(** * Properties of the anchor generator *)

Section ListFacts.
Context {A B : Type}.

Lemma for_each_seq_getitem (f : nat -> result B) (g : A -> B) (l : list A) :
  (forall i a, l !! i = Some a -> f i = Ok (g a)) ->
  for_each f (seq 0 (length l)) = Ok (map g l).
Proof.
  intros Hf.
  assert (Hgen : forall k,
            (forall i a, l !! i = Some a -> f (k + i)%nat = Ok (g a)) ->
            for_each f (seq k (length l)) = Ok (map g l)).
  { clear Hf. induction l as [|a l IH]; intros k Hf; simpl; [done|].
    specialize (Hf 0%nat a eq_refl) as Ha. rewrite Nat.add_0_r in Ha.
    rewrite Ha. simpl.
    rewrite (IH (S k)); [done|].
    intros i b Hb. replace (S k + i)%nat with (k + S i)%nat by lia.
    by apply Hf. }
  apply (Hgen 0%nat). intros i a. apply Hf.
Qed.

Lemma lookup_flat_map_uniform (f : A -> list B) (l : list A) n i k a :
  (forall x, x ∈ l -> length (f x) = n) ->
  l !! i = Some a -> (k < n)%nat ->
  flat_map f l !! (i * n + k)%nat = f a !! k.
Proof.
  revert i. induction l as [|x l IH]; intros i Hlen Hi Hk; [done|].
  simpl. destruct i as [|i]; simpl in *.
  - inversion Hi; subst. rewrite lookup_app_l; [done|].
    rewrite Hlen; [done|by constructor].
  - rewrite lookup_app_r; rewrite Hlen by constructor; [|lia].
    replace (n + i * n + k - n)%nat with (i * n + k)%nat by lia.
    apply IH; [|done|done]. intros; apply Hlen. by constructor.
Qed.

Lemma length_flat_map_uniform (f : A -> list B) (l : list A) n :
  (forall x, x ∈ l -> length (f x) = n) ->
  length (flat_map f l) = (length l * n)%nat.
Proof.
  induction l as [|x l IH]; intros Hlen; simpl; [done|].
  rewrite length_app, Hlen by constructor.
  rewrite IH; [done|]. intros; apply Hlen. by constructor.
Qed.
End ListFacts.

(** ** numpy facts *)

(** The positions along one axis: [extent / step] of them when the step
    divides the extent into [n] cells. *)
Lemma np_arange_cells (extent n : Z) :
  0 < extent -> 0 < n ->
  let step := (IZR extent * / IZR n)%R in
  np_arange (step / 2)%R (IZR extent) step
  = Ok (map (fun i => (step / 2 + INR i * step)%R) (seq 0 (Z.to_nat n))).
Proof.
  intros He Hn step. unfold np_arange.
  assert (He' : (0 < IZR extent)%R) by (apply IZR_lt; lia).
  assert (Hn' : (0 < IZR n)%R) by (apply IZR_lt; lia).
  assert (Hstep : (0 < step)%R).
  { unfold step. apply Rmult_lt_0_compat; [done|]. by apply Rinv_0_lt_compat. }
  destruct (Req_dec_T step 0) as [E|_]; [lra|].
  replace (Zceil ((IZR extent - step / 2) / step)) with n; [done|].
  symmetry. apply Zceil_eq.
  replace ((IZR extent - step / 2) / step)%R with (IZR n - / 2)%R; [lra|].
  unfold step. field. lra.
Qed.

Lemma meshgrid_flat_x {P} (fx : nat -> R) (fy : P -> R) (js : list nat)
    (ps : list P) :
  reshape_flat (np_meshgrid (map fx js) (map fy ps)).1
  = map (fun p => fx p.2) (flat_map (fun i => map (fun j => (i, j)) js) ps).
Proof.
  unfold reshape_flat, np_meshgrid. simpl.
  induction ps as [|p ps IH]; simpl; [done|].
  rewrite map_app, IH, !map_map. done.
Qed.

Lemma meshgrid_flat_y {P} (fx : nat -> R) (fy : P -> R) (js : list nat)
    (ps : list P) :
  reshape_flat (np_meshgrid (map fx js) (map fy ps)).2
  = map (fun p => fy p.1) (flat_map (fun i => map (fun j => (i, j)) js) ps).
Proof.
  unfold reshape_flat, np_meshgrid. simpl.
  induction ps as [|p ps IH]; simpl; [done|].
  rewrite map_app, IH, !map_map. done.
Qed.

Lemma transpose_columns {P} (f1 f2 f3 f4 : P -> R) (g : list P) :
  transpose [map f1 g; map f2 g; map f3 g; map f4 g]
  = map (fun p => [f1 p; f2 p; f3 p; f4 p]) g.
Proof.
  simpl. induction g as [|p g IH]; simpl; [done|]. by rewrite IH.
Qed.

Lemma np_concatenate_axis1_map {P C} (f : P -> C -> list R) (g : list P)
    (cs : list C) :
  cs <> [] ->
  np_concatenate_axis1 (map (fun c => expand_dims_1 (map (fun p => f p c) g)) cs)
  = Ok (map (fun p => map (f p) cs) g).
Proof.
  induction cs as [|c cs IH]; [done|]. intros _.
  destruct cs as [|c' cs].
  - simpl. unfold expand_dims_1. by rewrite map_map.
  - change (np_concatenate_axis1 (map _ (c :: c' :: cs)))
      with (r ← np_concatenate_axis1
                  (map (fun c => expand_dims_1 (map (fun p => f p c) g))
                       (c' :: cs));
            if Nat.eqb (length (expand_dims_1 (map (fun p => f p c) g)))
                       (length r)
            then Ok (zip_with app (expand_dims_1 (map (fun p => f p c) g)) r)
            else Raise "ValueError").
    rewrite IH by done. simpl. unfold expand_dims_1.
    rewrite !length_map, Nat.eqb_refl. f_equal.
    clear IH. induction g as [|p g IHg]; simpl; [done|]. by rewrite IHg.
Qed.

Lemma zip5_app {A} (a1 a2 b1 b2 c1 c2 d1 d2 e1 e2 : list A) :
  length b1 = length a1 -> length c1 = length a1 ->
  length d1 = length a1 -> length e1 = length a1 ->
  zip5 (a1 ++ a2) (b1 ++ b2) (c1 ++ c2) (d1 ++ d2) (e1 ++ e2)
  = zip5 a1 b1 c1 d1 e1 ++ zip5 a2 b2 c2 d2 e2.
Proof.
  revert b1 c1 d1 e1.
  induction a1 as [|x a1 IH]; intros [|? b1] [|? c1] [|? d1] [|? e1];
    simpl; intros; try lia; [done|].
  rewrite IH by lia. done.
Qed.

Lemma zip5_block {A} (sy sx o sc : A) (ar : list A) :
  zip5 (repeat sy (length ar)) (repeat sx (length ar))
       (repeat o (length ar)) ar (repeat sc (length ar))
  = map (fun a => (sy, sx, o, a, sc)) ar.
Proof. induction ar as [|a ar IH]; simpl; [done|]. by rewrite IH. Qed.

Lemma zip5_configurations_gen (sy sx scale : R) (h : nat -> R)
    (ar : vector) (ks : list nat) :
  zip5 (repeat sy (length ks * length ar))
       (repeat sx (length ks * length ar))
       (map h (flat_map (fun x => repeat x (length ar)) ks))
       (concat (repeat ar (length ks)))
       (repeat scale (length ks * length ar))
  = map (fun v => (sy, sx, h v.1, v.2, scale))
        (flat_map (fun s => map (fun a => (s, a)) ar) ks).
Proof.
  induction ks as [|k ks IH]; simpl; [done|].
  rewrite !repeat_app, !map_app.
  rewrite zip5_app; rewrite ?length_map, ?repeat_length; try done.
  rewrite IH. f_equal.
  rewrite map_map, map_repeat. simpl.
  apply zip5_block.
Qed.

(** The five parallel configuration arrays of a level, zipped: one entry
    per variant, scale index outer, aspect ratio inner. *)
Lemma zip5_configurations (sy sx scale : R) (num_scales : nat)
    (aspect_ratios : vector) :
  let n := (num_scales * length aspect_ratios)%nat in
  zip5 (np_repeat_scalar sy n) (np_repeat_scalar sx n)
       (build_octaves num_scales aspect_ratios)
       (build_aspect aspect_ratios num_scales)
       (build_scales scale n)
  = map (fun v => (sy, sx, (INR v.1 / INR num_scales)%R, v.2, scale))
        (variants num_scales aspect_ratios).
Proof.
  intros n.
  pose proof (zip5_configurations_gen sy sx scale
                (fun k => (INR k / INR num_scales)%R) aspect_ratios
                (seq 0 num_scales)) as Hgen.
  rewrite length_seq in Hgen. exact Hgen.
Qed.

Lemma for_each_map_map {A B C} (f : B -> result C) (h : A -> B) (g : A -> C)
    (l : list A) :
  (forall a, a ∈ l -> f (h a) = Ok (g a)) ->
  for_each f (map h l) = Ok (map g l).
Proof.
  induction l as [|a l IH]; intros Hf; simpl; [done|].
  rewrite (Hf a) by constructor. simpl.
  rewrite IH; [done|]. intros; apply Hf. by constructor.
Qed.

Lemma variants_nonempty (num_scales : nat) (aspect_ratios : vector) :
  (1 <= num_scales)%nat -> aspect_ratios <> [] ->
  variants num_scales aspect_ratios <> [].
Proof.
  intros Hn Ha. unfold variants.
  destruct num_scales as [|n]; [lia|].
  destruct aspect_ratios as [|a ar]; [done|]. simpl. done.
Qed.

Lemma length_variants (num_scales : nat) (aspect_ratios : vector) :
  length (variants num_scales aspect_ratios)
  = (num_scales * length aspect_ratios)%nat.
Proof.
  unfold variants.
  rewrite (length_flat_map_uniform _ _ (length aspect_ratios)).
  - by rewrite length_seq.
  - intros; apply length_map.
Qed.

Lemma length_grid (rows cols : nat) : length (grid rows cols) = (rows * cols)%nat.
Proof.
  unfold grid. rewrite (length_flat_map_uniform _ _ cols).
  - by rewrite length_seq.
  - intros. by rewrite length_map, length_seq.
Qed.

(** ** The generator, level by level *)

Section Level.
Variables (image_H image_W : Z) (num_scales : nat) (scale : R).
Variables (feature_H feature_W : Z).
Hypothesis image_H_pos : 0 < image_H.
Hypothesis image_W_pos : 0 < image_W.
Hypothesis feature_H_pos : 0 < feature_H.
Hypothesis feature_W_pos : 0 < feature_W.

Let sy := stride_y_of image_H feature_H.
Let sx := stride_x_of image_W feature_W.

Lemma compute_box_coordinates_grid (v : nat * R) :
  let g := grid (Z.to_nat feature_H) (Z.to_nat feature_W) in
  let cx := center_x_of image_W feature_W in
  let cy := center_y_of image_H feature_H in
  let hw := half_width image_W num_scales scale feature_W v.1 v.2 in
  let hh := half_height image_H num_scales scale feature_H v.1 v.2 in
  compute_box_coordinates [image_H; image_W] sy sx
    (INR v.1 / INR num_scales)%R v.2 scale
  = Ok [map (fun p => (cx p.2 - hw)%R) g; map (fun p => (cy p.1 - hh)%R) g;
        map (fun p => (cx p.2 + hw)%R) g; map (fun p => (cy p.1 + hh)%R) g].
Proof.
  intros g cx cy hw hh.
  unfold compute_box_coordinates. simpl unpack2. cbn [mbind result_bind].
  pose proof (np_arange_cells image_W feature_W image_W_pos feature_W_pos)
    as Hx.
  pose proof (np_arange_cells image_H feature_H image_H_pos feature_H_pos)
    as Hy.
  cbv zeta in Hx, Hy.
  unfold sx, sy, stride_x_of, stride_y_of in *.
  rewrite Hx. cbn [mbind result_bind]. rewrite Hy. cbn [mbind result_bind].
  pose proof (meshgrid_flat_x
                (fun i => (IZR image_W * / IZR feature_W / 2
                           + INR i * (IZR image_W * / IZR feature_W))%R)
                (fun i => (IZR image_H * / IZR feature_H / 2
                           + INR i * (IZR image_H * / IZR feature_H))%R)
                (seq 0 (Z.to_nat feature_W))
                (seq 0 (Z.to_nat feature_H))) as Mx.
  pose proof (meshgrid_flat_y
                (fun i => (IZR image_W * / IZR feature_W / 2
                           + INR i * (IZR image_W * / IZR feature_W))%R)
                (fun i => (IZR image_H * / IZR feature_H / 2
                           + INR i * (IZR image_H * / IZR feature_H))%R)
                (seq 0 (Z.to_nat feature_W))
                (seq 0 (Z.to_nat feature_H))) as My.
  fold (grid (Z.to_nat feature_H) (Z.to_nat feature_W)) in Mx, My.
  fold g in Mx, My.
  destruct (np_meshgrid _ _) as [center_x center_y]. simpl in Mx, My.
  rewrite Mx, My, !map_map. reflexivity.
Qed.

Lemma build_branch_boxes_grid (aspect_ratios : vector) :
  (1 <= num_scales)%nat -> aspect_ratios <> [] ->
  let n := (num_scales * length aspect_ratios)%nat in
  build_branch_boxes (np_repeat_scalar sy n) (np_repeat_scalar sx n)
    (build_octaves num_scales aspect_ratios)
    (build_aspect aspect_ratios num_scales)
    (build_scales scale n) [image_H; image_W]
  = Ok (map (fun p =>
               map (corner_anchor image_H image_W num_scales scale
                                  feature_H feature_W p)
                   (variants num_scales aspect_ratios))
            (grid (Z.to_nat feature_H) (Z.to_nat feature_W))).
Proof.
  intros Hn Ha n. subst n. unfold build_branch_boxes.
  rewrite (zip5_configurations sy sx scale num_scales aspect_ratios).
  rewrite (for_each_map_map _ _
             (fun v => expand_dims_1
                (map (fun p => corner_anchor image_H image_W num_scales
                                 scale feature_H feature_W p v)
                     (grid (Z.to_nat feature_H) (Z.to_nat feature_W))))).
  - cbn [mbind result_bind].
    apply (np_concatenate_axis1_map
             (fun p v => corner_anchor image_H image_W num_scales scale
                                       feature_H feature_W p v)).
    by apply variants_nonempty.
  - intros v _. cbv beta iota.
    rewrite compute_box_coordinates_grid. cbn [mbind result_bind].
    by rewrite transpose_columns.
Qed.
End Level.

Lemma feature_dims_valid (b : branch) :
  valid_branch b ->
  slice 1 3 (shape b) = [(feature_dims b).1; (feature_dims b).2]
  /\ 0 < (feature_dims b).1 /\ 0 < (feature_dims b).2.
Proof.
  intros (h & w & Hs & Hh & Hw). unfold feature_dims. rewrite Hs. done.
Qed.

(** The corner-form array is the flat loop: levels outermost, then grid
    positions, then variants. *)
Lemma build_anchor_boxes_flat (image_H image_W : Z) (branches : list branch)
    (num_scales : nat) (aspect_ratios : vector) (scale : R) :
  0 < image_H -> 0 < image_W ->
  branches <> [] -> Forall valid_branch branches ->
  (1 <= num_scales)%nat -> aspect_ratios <> [] ->
  build_anchor_boxes [image_H; image_W] branches num_scales aspect_ratios scale
  = Ok (flat_map (level_corner_anchors image_H image_W num_scales
                                       aspect_ratios scale) branches).
Proof.
  intros HH HW Hb Hv Hn Ha. unfold build_anchor_boxes.
  rewrite (for_each_seq_getitem _
             (level_corner_anchors image_H image_W num_scales aspect_ratios
                                   scale)).
  - cbn [mbind result_bind]. unfold np_concatenate_axis0.
    destruct branches as [|b bs]; [done|].
    by rewrite flat_map_concat_map.
  - intros i b Hi.
    assert (Hvb : valid_branch b).
    { rewrite Forall_forall in Hv. apply Hv. by eapply list_elem_of_lookup_2. }
    destruct (feature_dims_valid b Hvb) as (Hs & Hh & Hw).
    unfold build_anchors_level, build_strides. simpl unpack2. cbn [mbind result_bind].
    unfold getitem. rewrite Hi. cbn [mbind result_bind].
    rewrite Hs. simpl unpack2. cbn [mbind result_bind].
    unfold np_repeat_scalar at 1 2. rewrite !map_repeat.
    pose proof (build_branch_boxes_grid image_H image_W num_scales scale
                  (feature_dims b).1 (feature_dims b).2 HH HW Hh Hw
                  aspect_ratios Hn Ha) as Hbb.
    cbv zeta in Hbb. unfold stride_y_of, stride_x_of, np_repeat_scalar in Hbb.
    unfold np_repeat_scalar.
    rewrite Hbb. cbn [mbind result_bind].
    unfold reshape_rows, level_corner_anchors.
    destruct (feature_dims b) as [fh fw]. simpl.
    by rewrite flat_map_concat_map.
Qed.

(** ** Lookups in the flat loop *)

Lemma lookup_map {A B} (f : A -> B) (l : list A) (i : nat) :
  map f l !! i = f <$> l !! i.
Proof. revert i. induction l as [|a l IH]; intros [|i]; simpl; auto. Qed.

Lemma lookup_repeat {A} (x : A) (n i : nat) :
  (i < n)%nat -> repeat x n !! i = Some x.
Proof.
  revert i. induction n as [|n IH]; intros [|i] Hi; simpl; try lia; [done|].
  apply IH. lia.
Qed.

Lemma lookup_flat_map_offset {A B} (f : A -> list B) (l : list A) i k a :
  l !! i = Some a -> (k < length (f a))%nat ->
  flat_map f l !! (length (flat_map f (take i l)) + k)%nat = f a !! k.
Proof.
  revert i. induction l as [|x l IH]; intros [|i] Hi Hk; simpl in *; try done.
  - inversion Hi; subst. by rewrite lookup_app_l.
  - rewrite length_app, <- Nat.add_assoc.
    rewrite lookup_app_r by lia.
    replace (length (f x) + (length (flat_map f (take i l)) + k) - length (f x))%nat
      with (length (flat_map f (take i l)) + k)%nat by lia.
    by apply IH.
Qed.

Lemma lookup_grid (rows cols i j : nat) :
  (i < rows)%nat -> (j < cols)%nat ->
  grid rows cols !! (i * cols + j)%nat = Some (i, j).
Proof.
  intros Hi Hj. unfold grid.
  rewrite (lookup_flat_map_uniform _ _ cols i j i).
  - rewrite lookup_map, lookup_seq_lt by done. done.
  - intros. by rewrite length_map, length_seq.
  - by rewrite lookup_seq_lt.
  - done.
Qed.

Lemma lookup_variants (num_scales : nat) (aspect_ratios : vector) s k a :
  (s < num_scales)%nat -> aspect_ratios !! k = Some a ->
  variants num_scales aspect_ratios !! (s * length aspect_ratios + k)%nat
  = Some (s, a).
Proof.
  intros Hs Hk. unfold variants.
  rewrite (lookup_flat_map_uniform _ _ (length aspect_ratios) s k s).
  - by rewrite lookup_map, Hk.
  - intros. by rewrite length_map.
  - by rewrite lookup_seq_lt.
  - by eapply lookup_lt_Some.
Qed.

Lemma lookup_build_octaves (num_scales : nat) (aspect_ratios : vector) s k :
  (s < num_scales)%nat -> (k < length aspect_ratios)%nat ->
  build_octaves num_scales aspect_ratios !! (s * length aspect_ratios + k)%nat
  = Some (INR s / INR num_scales)%R.
Proof.
  intros Hs Hk. unfold build_octaves, np_repeat.
  rewrite lookup_map.
  rewrite (lookup_flat_map_uniform _ _ (length aspect_ratios) s k s).
  - by rewrite lookup_repeat.
  - intros. by rewrite repeat_length.
  - by rewrite lookup_seq_lt.
  - done.
Qed.

Lemma lookup_build_aspect (num_scales : nat) (aspect_ratios : vector) s k :
  (s < num_scales)%nat -> (k < length aspect_ratios)%nat ->
  build_aspect aspect_ratios num_scales !! (s * length aspect_ratios + k)%nat
  = aspect_ratios !! k.
Proof.
  intros Hs Hk. unfold build_aspect, np_tile.
  rewrite <- (map_id (repeat aspect_ratios num_scales)).
  rewrite <- flat_map_concat_map.
  rewrite (lookup_flat_map_uniform _ _ (length aspect_ratios) s k
             aspect_ratios); [done| |by apply lookup_repeat|done].
  intros x Hx. apply list_elem_of_In, repeat_spec in Hx. by subst.
Qed.

Lemma to_center_form_corner_anchor image_H image_W num_scales scale
    feature_H feature_W p v :
  to_center_form_row
    (corner_anchor image_H image_W num_scales scale feature_H feature_W p v)
  = center_anchor image_H image_W num_scales scale feature_H feature_W p v.
Proof.
  unfold corner_anchor, center_anchor, to_center_form_row.
  repeat f_equal; lra.
Qed.

Lemma to_center_form_level image_H image_W num_scales aspect_ratios scale b :
  to_center_form
    (level_corner_anchors image_H image_W num_scales aspect_ratios scale b)
  = level_center_anchors image_H image_W num_scales aspect_ratios scale b.
Proof.
  unfold to_center_form, level_corner_anchors, level_center_anchors.
  destruct (feature_dims b) as [fh fw].
  induction (grid _ _) as [|p g IH]; simpl; [done|].
  rewrite map_app, IH, map_map. f_equal.
  apply map_ext. intros v. apply to_center_form_corner_anchor.
Qed.

(** The center-form array is the flat loop too. *)
Lemma build_anchors_flat (image_H image_W : Z) (branches : list branch)
    (num_scales : nat) (aspect_ratios : vector) (scale : R) :
  0 < image_H -> 0 < image_W ->
  branches <> [] -> Forall valid_branch branches ->
  (1 <= num_scales)%nat -> aspect_ratios <> [] ->
  build_anchors [image_H; image_W] branches num_scales aspect_ratios scale
  = Ok (flat_map (level_center_anchors image_H image_W num_scales
                                       aspect_ratios scale) branches).
Proof.
  intros. unfold build_anchors.
  rewrite build_anchor_boxes_flat by done. cbn [mbind result_bind].
  f_equal. unfold to_center_form.
  induction branches as [|b bs IH]; simpl; [done|].
  rewrite map_app. f_equal.
  - apply to_center_form_level.
  - destruct bs as [|b' bs']; [done|].
    apply IH; [done|]. by eapply Forall_inv_tail.
Qed.

Lemma length_flat_map_levels image_H image_W num_scales aspect_ratios scale
    (branches : list branch) :
  length (flat_map (level_center_anchors image_H image_W num_scales
                                         aspect_ratios scale) branches)
  = sum_list (map (level_size num_scales aspect_ratios) branches).
Proof.
  induction branches as [|b bs IH]; simpl; [done|].
  rewrite length_app, IH. f_equal.
  unfold level_center_anchors, level_size.
  destruct (feature_dims b) as [fh fw].
  rewrite (length_flat_map_uniform _ _ (num_scales * length aspect_ratios)).
  - by rewrite length_grid.
  - intros. by rewrite length_map, length_variants.
Qed.

(** The anchor of level [l], grid row [i], grid column [j], scale index
    [s] and aspect index [k] sits at one computable row of the flat loop. *)
Lemma flat_anchors_lookup (image_H image_W : Z) (branches : list branch)
    (num_scales : nat) (aspect_ratios : vector) (scale : R) anchors
    l b i j s k a :
  anchors = flat_map (level_center_anchors image_H image_W num_scales
                                           aspect_ratios scale) branches ->
  branches !! l = Some b ->
  (i < Z.to_nat (feature_dims b).1)%nat ->
  (j < Z.to_nat (feature_dims b).2)%nat ->
  (s < num_scales)%nat -> aspect_ratios !! k = Some a ->
  anchors !! (level_offset num_scales aspect_ratios branches l
              + ((i * Z.to_nat (feature_dims b).2 + j)
                 * (num_scales * length aspect_ratios)
                 + (s * length aspect_ratios + k)))%nat
  = Some (center_anchor image_H image_W num_scales scale
                        (feature_dims b).1 (feature_dims b).2 (i, j) (s, a)).
Proof.
  intros -> Hl Hi Hj Hs Hk.
  assert (Hk' : (k < length aspect_ratios)%nat) by by eapply lookup_lt_Some.
  unfold level_offset.
  rewrite <- (length_flat_map_levels image_H image_W num_scales aspect_ratios
                scale).
  assert (Hlev :
    level_center_anchors image_H image_W num_scales aspect_ratios scale b
      !! ((i * Z.to_nat (feature_dims b).2 + j)
          * (num_scales * length aspect_ratios)
          + (s * length aspect_ratios + k))%nat
    = Some (center_anchor image_H image_W num_scales scale
              (feature_dims b).1 (feature_dims b).2 (i, j) (s, a))).
  { unfold level_center_anchors. destruct (feature_dims b) as [fh fw].
    simpl in *.
    rewrite (lookup_flat_map_uniform _ _ (num_scales * length aspect_ratios)
               _ _ (i, j)).
    - simpl. by rewrite lookup_map, (lookup_variants _ _ s k a).
    - intros. by rewrite length_map, length_variants.
    - by apply lookup_grid.
    - nia. }
  rewrite (lookup_flat_map_offset
             (level_center_anchors image_H image_W num_scales aspect_ratios
                                   scale) branches l _ b); [done|done|].
  by eapply lookup_lt_Some.
Qed.

(** ** Anchor count *)

(** C1. For a valid configuration (an image shape of two positive
    integers, at least one branch, every branch with a feature map of
    positive height and width at indices 1:3 of its shape, at least one
    scale and one aspect ratio) [build_anchors] returns an array whose
    number of rows is the sum over the branches of
    feature_H * feature_W * num_scales * len(aspect_ratios). *)
Theorem build_anchors_count (image_H image_W : Z) (branches : list branch)
    (num_scales : nat) (aspect_ratios : vector) (scale : R) :
  0 < image_H -> 0 < image_W ->
  branches <> [] -> Forall valid_branch branches ->
  (1 <= num_scales)%nat -> aspect_ratios <> [] ->
  exists anchors,
    build_anchors [image_H; image_W] branches num_scales aspect_ratios scale
    = Ok anchors
    /\ length anchors
       = sum_list (map (level_size num_scales aspect_ratios) branches).
Proof.
  intros. eexists. split; [by apply build_anchors_flat|].
  apply length_flat_map_levels.
Qed.

(** The scenario of the specification: a 128 x 128 image, one 16 x 16
    level, three scales and three aspect ratios give 2304 anchors. *)
Lemma build_anchors_count_2304 :
  exists anchors,
    build_anchors [128; 128] [Branch [1; 16; 16; 64]] 3 [1; 2; / 2]%R 4%R
    = Ok anchors
    /\ length anchors = 2304%nat.
Proof.
  destruct (build_anchors_count 128 128 [Branch [1; 16; 16; 64]] 3
              [1; 2; / 2]%R 4%R) as (anchors & Hrun & Hlen).
  - lia.
  - lia.
  - discriminate.
  - repeat constructor. exists 16, 16. repeat split; lia.
  - lia.
  - discriminate.
  - exists anchors. split; [exact Hrun|]. rewrite Hlen. reflexivity.
Defined.

(** ** Order of the rows *)

(** C4. The rows of the array returned by [build_anchors] are ordered
    with the level outermost, the grid position (row-major) in the middle
    and the box-shape variant innermost: the anchor of level [l], grid row
    [i], grid column [j], scale index [s] and aspect index [k] is row
    offset(l) + (i * feature_W + j) * (num_scales * len(aspect_ratios))
    + (s * len(aspect_ratios) + k).  At the same variant index the octave
    array holds s / num_scales and the aspect array holds the k-th aspect
    ratio, so the aspect ratio varies fastest. *)
Theorem build_anchors_order (image_H image_W : Z) (branches : list branch)
    (num_scales : nat) (aspect_ratios : vector) (scale : R) :
  0 < image_H -> 0 < image_W ->
  branches <> [] -> Forall valid_branch branches ->
  (1 <= num_scales)%nat -> aspect_ratios <> [] ->
  exists anchors,
    build_anchors [image_H; image_W] branches num_scales aspect_ratios scale
    = Ok anchors
    /\ forall l b i j s k a,
        branches !! l = Some b ->
        (i < Z.to_nat (feature_dims b).1)%nat ->
        (j < Z.to_nat (feature_dims b).2)%nat ->
        (s < num_scales)%nat -> aspect_ratios !! k = Some a ->
        anchors !! (level_offset num_scales aspect_ratios branches l
                    + ((i * Z.to_nat (feature_dims b).2 + j)
                       * (num_scales * length aspect_ratios)
                       + (s * length aspect_ratios + k)))%nat
        = Some (center_anchor image_H image_W num_scales scale
                  (feature_dims b).1 (feature_dims b).2 (i, j) (s, a))
        /\ build_octaves num_scales aspect_ratios
             !! (s * length aspect_ratios + k)%nat
           = Some (INR s / INR num_scales)%R
        /\ build_aspect aspect_ratios num_scales
             !! (s * length aspect_ratios + k)%nat
           = Some a.
Proof.
  intros HH HW Hb Hv Hn Ha. eexists. split; [by apply build_anchors_flat|].
  intros l b i j s k a Hl Hi Hj Hs Hk.
  assert (Hk' : (k < length aspect_ratios)%nat) by by eapply lookup_lt_Some.
  split; [by eapply flat_anchors_lookup|].
  split; [by apply lookup_build_octaves|].
  by rewrite lookup_build_aspect.
Qed.

Lemma build_anchors_order_second_level :
  exists anchors,
    build_anchors [128; 128] [Branch [1; 16; 16; 64]; Branch [1; 8; 8; 64]]
                  3 [1; 2; / 2]%R 4%R = Ok anchors
    /\ anchors !! (2304 + ((5 * 8 + 6) * 9 + (2 * 3 + 1)))%nat
       = Some (center_anchor 128 128 3 4 8 8 (5, 6)%nat (2%nat, 2%R)).
Proof.
  destruct (build_anchors_order 128 128
              [Branch [1; 16; 16; 64]; Branch [1; 8; 8; 64]] 3
              [1; 2; / 2]%R 4%R) as (anchors & Hrun & Hrow).
  - lia.
  - lia.
  - discriminate.
  - repeat constructor; [exists 16, 16|exists 8, 8]; repeat split; lia.
  - lia.
  - discriminate.
  - exists anchors. split; [exact Hrun|].
    destruct (Hrow 1%nat (Branch [1; 8; 8; 64]) 5%nat 6%nat 2%nat 1%nat 2%R)
      as (Hat & _); try reflexivity; try (simpl; lia).
    exact Hat.
Defined.

(** ** Normalisation *)

(** C3, as the code has it.  With image_shape = (image_H, image_W), the
    anchor of grid column [j], grid row [i], scale index [s] and aspect
    ratio [a] has center_x = arange(stride_x/2, image_W, stride_x)[j]
    divided by image_W, center_y = arange(stride_y/2, image_H, stride_y)[i]
    divided by image_H, a half-width base_anchor_width * sqrt(a) / 2
    divided by image_W and a half-height
    base_anchor_height * (1/sqrt(a)) / 2 divided by image_H: every
    quantity is normalised by the image extent of its own axis. *)
Theorem build_anchors_own_axis_normalisation (image_H image_W : Z)
    (branches : list branch) (num_scales : nat) (aspect_ratios : vector)
    (scale : R) l b i j s k a :
  0 < image_H -> 0 < image_W ->
  Forall valid_branch branches ->
  branches !! l = Some b ->
  (i < Z.to_nat (feature_dims b).1)%nat ->
  (j < Z.to_nat (feature_dims b).2)%nat ->
  (s < num_scales)%nat -> aspect_ratios !! k = Some a ->
  let stride_y := (IZR image_H * / IZR (feature_dims b).1)%R in
  let stride_x := (IZR image_W * / IZR (feature_dims b).2)%R in
  let base_anchor_width :=
    (scale * stride_x * Rpower 2 (INR s / INR num_scales))%R in
  let base_anchor_height :=
    (scale * stride_y * Rpower 2 (INR s / INR num_scales))%R in
  exists x y x_j y_i anchors,
    np_arange (stride_x / 2)%R (IZR image_W) stride_x = Ok x
    /\ x !! j = Some x_j
    /\ np_arange (stride_y / 2)%R (IZR image_H) stride_y = Ok y
    /\ y !! i = Some y_i
    /\ build_anchors [image_H; image_W] branches num_scales aspect_ratios
                     scale = Ok anchors
    /\ anchors !! (level_offset num_scales aspect_ratios branches l
                   + ((i * Z.to_nat (feature_dims b).2 + j)
                      * (num_scales * length aspect_ratios)
                      + (s * length aspect_ratios + k)))%nat
       = Some [(x_j / IZR image_W)%R; (y_i / IZR image_H)%R;
               (2 * ((base_anchor_width * sqrt a / 2) / IZR image_W))%R;
               (2 * ((base_anchor_height * (1 / sqrt a) / 2)
                     / IZR image_H))%R].
Proof.
  intros HH HW Hv Hl Hi Hj Hs Hk sy sx bw bh.
  assert (Hvb : valid_branch b).
  { rewrite Forall_forall in Hv. apply Hv. by eapply list_elem_of_lookup_2. }
  destruct (feature_dims_valid b Hvb) as (_ & Hh & Hw).
  assert (Hb : branches <> []) by (intros ->; done).
  assert (Hn : (1 <= num_scales)%nat) by lia.
  assert (Ha : aspect_ratios <> []) by (intros ->; done).
  eexists _, _, _, _, _.
  split; [apply (np_arange_cells image_W (feature_dims b).2 HW Hw)|].
  split; [by rewrite lookup_map, lookup_seq_lt|].
  split; [apply (np_arange_cells image_H (feature_dims b).1 HH Hh)|].
  split; [by rewrite lookup_map, lookup_seq_lt|].
  split; [by apply build_anchors_flat|].
  by erewrite flat_anchors_lookup.
Qed.

Lemma build_anchors_own_axis_normalisation_wide_image :
  exists anchors,
    build_anchors [128; 256] [Branch [1; 16; 16; 64]] 1 [1%R] 4%R = Ok anchors
    /\ anchors !! 0%nat = Some [/ 32; / 32; / 4; / 4]%R.
Proof.
  destruct (build_anchors_own_axis_normalisation 128 256
              [Branch [1; 16; 16; 64]] 1 [1%R] 4%R
              0%nat (Branch [1; 16; 16; 64]) 0%nat 0%nat 0%nat 0%nat 1%R)
    as (x & y & x_j & y_i & anchors & Hx & Hxj & Hy & Hyi & Hrun & Hrow).
  - lia.
  - lia.
  - repeat constructor. exists 16, 16. repeat split; lia.
  - reflexivity.
  - simpl; lia.
  - simpl; lia.
  - lia.
  - reflexivity.
  - exists anchors. split; [exact Hrun|].
    match type of Hrow with
    | _ !! ?n = _ => change n with 0%nat in Hrow
    end.
    rewrite Hrow. clear Hrow Hrun.
    change (feature_dims (Branch [1; 16; 16; 64])) with (16, 16) in *.
    cbn [fst snd] in *.
    unfold np_arange in Hx, Hy.
    destruct (Req_dec_T _ _) as [E|_] in Hx; [lra|].
    destruct (Req_dec_T _ _) as [E|_] in Hy; [lra|].
    injection Hx as <-. injection Hy as <-.
    rewrite lookup_map in Hxj, Hyi.
    destruct (seq 0 _ !! 0%nat) as [n0|] eqn:E0 in Hxj; [|done].
    destruct (seq 0 _ !! 0%nat) as [n1|] eqn:E1 in Hyi; [|done].
    apply lookup_seq in E0 as [-> _]. apply lookup_seq in E1 as [-> _].
    injection Hxj as <-. injection Hyi as <-.
    replace (INR 0 / INR 1)%R with 0%R by (simpl; lra).
    rewrite Rpower_O by lra. rewrite sqrt_1.
    simpl INR. repeat f_equal; lra.
Defined.

Lemma np_arange_eval (start stop step : R) (n : Z) :
  (0 < step)%R -> (IZR n - 1 < (stop - start) / step <= IZR n)%R ->
  np_arange start stop step
  = Ok (map (fun i => (start + INR i * step)%R) (seq 0 (Z.to_nat n))).
Proof.
  intros Hstep Hn. unfold np_arange.
  destruct (Req_dec_T step 0) as [E|_]; [lra|].
  by rewrite (Zceil_eq n).
Qed.

(** C3, as the specification words it, fails on an image that is not
    square: for a 128 x 256 image and a 16 x 16 level the strides are 8
    and 16, and the first coordinate the code computes, -24/256, is not
    the -24/128 of the cross-axis normalisation. *)
Lemma cross_axis_normalisation_refuted :
  build_strides 0 [128; 256] [Branch [1; 16; 16; 64]] 1
  = Ok ([128 * / 16], [256 * / 16])%R
  /\ compute_box_coordinates [128; 256] (128 * / 16) (256 * / 16) 0 1 4
     <> cross_axis_box_coordinates [128; 256] (128 * / 16) (256 * / 16) 0 1 4.
Proof.
  split; [reflexivity|].
  pose proof (compute_box_coordinates_grid 128 256 1 4 16 16
                ltac:(lia) ltac:(lia) ltac:(lia) ltac:(lia) (0%nat, 1%R))
    as Hcode.
  cbv zeta in Hcode. unfold stride_y_of, stride_x_of in Hcode.
  cbn [fst snd] in Hcode.
  replace (INR 0 / INR 1)%R with 0%R in Hcode by (simpl; lra).
  rewrite Hcode. clear Hcode.
  unfold cross_axis_box_coordinates. simpl unpack2. cbn [mbind result_bind].
  rewrite (np_arange_eval (256 * / 16 / 2) 128 (256 * / 16) 8);
    [|lra|replace ((128 - 256 * / 16 / 2) / (256 * / 16))%R
            with (15 / 2)%R by field; lra].
  cbn [mbind result_bind].
  rewrite (np_arange_eval (128 * / 16 / 2) 256 (128 * / 16) 32);
    [|lra|replace ((256 - 128 * / 16 / 2) / (128 * / 16))%R
            with (63 / 2)%R by field; lra].
  cbn [mbind result_bind].
  pose proof (meshgrid_flat_x
                (fun i => (256 * / 16 / 2 + INR i * (256 * / 16))%R)
                (fun i => (128 * / 16 / 2 + INR i * (128 * / 16))%R)
                (seq 0 (Z.to_nat 8)) (seq 0 (Z.to_nat 32))) as Mx.
  fold (grid (Z.to_nat 32) (Z.to_nat 8)) in Mx.
  destruct (np_meshgrid _ _) as [center_x center_y]. simpl fst in Mx.
  rewrite Mx. intros Heq.
  apply (f_equal (fun r : result matrix =>
                    match r with
                    | Ok (row :: _) => row !! 0%nat
                    | _ => None
                    end)) in Heq.
  rename Heq into Hrow. cbv beta iota in Hrow.
  rewrite !lookup_map in Hrow.
  assert (G1 : grid (Z.to_nat 16) (Z.to_nat 16) !! 0%nat = Some (0, 0)%nat)
    by reflexivity.
  assert (G2 : grid (Z.to_nat 32) (Z.to_nat 8) !! 0%nat = Some (0, 0)%nat)
    by reflexivity.
  rewrite G1, G2 in Hrow.
  simpl in Hrow. injection Hrow as Hrow.
  unfold center_x_of, half_width, stride_x_of, octave_of in Hrow.
  replace (INR 0 / INR 1)%R with 0%R in Hrow by (simpl; lra).
  rewrite Rpower_O, sqrt_1 in Hrow by lra.
  simpl INR in Hrow. lra.
Qed.

(** ** Positive extents *)






(** ** Errors *)

Lemma unpack2_raises {A} (t : list A) e :
  unpack2 t = Raise e -> e = "ValueError".
Proof.
  unfold unpack2. destruct t as [|a [|b [|c t]]]; intros He;
    by inversion He.
Qed.

Lemma build_anchors_level_raises (image_shape : list Z) (b : branch)
    (bs : list branch) (num_scales : nat) (aspect_ratios : vector)
    (scale : R) :
  length image_shape <> 2%nat \/ aspect_ratios = [] ->
  build_anchors_level image_shape (b :: bs) num_scales aspect_ratios scale
                      (num_scales * length aspect_ratios) 0
  = Raise "ValueError".
Proof.
  intros Hbad. unfold build_anchors_level, build_strides.
  destruct (unpack2 image_shape) as [[h w]|e] eqn:Himage;
    [|by rewrite (unpack2_raises _ _ Himage)].
  cbn [mbind result_bind]. unfold getitem. simpl lookup.
  cbn [mbind result_bind].
  destruct (unpack2 (slice 1 3 (shape b))) as [[fh fw]|e] eqn:Hshape;
    [|by rewrite (unpack2_raises _ _ Hshape)].
  cbn [mbind result_bind].
  destruct Hbad as [Hbad| ->].
  - destruct image_shape as [|? [|? [|? ?]]]; done.
  - simpl length. rewrite Nat.mul_0_r. reflexivity.
Qed.

(** C6, as the code has it.  A malformed image shape (not two entries),
    an empty list of branches or an empty list of aspect ratios makes
    [build_anchors] raise a ValueError and return nothing.  The error is
    the one of the tuple unpacking or of [np.concatenate] on an empty
    sequence; nothing validates the configuration up front. *)
Theorem build_anchors_invalid_configuration (image_shape : list Z)
    (branches : list branch) (num_scales : nat) (aspect_ratios : vector)
    (scale : R) :
  length image_shape <> 2%nat \/ branches = [] \/ aspect_ratios = [] ->
  build_anchors image_shape branches num_scales aspect_ratios scale
  = Raise "ValueError".
Proof.
  intros Hbad. unfold build_anchors, build_anchor_boxes.
  destruct branches as [|b bs]; [reflexivity|].
  cbn [length seq for_each].
  rewrite build_anchors_level_raises; [reflexivity|].
  destruct Hbad as [Hbad|[Hbad|Hbad]]; [by left|done|by right].
Qed.

Lemma build_anchors_invalid_configuration_no_branches :
  build_anchors [128; 128] [] 3 [1; 2; / 2]%R 4%R = Raise "ValueError".
Proof.
  apply build_anchors_invalid_configuration. right; left. reflexivity.
Defined.

(** C6, as the specification words it, fails: a three-entry image shape
    raises a ValueError, not an InvalidConfiguration error. *)
Lemma build_anchors_no_invalid_configuration_error :
  build_anchors [128; 128; 3] [Branch [1; 16; 16; 64]] 3 [1; 2; / 2]%R 4%R
  = Raise "ValueError"
  /\ build_anchors [128; 128; 3] [Branch [1; 16; 16; 64]] 3 [1; 2; / 2]%R 4%R
     <> Raise "InvalidConfiguration".
Proof. split; [reflexivity|discriminate]. Qed.

(** ** Corner form and center form *)

Lemma for_each_Forall {A B} (P : B -> Prop) (f : A -> result B) (l : list A)
    (bs : list B) :
  (forall a b, f a = Ok b -> P b) -> for_each f l = Ok bs -> Forall P bs.
Proof.
  intros Hf. revert bs. induction l as [|a l IH]; simpl; intros bs Hrun.
  - injection Hrun as <-. constructor.
  - destruct (f a) as [b|e] eqn:Hb; [|done]. cbn [mbind result_bind] in Hrun.
    destruct (for_each f l) as [bs'|e]; [|done].
    cbn [mbind result_bind] in Hrun. injection Hrun as <-.
    constructor; [by eapply Hf|by apply IH].
Qed.

Lemma Forall_zip_with_cons (r : vector) (t : matrix) (n : nat) :
  Forall (fun row => length row = n) t ->
  Forall (fun row => length row = S n) (zip_with cons r t).
Proof.
  intros Ht. revert r. induction Ht as [|row t Hrow Ht IH]; intros [|v r];
    simpl; try by constructor.
  constructor; [simpl; by rewrite Hrow|apply IH].
Qed.

Lemma Forall_zip_with_app (P : list R -> Prop) (a r : tensor3) :
  Forall (Forall P) a -> Forall (Forall P) r ->
  Forall (Forall P) (zip_with app a r).
Proof.
  intros Ha. revert r. induction Ha as [|x a Hx Ha IH]; intros r Hr;
    [constructor|].
  destruct Hr as [|y r Hy Hr]; simpl; constructor.
  - by apply Forall_app.
  - by apply IH.
Qed.

Lemma np_concatenate_axis1_Forall (P : list R -> Prop) (arrays : list tensor3)
    (t : tensor3) :
  Forall (Forall (Forall P)) arrays ->
  np_concatenate_axis1 arrays = Ok t -> Forall (Forall P) t.
Proof.
  intros Harr. revert t.
  induction Harr as [|a rest Ha Hrest IH]; intros t Hrun; [done|].
  destruct rest as [|a' rest'].
  - simpl in Hrun. by injection Hrun as <-.
  - change (np_concatenate_axis1 (a :: a' :: rest'))
      with (r ← np_concatenate_axis1 (a' :: rest');
            if Nat.eqb (length a) (length r) then Ok (zip_with app a r)
            else Raise "ValueError") in Hrun.
    destruct (np_concatenate_axis1 (a' :: rest')) as [r|e]; [|done].
    cbn [mbind result_bind] in Hrun.
    destruct (Nat.eqb _ _); [|done]. injection Hrun as <-.
    apply Forall_zip_with_app; [done|by apply IH].
Qed.

Lemma compute_box_coordinates_boxes image_shape sy sx o a s (m : matrix) :
  compute_box_coordinates image_shape sy sx o a s = Ok m ->
  Forall is_box (transpose m).
Proof.
  unfold compute_box_coordinates.
  destruct (unpack2 image_shape) as [[W H]|e]; [|done].
  cbn [mbind result_bind].
  destruct (np_arange _ _ sx) as [x|e]; [|done]. cbn [mbind result_bind].
  destruct (np_arange _ _ sy) as [y|e]; [|done]. cbn [mbind result_bind].
  destruct (np_meshgrid x y) as [center_x center_y].
  intros Hm. injection Hm as <-. unfold is_box.
  cbn [transpose].
  repeat apply Forall_zip_with_cons.
  apply Forall_forall. intros row Hrow.
  apply list_elem_of_In, in_map_iff in Hrow as (v & <- & _). done.
Qed.

Lemma build_branch_boxes_boxes sy sx octave aspect scales image_shape t :
  build_branch_boxes sy sx octave aspect scales image_shape = Ok t ->
  Forall (Forall is_box) t.
Proof.
  unfold build_branch_boxes.
  destruct (for_each _ _) as [branch_boxes|e] eqn:Hloop; [|done].
  cbn [mbind result_bind]. apply np_concatenate_axis1_Forall.
  eapply for_each_Forall; [|exact Hloop].
  intros [[[[y x] o] a] s] b. cbv beta iota.
  destruct (compute_box_coordinates _ _ _ _ _ _) as [boxes|e] eqn:Hboxes;
    [|done].
  cbn [mbind result_bind]. intros Hb. injection Hb as <-.
  apply compute_box_coordinates_boxes in Hboxes.
  unfold expand_dims_1. apply Forall_forall. intros r Hr.
  apply list_elem_of_In, in_map_iff in Hr as (row & <- & Hrow).
  constructor; [|constructor].
  rewrite Forall_forall in Hboxes. by apply Hboxes, list_elem_of_In.
Qed.

Lemma Forall_concat {A} (P : A -> Prop) (ls : list (list A)) :
  Forall (Forall P) ls -> Forall P (concat ls).
Proof.
  induction 1 as [|l ls Hl _ IH]; simpl; [constructor|].
  by apply Forall_app.
Qed.

Lemma build_anchor_boxes_boxes image_shape branches num_scales aspect_ratios
    scale boxes :
  build_anchor_boxes image_shape branches num_scales aspect_ratios scale
  = Ok boxes ->
  Forall is_box boxes.
Proof.
  unfold build_anchor_boxes.
  destruct (for_each _ _) as [anchor_boxes|e] eqn:Hloop; [|done].
  cbn [mbind result_bind]. unfold np_concatenate_axis0.
  destruct anchor_boxes as [|m ms] eqn:E; [done|]. rewrite <- E in *.
  intros Hb. injection Hb as <-. apply Forall_concat.
  eapply for_each_Forall; [|exact Hloop].
  intros branch_arg m'. unfold build_anchors_level.
  destruct (build_strides _ _ _ _) as [[stride_y stride_x]|e]; [|done].
  cbn [mbind result_bind].
  destruct (build_branch_boxes _ _ _ _ _ _) as [t|e] eqn:Ht; [|done].
  cbn [mbind result_bind]. intros Hm. injection Hm as <-.
  apply Forall_concat. by eapply build_branch_boxes_boxes.
Qed.

Lemma to_corner_form_to_center_form_row (row : list R) :
  is_box row -> to_corner_form_row (to_center_form_row row) = row.
Proof.
  unfold is_box. destruct row as [|a [|b [|c [|d [|? ?]]]]]; try done.
  intros _. simpl. repeat f_equal; lra.
Qed.

(** C8. Whatever corner-form array [build_anchors] has built, converting
    it to center form (the returned array) and back to corner form gives
    the corner coordinates again, in exact arithmetic. *)
Theorem build_anchors_round_trip (image_shape : list Z)
    (branches : list branch) (num_scales : nat) (aspect_ratios : vector)
    (scale : R) (anchor_boxes : matrix) :
  build_anchor_boxes image_shape branches num_scales aspect_ratios scale
  = Ok anchor_boxes ->
  build_anchors image_shape branches num_scales aspect_ratios scale
  = Ok (to_center_form anchor_boxes)
  /\ to_corner_form (to_center_form anchor_boxes) = anchor_boxes.
Proof.
  intros Hrun. split; [unfold build_anchors; by rewrite Hrun|].
  apply build_anchor_boxes_boxes in Hrun.
  unfold to_corner_form, to_center_form. rewrite map_map.
  induction Hrun as [|row boxes Hrow _ IH]; simpl; [done|].
  by rewrite to_corner_form_to_center_form_row, IH.
Qed.

Lemma build_anchors_round_trip_scenario :
  let anchor_boxes :=
    flat_map (level_corner_anchors 128 128 3 [1; 2; / 2]%R 4%R)
             [Branch [1; 16; 16; 64]] in
  build_anchors [128; 128] [Branch [1; 16; 16; 64]] 3 [1; 2; / 2]%R 4%R
  = Ok (to_center_form anchor_boxes)
  /\ to_corner_form (to_center_form anchor_boxes) = anchor_boxes.
Proof.
  apply (build_anchors_round_trip [128; 128] [Branch [1; 16; 16; 64]] 3
           [1; 2; / 2]%R 4%R).
  apply build_anchor_boxes_flat.
  - lia.
  - lia.
  - discriminate.
  - repeat constructor. exists 16, 16. repeat split; lia.
  - lia.
  - discriminate.
Defined.

(** * Properties of the shapes loader *)

(** ** Outcomes of a sampler *)

Lemma elem_of_bind {A B} (m : sampler A) (k : A -> sampler B) (r : result B) :
  r ∈ outcomes (m ≫= k)
  <-> (exists a, Ok a ∈ outcomes m /\ r ∈ outcomes (k a))
      \/ (exists e, Raise e ∈ outcomes m /\ r = Raise e).
Proof.
  unfold mbind, sampler_bind. simpl.
  rewrite list_elem_of_In, in_flat_map. split.
  - intros ([a|e] & Hm & Hr); apply list_elem_of_In in Hm.
    + left. exists a. split; [done|by apply list_elem_of_In].
    + right. exists e. destruct Hr as [<-|[]]. done.
  - intros [(a & Hm & Hr)|(e & Hm & ->)].
    + exists (Ok a). split; by apply list_elem_of_In.
    + exists (Raise e). split; [by apply list_elem_of_In|by left].
Qed.

Lemma Ok_elem_of_bind {A B} (m : sampler A) (k : A -> sampler B) (b : B) :
  Ok b ∈ outcomes (m ≫= k)
  <-> exists a, Ok a ∈ outcomes m /\ Ok b ∈ outcomes (k a).
Proof.
  rewrite elem_of_bind. split; [|by left].
  intros [Hok|(e & _ & He)]; [done|discriminate].
Qed.

Lemma Ok_elem_of_lift {A} (r : result A) (a : A) :
  Ok a ∈ outcomes (lift r) <-> r = Ok a.
Proof. unfold lift. simpl. rewrite list_elem_of_singleton. split; auto. Qed.

Lemma Ok_elem_of_mret {A} (a b : A) :
  Ok a ∈ outcomes (mret b : sampler A) <-> a = b.
Proof.
  unfold mret, sampler_ret. simpl. rewrite list_elem_of_singleton.
  split; [by intros [= ->]|by intros ->].
Qed.

Lemma Ok_elem_of_uniform {A} (values : list A) (e : exn) (a : A) :
  Ok a ∈ outcomes (uniform values e) <-> a ∈ values.
Proof.
  unfold uniform. destruct values as [|v values].
  - simpl. rewrite list_elem_of_singleton, elem_of_nil. split; [done|tauto].
  - cbn [outcomes]. rewrite !list_elem_of_In, in_map_iff. split.
    + by intros (x & [= ->] & Hx).
    + intros Ha. by exists a.
Qed.

Lemma Ok_elem_of_sample_each {A B} (f : A -> sampler B) (l : list A) (bs : list B) :
  Ok bs ∈ outcomes (sample_each f l)
  <-> Forall2 (fun a b => Ok b ∈ outcomes (f a)) l bs.
Proof.
  revert bs. induction l as [|a l IH]; intros bs; cbn [sample_each].
  - rewrite Ok_elem_of_mret. split; [intros ->; constructor|].
    by intros ->%Forall2_nil_inv_l.
  - rewrite Ok_elem_of_bind. split.
    + intros (b & Hb & Hrest). apply Ok_elem_of_bind in Hrest as (bs' & Hbs' & Hret).
      apply Ok_elem_of_mret in Hret as ->. constructor; [done|by apply IH].
    + intros (b & bs' & Hb & Hbs' & ->)%Forall2_cons_inv_l.
      exists b. split; [done|]. apply Ok_elem_of_bind. exists bs'.
      split; [by apply IH|by apply Ok_elem_of_mret].
Qed.

Lemma Ok_elem_of_random_randint (a b n : Z) :
  Ok n ∈ outcomes (random_randint a b) <-> a <= n <= b.
Proof.
  unfold random_randint. rewrite Ok_elem_of_uniform, elem_of_seqZ. lia.
Qed.

Lemma Ok_elem_of_np_random_randint (low high n : Z) :
  Ok n ∈ outcomes (np_random_randint low high) <-> low <= n < high.
Proof.
  unfold np_random_randint. rewrite Ok_elem_of_uniform, elem_of_seqZ. lia.
Qed.

Lemma Ok_elem_of_np_random_randint_3 (low high : Z) (c : color) :
  Ok c ∈ outcomes (np_random_randint_3 low high)
  <-> low <= c.1.1 < high /\ low <= c.1.2 < high /\ low <= c.2 < high.
Proof.
  destruct c as [[c1 c2] c3]. unfold np_random_randint_3. cbn [fst snd].
  rewrite Ok_elem_of_bind. split.
  - intros (x1 & H1 & Hk). apply Ok_elem_of_bind in Hk as (x2 & H2 & Hk).
    apply Ok_elem_of_bind in Hk as (x3 & H3 & Hk).
    apply Ok_elem_of_mret in Hk as [= -> -> ->].
    by rewrite <- !Ok_elem_of_np_random_randint.
  - intros (H1 & H2 & H3). rewrite <- Ok_elem_of_np_random_randint in H1, H2, H3.
    exists c1. split; [done|]. apply Ok_elem_of_bind.
    exists c2. split; [done|]. apply Ok_elem_of_bind.
    exists c3. split; [done|]. by apply Ok_elem_of_mret.
Qed.

(** ** What can be sampled *)

Lemma sample_shape_outcomes (self : Shapes) (H W offset : Z)
    (s : shape_descriptor) :
  Ok s ∈ outcomes (_sample_shape self H W offset)
  <-> possible_shape self H W offset s.
Proof.
  destruct s as [[shape [[c1 c2] c3]] [[center_x center_y] size]].
  unfold _sample_shape, possible_shape. split.
  - intros Hs.
    apply Ok_elem_of_bind in Hs as (shape' & Hshape & Hs).
    apply Ok_elem_of_bind in Hs as (c & Hc & Hs).
    apply Ok_elem_of_bind in Hs as (x & Hx & Hs).
    apply Ok_elem_of_bind in Hs as (y & Hy & Hs).
    apply Ok_elem_of_bind in Hs as (z & Hz & Hs).
    apply Ok_elem_of_mret in Hs as [= <- <- <- <- <-].
    apply Ok_elem_of_uniform in Hshape.
    apply Ok_elem_of_np_random_randint_3 in Hc.
    apply Ok_elem_of_random_randint in Hx, Hy, Hz. done.
  - intros (Hshape & Hc & Hx & Hy & Hz).
    apply Ok_elem_of_bind. exists shape.
    split; [by apply Ok_elem_of_uniform|].
    apply Ok_elem_of_bind. exists (c1, c2, c3).
    split; [by apply Ok_elem_of_np_random_randint_3|].
    apply Ok_elem_of_bind. exists center_x.
    split; [by apply Ok_elem_of_random_randint|].
    apply Ok_elem_of_bind. exists center_y.
    split; [by apply Ok_elem_of_random_randint|].
    apply Ok_elem_of_bind. exists size.
    split; [by apply Ok_elem_of_random_randint|].
    by apply Ok_elem_of_mret.
Qed.

Lemma sample_shapes_outcomes (self : Shapes) (num_shapes H W offset : Z)
    (shapes : list shape_descriptor) :
  Ok shapes ∈ outcomes (_sample_shapes self num_shapes H W offset)
  <-> 1 <= Z.of_nat (length shapes) <= num_shapes
      /\ Forall (possible_shape self H W 20) shapes.
Proof.
  unfold _sample_shapes. rewrite Ok_elem_of_bind. split.
  - intros (N & HN & Hs). apply Ok_elem_of_random_randint in HN.
    apply Ok_elem_of_sample_each in Hs.
    pose proof (Forall2_length _ _ _ Hs) as Hlen. rewrite length_seq in Hlen.
    split; [lia|].
    apply Forall_forall. intros s Hin.
    apply list_elem_of_lookup in Hin as (i & Hi).
    destruct (Forall2_lookup_r _ _ _ _ _ Hs Hi) as (k & _ & Hk).
    by apply sample_shape_outcomes.
  - intros (Hlen & Hs). exists (Z.of_nat (length shapes)).
    split; [by apply Ok_elem_of_random_randint|].
    apply Ok_elem_of_sample_each. rewrite Nat2Z.id.
    apply Forall2_same_length_lookup_2; [by rewrite length_seq|].
    intros i k s _ Hi. apply sample_shape_outcomes.
    rewrite Forall_forall in Hs. apply Hs.
    by eapply list_elem_of_lookup_2.
Qed.

(** ** The overlap filter *)

Lemma insert_by_score_Permutation (scores : list Q) (i : nat)
    (sorted : list nat) :
  insert_by_score scores i sorted ≡ₚ i :: sorted.
Proof.
  induction sorted as [|j rest IH]; simpl; [done|].
  destruct (Qle_bool _ _); [|done].
  rewrite IH. apply Permutation_swap.
Qed.

Lemma order_by_score_Permutation (scores : list Q) (n : nat) :
  order_by_score scores n ≡ₚ seq 0 n.
Proof.
  unfold order_by_score.
  assert (Hgen : forall l acc,
            foldl (fun sorted i => insert_by_score scores i sorted) acc l
            ≡ₚ l ++ acc).
  { induction l as [|i l IH]; intros acc; simpl; [done|].
    rewrite IH, insert_by_score_Permutation.
    by rewrite Permutation_middle. }
  rewrite Hgen. by rewrite app_nil_r.
Qed.

Lemma nms_select_sublist (boxes : list (list Z)) (iou_thresh : Q)
    (candidates kept : list nat) :
  exists picked,
    nms_select boxes iou_thresh candidates kept = kept ++ picked
    /\ sublist picked candidates.
Proof.
  revert kept. induction candidates as [|i rest IH]; intros kept; simpl.
  - exists []. by rewrite app_nil_r.
  - destruct (existsb _ kept).
    + destruct (IH kept) as (picked & -> & Hsub).
      exists picked. split; [done|by apply sublist_cons].
    + destruct (IH (kept ++ [i])) as (picked & -> & Hsub).
      exists (i :: picked). rewrite <- app_assoc. split; [done|].
      by apply sublist_skip.
Qed.

(** The filter returns indices of boxes, no more of them than there are
    boxes. *)
Lemma apply_non_max_suppression_selects (boxes : list (list Z))
    (scores : list Q) (iou_thresh : Q) :
  let '(args, num_boxes) :=
    apply_non_max_suppression boxes scores iou_thresh in
  num_boxes = length args
  /\ (length args <= length boxes)%nat
  /\ Forall (fun i => (i < length boxes)%nat) args.
Proof.
  unfold apply_non_max_suppression.
  destruct (nms_select_sublist boxes iou_thresh
              (order_by_score scores (length boxes)) [])
    as (picked & -> & Hsub).
  simpl. split; [done|].
  pose proof (order_by_score_Permutation scores (length boxes)) as Hperm.
  split.
  - apply sublist_length in Hsub.
    apply Permutation_length in Hperm. rewrite length_seq in Hperm. lia.
  - apply Forall_forall. intros i Hi.
    assert (Hin : i ∈ seq 0 (length boxes)).
    { rewrite <- Hperm. by eapply elem_of_sublist. }
    apply elem_of_seq in Hin. lia.
Qed.

Lemma getitem_lookup {A} (l : list A) (i : nat) (x : A) :
  l !! i = Some x -> getitem l i = Ok x.
Proof. unfold getitem. by intros ->. Qed.

Lemma for_each_getitem {A} (l : list A) (indices : list nat) :
  Forall (fun i => (i < length l)%nat) indices ->
  exists xs, for_each (getitem l) indices = Ok xs
             /\ length xs = length indices.
Proof.
  induction 1 as [|i indices Hi _ (xs & IH & Hlen)]; cbn [for_each].
  - by exists [].
  - destruct (lookup_lt_is_Some_2 l i Hi) as [x Hx].
    rewrite (getitem_lookup _ _ _ Hx).
    cbn [mbind result_bind]. rewrite IH. cbn [mbind result_bind].
    exists (x :: xs). simpl. by rewrite Hlen.
Qed.

Lemma length_compute_bounding_boxes (shapes : list shape_descriptor) :
  length (_compute_bounding_boxes shapes) = length shapes.
Proof. unfold _compute_bounding_boxes. apply length_map. Qed.

(** [_filter_shapes] returns, and keeps no more shapes than it was given;
    shapes and boxes are kept in pairs. *)
Lemma filter_shapes_selects (shapes : list shape_descriptor) (iou_thresh : Q) :
  exists selected_shapes selected_boxes,
    _filter_shapes (_compute_bounding_boxes shapes) shapes iou_thresh
    = Ok (selected_shapes, selected_boxes)
    /\ (length selected_shapes <= length shapes)%nat
    /\ length selected_boxes = length selected_shapes.
Proof.
  unfold _filter_shapes.
  pose proof (apply_non_max_suppression_selects
                (_compute_bounding_boxes shapes)
                (repeat 1%Q (length (_compute_bounding_boxes shapes)))
                iou_thresh) as Hnms.
  destruct (apply_non_max_suppression _ _ _) as [args num_boxes].
  destruct Hnms as (-> & Hlen & Hargs).
  rewrite firstn_all. rewrite length_compute_bounding_boxes in Hlen, Hargs.
  destruct (for_each_getitem shapes args Hargs) as (sel & -> & Hsel).
  cbn [mbind result_bind].
  destruct (for_each_getitem (_compute_bounding_boxes shapes) args)
    as (bxs & -> & Hbxs); [by rewrite length_compute_bounding_boxes|].
  cbn [mbind result_bind]. exists sel, bxs. repeat split; lia.
Qed.

(** ** The occlusion loops act pixel by pixel *)

Lemma zip_with_map_map {A B C D} (f : B -> C -> D) (g : A -> B) (h : A -> C)
    (l : list A) :
  zip_with f (map g l) (map h l) = map (fun x => f (g x) (h x)) l.
Proof. induction l as [|a l IH]; simpl; [done|]. by rewrite IH. Qed.

Lemma zip_with_map_r {A C D} (f : A -> C -> D) (h : A -> C) (l : list A) :
  zip_with f l (map h l) = map (fun x => f x (h x)) l.
Proof. induction l as [|a l IH]; simpl; [done|]. by rewrite IH. Qed.

Lemma zip_with2_map_map {A B C D} (f : B -> C -> D) (g : A -> B) (h : A -> C)
    (m : list (list A)) :
  zip_with (zip_with f) (map (map g) m) (map (map h) m)
  = map (map (fun x => f (g x) (h x))) m.
Proof.
  rewrite zip_with_map_map. apply map_ext. intros row.
  apply zip_with_map_map.
Qed.

Lemma zip_with2_map_r {A C D} (f : A -> C -> D) (h : A -> C)
    (m : list (list A)) :
  zip_with (zip_with f) m (map (map h) m)
  = map (map (fun x => f x (h x))) m.
Proof.
  rewrite zip_with_map_r. apply map_ext. intros row. apply zip_with_map_r.
Qed.

Lemma resolve_pair_pixelwise (i j : nat) (masks : image) :
  resolve_pair i j masks = map (map (resolve_pair_pixel i j)) masks.
Proof.
  unfold resolve_pair, set_channel, bool_astype_uint8, np_logical_xor,
    np_logical_and, channel.
  rewrite (zip_with2_map_map (fun x y => truth x && truth y)).
  rewrite (zip_with2_map_map (fun x (y : bool) => xorb (truth x) y)).
  rewrite map_map.
  erewrite (map_ext (fun row => map Z.b2z (map _ row)));
    [|intros row; apply map_map].
  rewrite (zip_with2_map_r (fun pixel v => <[i:=v]> pixel)).
  reflexivity.
Qed.

Lemma foldl_pixelwise {J} (f : J -> list Z -> list Z) (js : list J)
    (masks : image) :
  foldl (fun masks j => map (map (f j)) masks) masks js
  = map (map (fun pixel => foldl (fun pixel j => f j pixel) pixel js)) masks.
Proof.
  revert masks. induction js as [|j js IH]; intros masks; simpl.
  - rewrite <- (map_id masks) at 1. apply map_ext. intros row.
    by rewrite map_id.
  - rewrite IH, map_map. apply map_ext. intros row. by rewrite map_map.
Qed.

Lemma resolve_occlusions_pixelwise (n : nat) (masks : image) :
  resolve_occlusions n masks = map (map (resolve_pixel n)) masks.
Proof.
  unfold resolve_occlusions, resolve_pixel.
  rewrite <- (foldl_pixelwise
                (fun i pixel =>
                   foldl (fun pixel j => resolve_pair_pixel i j pixel)
                         pixel (seq (i + 1) (n - (i + 1))))).
  generalize (seq 0 n) as is_. intros is_. revert masks.
  induction is_ as [|i is_ IH]; intros masks; simpl; [done|].
  rewrite <- IH. f_equal.
  rewrite <- (foldl_pixelwise (resolve_pair_pixel i)).
  generalize (seq (i + 1) (n - (i + 1))) as js. intros js. revert masks.
  clear IH. induction js as [|j js IHj]; intros masks; simpl; [done|].
  by rewrite resolve_pair_pixelwise, IHj.
Qed.

(** ** One pixel *)

Lemma truth_b2z (b : bool) : truth (Z.b2z b) = b.
Proof. by destruct b. Qed.

Lemma nth_insert_other (pixel : list Z) (i j : nat) (v : Z) :
  i <> j -> nth j (<[i:=v]> pixel) 0 = nth j pixel 0.
Proof. intros Hij. by rewrite !nth_lookup, list_lookup_insert_ne. Qed.

(** Writing 0 or 1 to a channel of a pixel: when the channel is off the
    pixel it holds no shape, and the value read back is 0 either way. *)
Lemma nth_insert_visible (pixel : list Z) (i : nat) (b : bool) :
  nth i (<[i:=Z.b2z (truth (nth i pixel 0) && b)]> pixel) 0
  = Z.b2z (truth (nth i pixel 0) && b).
Proof.
  destruct (decide (i < length pixel)%nat) as [Hi|Hi].
  - rewrite nth_lookup, list_lookup_insert_eq by done. done.
  - rewrite list_insert_ge by lia.
    rewrite (nth_overflow pixel) by lia. done.
Qed.

Lemma forallb_insert_other (pixel : list Z) (i : nat) (v : Z)
    (js : list nat) :
  Forall (fun j => i <> j) js ->
  forallb (fun j => negb (truth (nth j (<[i:=v]> pixel) 0))) js
  = forallb (fun j => negb (truth (nth j pixel 0))) js.
Proof.
  induction 1 as [|j js Hj _ IH]; simpl; [done|].
  by rewrite nth_insert_other, IH.
Qed.

Lemma inner_loop_pixel (i : nat) (js : list nat) (pixel : list Z) :
  Forall (fun j => i <> j) js ->
  foldl (fun pixel j => resolve_pair_pixel i j pixel) pixel js
  = match js with
    | [] => pixel
    | _ => <[i := Z.b2z (truth (nth i pixel 0)
                         && forallb (fun j => negb (truth (nth j pixel 0))) js)]>
             pixel
    end.
Proof.
  intros Hjs. revert pixel.
  induction Hjs as [|j js Hj Hjs IH]; intros pixel; [done|].
  cbn [foldl]. rewrite IH.
  assert (Hstep : resolve_pair_pixel i j pixel
                  = <[i := Z.b2z (truth (nth i pixel 0)
                                  && negb (truth (nth j pixel 0)))]> pixel).
  { unfold resolve_pair_pixel. do 2 f_equal.
    by destruct (truth (nth i pixel 0)), (truth (nth j pixel 0)). }
  rewrite Hstep. destruct js as [|j' js'].
  - simpl. by rewrite andb_true_r.
  - rewrite nth_insert_visible, truth_b2z, list_insert_insert_eq.
    rewrite forallb_insert_other by done.
    do 2 f_equal. cbn [forallb]. by rewrite <- andb_assoc.
Qed.

Lemma forallb_ext_seq (f g : nat -> bool) (l : list nat) :
  (forall j, In j l -> f j = g j) -> forallb f l = forallb g l.
Proof.
  induction l as [|j l IH]; intros Hfg; simpl; [done|].
  rewrite Hfg by by left. rewrite IH; [done|].
  intros; apply Hfg. by right.
Qed.

Lemma resolved_value_ext (n : nat) (pixel pixel' : list Z) (i : nat) :
  (forall j, (i <= j)%nat -> nth j pixel' 0 = nth j pixel 0) ->
  resolved_value n pixel' i = resolved_value n pixel i.
Proof.
  intros Hsame. unfold resolved_value, on_top.
  rewrite (Hsame i) by lia. destruct (S i <? n)%nat; [|done].
  do 2 f_equal. apply forallb_ext_seq. intros j Hj.
  apply in_seq in Hj. by rewrite Hsame by lia.
Qed.

Lemma inner_loop_value (n i : nat) (pixel : list Z) :
  let pixel' :=
    foldl (fun pixel j => resolve_pair_pixel i j pixel) pixel
          (seq (i + 1) (n - (i + 1))) in
  nth i pixel' 0 = resolved_value n pixel i
  /\ forall j, j <> i -> nth j pixel' 0 = nth j pixel 0.
Proof.
  intros pixel'. subst pixel'. rewrite inner_loop_pixel.
  2:{ apply Forall_forall. intros j Hj. apply elem_of_seq in Hj. lia. }
  unfold resolved_value, on_top. rewrite Nat.add_1_r.
  destruct (n - S i)%nat as [|k] eqn:Hk.
  - simpl. destruct (Nat.ltb_spec (S i) n); [lia|done].
  - destruct (Nat.ltb_spec (S i) n); [|lia]. cbn [seq].
    split; [apply nth_insert_visible|].
    intros j Hj. by apply nth_insert_other.
Qed.

Lemma outer_loop_value (n k s : nat) (pixel : list Z) :
  (s + k = n)%nat ->
  let pixel' :=
    foldl (fun pixel i =>
             foldl (fun pixel j => resolve_pair_pixel i j pixel) pixel
                   (seq (i + 1) (n - (i + 1))))
          pixel (seq s k) in
  (forall i, (i < s)%nat -> nth i pixel' 0 = nth i pixel 0)
  /\ (forall i, (s <= i < n)%nat -> nth i pixel' 0 = resolved_value n pixel i).
Proof.
  revert s pixel. induction k as [|k IH]; intros s pixel Hn pixel'.
  - subst pixel'. simpl. split; [done|]. intros i Hi. lia.
  - subst pixel'. cbn [seq foldl].
    destruct (inner_loop_value n s pixel) as [Hs Hother].
    cbv zeta in Hs, Hother.
    set (pixel1 := foldl _ pixel (seq (s + 1) (n - (s + 1)))) in *.
    destruct (IH (S s) pixel1 ltac:(lia)) as [Hlow Hhigh].
    cbv zeta in Hlow, Hhigh. split.
    + intros i Hi. rewrite Hlow by lia. apply Hother. lia.
    + intros i Hi. destruct (decide (i = s)) as [->|Hne].
      * rewrite Hlow by lia. done.
      * rewrite Hhigh by lia. apply resolved_value_ext.
        intros j Hj. apply Hother. lia.
Qed.

(** After the loops, channel [i] of a pixel holds [resolved_value]. *)
Lemma resolve_pixel_value (n i : nat) (pixel : list Z) :
  (i < n)%nat -> nth i (resolve_pixel n pixel) 0 = resolved_value n pixel i.
Proof.
  intros Hi. unfold resolve_pixel.
  destruct (outer_loop_value n n 0 pixel ltac:(lia)) as [_ Hhigh].
  apply Hhigh. lia.
Qed.

Lemma on_top_later_off (n : nat) (pixel : list Z) (i j : nat) :
  (i < j < n)%nat -> on_top n pixel i = true -> truth (nth j pixel 0) = false.
Proof.
  intros Hij. unfold on_top. rewrite andb_true_iff, forallb_forall.
  intros [_ Hoff]. specialize (Hoff j). rewrite in_seq in Hoff.
  apply negb_true_iff, Hoff. lia.
Qed.

(** No two channels of a resolved pixel are both nonzero. *)
Lemma resolve_pixel_disjoint (n : nat) (pixel : list Z) (i j : nat) :
  (i < j < n)%nat ->
  ~ (nth i (resolve_pixel n pixel) 0 <> 0
     /\ nth j (resolve_pixel n pixel) 0 <> 0).
Proof.
  intros Hij [Hi Hj]. rewrite !resolve_pixel_value in * by lia.
  unfold resolved_value in Hi.
  destruct (Nat.ltb_spec (S i) n) as [_|?]; [|lia].
  destruct (on_top n pixel i) eqn:Htop; [|done].
  pose proof (on_top_later_off n pixel i j Hij Htop) as Hoff.
  unfold resolved_value, on_top in Hj. rewrite Hoff in Hj.
  destruct (S j <? n)%nat; [done|].
  unfold truth in Hoff. apply negb_false_iff, Z.eqb_eq in Hoff. done.
Qed.

(** A pixel covered by channels [i < j] is removed from channel [i]. *)
Lemma resolve_pixel_occluded (n : nat) (pixel : list Z) (i j : nat) :
  (i < j < n)%nat -> nth i pixel 0 <> 0 -> nth j pixel 0 <> 0 ->
  nth i (resolve_pixel n pixel) 0 = 0.
Proof.
  intros Hij Hi Hj. rewrite resolve_pixel_value by lia.
  unfold resolved_value.
  destruct (Nat.ltb_spec (S i) n) as [_|?]; [|lia].
  destruct (on_top n pixel i) eqn:Htop; [|done].
  pose proof (on_top_later_off n pixel i j Hij Htop) as Hoff.
  unfold truth in Hoff. apply negb_false_iff, Z.eqb_eq in Hoff. done.
Qed.

(** The last channel that covers a pixel keeps it. *)
Lemma resolve_pixel_top (n : nat) (pixel : list Z) (j : nat) :
  (j < n)%nat -> nth j pixel 0 <> 0 ->
  (forall k, (j < k < n)%nat -> nth k pixel 0 = 0) ->
  nth j (resolve_pixel n pixel) 0 <> 0.
Proof.
  intros Hj Hcov Hlast. rewrite resolve_pixel_value by lia.
  unfold resolved_value. destruct (S j <? n)%nat; [|done].
  assert (Htop : on_top n pixel j = true); [|by rewrite Htop].
  unfold on_top. apply andb_true_iff. split.
  - unfold truth. by apply negb_true_iff, Z.eqb_neq.
  - apply forallb_forall. intros k Hk. apply in_seq in Hk.
    rewrite Hlast by lia. done.
Qed.

(** ** Samples *)

Section Samples.
Context `{Rasterizer}.

(** What went into a sample that [load_sample] has produced. *)
Lemma load_sample_inv (self : Shapes) (s : sample) :
  Ok s ∈ outcomes (load_sample self) ->
  exists shapes selected boxes,
    Ok shapes ∈ outcomes (_sample_shapes self (max_num_shapes self)
                            (image_size self).1 (image_size self).2 20)
    /\ _filter_shapes (_compute_bounding_boxes shapes) shapes (iou_thresh self)
       = Ok (selected, boxes)
    /\ _draw_masks self selected = Ok (sample_masks s)
    /\ length (sample_box_data s) = length boxes.
Proof.
  unfold load_sample. destruct (image_size self) as [height width].
  intros Hs.
  apply Ok_elem_of_bind in Hs as (shapes & Hshapes & Hs).
  apply Ok_elem_of_bind in Hs as ([selected boxes] & Hfilter & Hs).
  apply Ok_elem_of_lift in Hfilter.
  apply Ok_elem_of_bind in Hs as (img & _ & Hs).
  apply Ok_elem_of_bind in Hs as (masks & Hmasks & Hs).
  apply Ok_elem_of_lift in Hmasks.
  apply Ok_elem_of_bind in Hs as (class_args & Hargs & Hs).
  apply Ok_elem_of_lift in Hargs.
  apply Ok_elem_of_bind in Hs as (box_data & Hdata & Hs).
  apply Ok_elem_of_lift in Hdata.
  apply Ok_elem_of_mret in Hs as ->. cbn [sample_masks sample_box_data].
  exists shapes, selected, boxes. repeat split; try done.
  destruct (Nat.eqb_spec (length boxes)
              (length (map (fun arg => [Z.of_nat arg]) class_args)))
    as [Hlen|]; [|done].
  injection Hdata as <-. rewrite length_zip_with. lia.
Qed.
End Samples.

(** ** The channels that are drawn *)

Lemma single_channel_np_full (height width : Z) (v : Z) :
  single_channel (np_full height width [v]).
Proof.
  unfold single_channel, np_full.
  apply Forall_replicate, Forall_replicate. done.
Qed.

Lemma blank_channel_np_full (height width : Z) :
  blank_channel 0 (np_full height width [0]).
Proof.
  unfold blank_channel, np_full.
  apply Forall_replicate, Forall_replicate. done.
Qed.

Lemma single_channel_stamp (covers : Z -> Z -> bool) (c : color) (a : image) :
  single_channel a -> single_channel (stamp covers c a).
Proof.
  unfold single_channel, stamp. intros Ha.
  apply Forall_forall. intros row Hrow.
  apply elem_of_lookup_imap in Hrow as (y & row0 & -> & Hy).
  apply Forall_forall. intros pixel Hpixel.
  apply elem_of_lookup_imap in Hpixel as (x & pixel0 & -> & Hx).
  assert (Hlen : length pixel0 = 1%nat).
  { rewrite Forall_forall in Ha.
    specialize (Ha row0 ltac:(by eapply list_elem_of_lookup_2)).
    rewrite Forall_forall in Ha. apply Ha. by eapply list_elem_of_lookup_2. }
  destruct (covers _ _); [|done].
  destruct c as [[c1 c2] c3]. unfold paint. rewrite Hlen. done.
Qed.

Section Channels.
Context `{Rasterizer}.

Lemma single_channel_draw_shape (self : Shapes) (a a' : image)
    (shape : string) (dims : dimensions) (c : color) :
  single_channel a -> _draw_shape self a shape dims c = Ok a' ->
  single_channel a'.
Proof.
  intros Ha. unfold _draw_shape. destruct dims as [[center_x center_y] size].
  unfold dict_getitem, dict_zip.
  destruct (list_to_map _ !! shape) as [f|] eqn:Hf; [|done].
  cbn [mbind result_bind]. intros [= <-].
  apply elem_of_list_to_map_2, elem_of_reverse, elem_of_zip_r in Hf.
  apply list_elem_of_In in Hf. simpl in Hf.
  destruct Hf as [<-|[<-|[<-|[]]]]; by apply single_channel_stamp.
Qed.

Lemma draw_class_mask_keeps (self : Shapes) (class_masks class_masks' : list image)
    (shape_arg : nat) (s : shape_descriptor) :
  draw_class_mask self class_masks (shape_arg, s) = Ok class_masks' ->
  length class_masks' = length class_masks
  /\ (Forall single_channel class_masks -> Forall single_channel class_masks')
  /\ (forall i, i <> shape_arg -> class_masks' !! i = class_masks !! i).
Proof.
  unfold draw_class_mask. destruct s as [[shape c] dims].
  unfold getitem.
  destruct (class_masks !! shape_arg) as [mask|] eqn:Hmask; [|done].
  cbn [mbind result_bind].
  destruct (_draw_shape self mask shape dims (1, 1, 1)) as [class_mask|e]
    eqn:Hdraw; [|done].
  cbn [mbind result_bind]. intros [= <-].
  split; [apply length_insert|]. split.
  - intros Hall. apply Forall_insert; [done|].
    eapply single_channel_draw_shape; [|exact Hdraw].
    rewrite Forall_forall in Hall. apply Hall.
    by eapply list_elem_of_lookup_2.
  - intros i Hi. by rewrite list_lookup_insert_ne.
Qed.

Lemma draw_class_masks_loop (self : Shapes) (shapes : list shape_descriptor)
    (off : nat) (class_masks class_masks' : list image) :
  for_fold (draw_class_mask self) class_masks
           (imap (fun i a => ((off + i)%nat, a)) shapes) = Ok class_masks' ->
  length class_masks' = length class_masks
  /\ (Forall single_channel class_masks -> Forall single_channel class_masks')
  /\ (forall i, (off + length shapes <= i)%nat ->
                class_masks' !! i = class_masks !! i).
Proof.
  revert off class_masks.
  induction shapes as [|s shapes IH]; intros off class_masks.
  - simpl. intros [= <-]. done.
  - rewrite imap_cons. cbn [for_fold length].
    destruct (draw_class_mask self class_masks ((off + 0)%nat, s))
      as [class_masks1|e] eqn:Hstep; [|done].
    cbn [mbind result_bind]. intros Hrest.
    apply draw_class_mask_keeps in Hstep as (Hlen1 & Hsingle1 & Hother1).
    rewrite (imap_ext _ (fun i a => ((S off + i)%nat, a))) in Hrest.
    2:{ intros i a _. simpl. f_equal. lia. }
    apply IH in Hrest as (Hlen & Hsingle & Hother).
    split; [lia|]. split; [auto|].
    intros i Hi. rewrite Hother by lia. apply Hother1. lia.
Qed.

(** The channels that [_draw_class_masks] hands over: as many as
    [max_num_shapes], each of one channel, and zero from the number of
    shapes on. *)
Lemma draw_class_masks_channels (self : Shapes)
    (shapes : list shape_descriptor) (class_masks : list image) :
  _draw_class_masks self shapes = Ok class_masks ->
  length class_masks = Z.to_nat (max_num_shapes self)
  /\ Forall single_channel class_masks
  /\ forall i a, (length shapes <= i)%nat -> class_masks !! i = Some a ->
                 blank_channel 0 a.
Proof.
  unfold _draw_class_masks. destruct (image_size self) as [height width].
  unfold enumerate. intros Hloop.
  apply (draw_class_masks_loop self shapes 0) in Hloop
    as (Hlen & Hsingle & Hother).
  rewrite length_map, length_seq in Hlen. split; [done|]. split.
  - apply Hsingle. apply Forall_forall. intros a Ha.
    apply list_elem_of_In, in_map_iff in Ha as (k & <- & _).
    apply single_channel_np_full.
  - intros i a Hi Ha. rewrite Hother in Ha by (simpl; lia).
    apply list_elem_of_lookup_2, list_elem_of_In, in_map_iff in Ha
      as (k & <- & _).
    apply blank_channel_np_full.
Qed.
End Channels.

Lemma Forall_zip_with_both {A B C} (P : A -> Prop) (Q : B -> Prop)
    (R : C -> Prop) (f : A -> B -> C) (l : list A) (k : list B) :
  (forall x y, P x -> Q y -> R (f x y)) ->
  Forall P l -> Forall Q k -> Forall R (zip_with f l k).
Proof.
  intros Hf Hl. revert k. induction Hl as [|x l Hx Hl IH]; intros k Hk;
    [constructor|].
  destruct Hk as [|y k Hy Hk]; simpl; constructor; auto.
Qed.

(** Concatenating one-channel arrays puts array [i] into channel [i]. *)
Lemma np_concatenate_last_blank (arrays : list image) (m a : image) (i : nat) :
  Forall single_channel arrays -> np_concatenate_last arrays = Ok m ->
  arrays !! i = Some a -> blank_channel 0 a -> blank_channel i m.
Proof.
  intros Hsingle. revert m i.
  induction Hsingle as [|a0 rest Ha0 Hrest IH]; intros m i Hrun Hi Hblank;
    [done|].
  destruct rest as [|a1 rest'].
  - simpl in Hrun. injection Hrun as <-.
    destruct i as [|i]; [|done]. by injection Hi as <-.
  - change (np_concatenate_last (a0 :: a1 :: rest'))
      with (r ← np_concatenate_last (a1 :: rest');
            if bool_decide (map length a0 = map length r)
            then Ok (zip_with (zip_with app) a0 r)
            else Raise "ValueError") in Hrun.
    destruct (np_concatenate_last (a1 :: rest')) as [r|e] eqn:Hr; [|done].
    cbn [mbind result_bind] in Hrun.
    destruct (bool_decide _); [|done]. injection Hrun as <-.
    unfold blank_channel. destruct i as [|i].
    + injection Hi as <-.
      apply (Forall_zip_with_both
               (Forall (fun pixel => length pixel = 1%nat
                                     /\ nth 0 pixel 0 = 0))
               (fun _ => True)); [| |by apply Forall_true].
      * intros row row' Hrow _.
        apply (Forall_zip_with_both
                 (fun pixel => length pixel = 1%nat /\ nth 0 pixel 0 = 0)
                 (fun _ => True)); [|done|by apply Forall_true].
        intros pixel pixel' [Hlen Hzero] _.
        rewrite app_nth1 by lia. done.
      * unfold single_channel in Ha0. unfold blank_channel in Hblank.
        apply Forall_forall. intros row Hrow.
        rewrite Forall_forall in Ha0, Hblank.
        specialize (Ha0 row Hrow). specialize (Hblank row Hrow).
        rewrite Forall_forall in Ha0, Hblank.
        apply Forall_forall. intros pixel Hpixel. split; auto.
    + specialize (IH r i eq_refl Hi Hblank).
      apply (Forall_zip_with_both
               (Forall (fun pixel => length pixel = 1%nat))
               (Forall (fun pixel => nth i pixel 0 = 0))); [|done|done].
      intros row row' Hrow Hrow'.
      apply (Forall_zip_with_both
               (fun pixel => length pixel = 1%nat)
               (fun pixel => nth i pixel 0 = 0)); [|done|done].
      intros pixel pixel' Hlen Hzero.
      rewrite app_nth2 by lia. rewrite Hlen. simpl.
      by rewrite Nat.sub_0_r.
Qed.

Lemma nth_map_zero (f : Z -> Z) (l : list Z) (i : nat) :
  f 0 = 0 -> nth i (map f l) 0 = f (nth i l 0).
Proof.
  intros Hf. revert i. induction l as [|v l IH]; intros [|i]; simpl; auto.
Qed.

Lemma blank_channel_astype_uint8 (i : nat) (a : image) :
  blank_channel i a -> blank_channel i (astype_uint8 a).
Proof.
  unfold blank_channel, astype_uint8. intros Ha.
  apply Forall_forall. intros row Hrow.
  apply list_elem_of_In, in_map_iff in Hrow as (row0 & <- & Hrow0).
  apply Forall_forall. intros pixel Hpixel.
  apply list_elem_of_In, in_map_iff in Hpixel as (pixel0 & <- & Hpixel0).
  rewrite Forall_forall in Ha.
  specialize (Ha row0 ltac:(by apply list_elem_of_In)).
  rewrite Forall_forall in Ha.
  specialize (Ha pixel0 ltac:(by apply list_elem_of_In)).
  rewrite nth_map_zero, Ha by done. done.
Qed.

Lemma blank_channel_resolve_occlusions (n i : nat) (a : image) :
  (i < n)%nat -> blank_channel i a ->
  blank_channel i (resolve_occlusions n a).
Proof.
  intros Hi. rewrite resolve_occlusions_pixelwise.
  unfold blank_channel. intros Ha.
  apply Forall_forall. intros row Hrow.
  apply list_elem_of_In, in_map_iff in Hrow as (row0 & <- & Hrow0).
  apply Forall_forall. intros pixel Hpixel.
  apply list_elem_of_In, in_map_iff in Hpixel as (pixel0 & <- & Hpixel0).
  rewrite Forall_forall in Ha.
  specialize (Ha row0 ltac:(by apply list_elem_of_In)).
  rewrite Forall_forall in Ha.
  specialize (Ha pixel0 ltac:(by apply list_elem_of_In)).
  rewrite resolve_pixel_value by done.
  unfold resolved_value, on_top. rewrite Ha.
  by destruct (S i <? n)%nat.
Qed.

Lemma channel_nonempty_blank (i : nat) (a : image) :
  blank_channel i a -> channel_nonempty a i = false.
Proof.
  unfold blank_channel, channel_nonempty. intros Ha.
  apply not_true_is_false. intros Hex.
  apply existsb_exists in Hex as (row & Hrow & Hex).
  apply existsb_exists in Hex as (pixel & Hpixel & Hex).
  rewrite Forall_forall in Ha.
  specialize (Ha row ltac:(by apply list_elem_of_In)).
  rewrite Forall_forall in Ha.
  specialize (Ha pixel ltac:(by apply list_elem_of_In)).
  by rewrite Ha in Hex.
Qed.

Lemma length_filter_seq_below (P : nat -> Prop) `{forall i, Decision (P i)}
    (n k : nat) :
  (forall i, (i < n)%nat -> P i -> (i < k)%nat) ->
  (length (filter P (seq 0 n)) <= k)%nat.
Proof.
  intros Hbelow.
  assert (Hsub : filter P (seq 0 n) ⊆+ seq 0 k).
  { apply NoDup_submseteq.
    - apply NoDup_filter, NoDup_seq.
    - intros i Hi. apply list_elem_of_filter in Hi as [HP Hi].
      apply elem_of_seq in Hi. apply elem_of_seq.
      apply Hbelow in HP; lia. }
  apply submseteq_length in Hsub. by rewrite length_seq in Hsub.
Qed.

(** ** A sample with a hidden shape *)

Lemma nested_squares_possible :
  Ok nested_squares
  ∈ outcomes (_sample_shapes example_loader (max_num_shapes example_loader)
                (image_size example_loader).1 (image_size example_loader).2 20).
Proof.
  apply sample_shapes_outcomes. split; [simpl; lia|].
  repeat constructor; try (vm_compute; congruence).
Qed.

(** The three nested squares all pass the overlap filter, and the first
    one, wholly under the second, leaves its channel empty. *)
Lemma hidden_square_sample :
  exists s,
    Ok s ∈ outcomes (@load_sample filled_shapes example_loader)
    /\ length (sample_box_data s) = 3%nat
    /\ nonempty_channels 4 (sample_masks s) = 2%nat.
Proof.
  eexists. split.
  - unfold load_sample.
    change (image_size example_loader) with (160, 160).
    apply Ok_elem_of_bind. exists nested_squares.
    split; [exact nested_squares_possible|].
    apply Ok_elem_of_bind. eexists. split.
    { apply Ok_elem_of_lift. vm_compute. reflexivity. }
    cbv beta iota.
    apply Ok_elem_of_bind. eexists. split.
    { unfold _draw_shapes.
      change (image_size example_loader) with (160, 160).
      apply Ok_elem_of_bind. exists (0, 0, 0). split.
      { apply Ok_elem_of_np_random_randint_3. simpl. lia. }
      apply Ok_elem_of_lift. vm_compute. reflexivity. }
    apply Ok_elem_of_bind. eexists. split.
    { apply Ok_elem_of_lift. vm_compute. reflexivity. }
    apply Ok_elem_of_bind. eexists. split.
    { apply Ok_elem_of_lift. vm_compute. reflexivity. }
    apply Ok_elem_of_bind. eexists. split.
    { apply Ok_elem_of_lift. vm_compute. reflexivity. }
    apply Ok_elem_of_mret. reflexivity.
  - split; vm_compute; reflexivity.
Qed.

(** ** Channel capacity *)

Section Capacity.
Context `{Rasterizer}.

Lemma draw_shape_raises (self : Shapes) (a : image) (shape : string)
    (dims : dimensions) (c : color) (e : exn) :
  _draw_shape self a shape dims c = Raise e -> e = "KeyError".
Proof.
  unfold _draw_shape. destruct dims as [[center_x center_y] size].
  unfold dict_getitem. destruct (dict_zip _ _ !! shape); [done|].
  by intros [= <-].
Qed.

Lemma draw_class_masks_loop_raises (self : Shapes)
    (shapes : list shape_descriptor) (off : nat) (class_masks : list image)
    (e : exn) :
  (off + length shapes <= length class_masks)%nat ->
  for_fold (draw_class_mask self) class_masks
           (imap (fun i a => ((off + i)%nat, a)) shapes) = Raise e ->
  e = "KeyError".
Proof.
  revert off class_masks.
  induction shapes as [|s shapes IH]; intros off class_masks Hfit; [done|].
  rewrite imap_cons. cbn [for_fold length] in *.
  destruct (draw_class_mask self class_masks ((off + 0)%nat, s))
    as [class_masks1|e1] eqn:Hstep; cbn [mbind result_bind].
  - apply draw_class_mask_keeps in Hstep as (Hlen1 & _ & _).
    rewrite (imap_ext _ (fun i a => ((S off + i)%nat, a))).
    2:{ intros i a _. simpl. f_equal. lia. }
    apply IH. lia.
  - intros [= <-]. unfold draw_class_mask in Hstep.
    destruct s as [[shape c] dims]. unfold getitem in Hstep.
    destruct (lookup_lt_is_Some_2 class_masks (off + 0)) as [mask Hmask];
      [lia|].
    rewrite Hmask in Hstep. cbn [mbind result_bind] in Hstep.
    destruct (_draw_shape self mask shape dims (1, 1, 1)) as [m|e'] eqn:Hdraw;
      [done|].
    cbn [mbind result_bind] in Hstep. injection Hstep as <-.
    by eapply draw_shape_raises.
Qed.

(** C10. Whatever shapes [load_sample] has drawn, [_filter_shapes]
    returns, it keeps at most [max_num_shapes] of them, and the first loop
    of [_draw_masks] never indexes the channels out of range: it raises
    no IndexError. *)
Theorem survivors_fit_mask_channels (self : Shapes)
    (shapes : list shape_descriptor) :
  Ok shapes
  ∈ outcomes (_sample_shapes self (max_num_shapes self)
                (image_size self).1 (image_size self).2 20) ->
  exists selected boxes,
    _filter_shapes (_compute_bounding_boxes shapes) shapes (iou_thresh self)
    = Ok (selected, boxes)
    /\ Z.of_nat (length selected) <= max_num_shapes self
    /\ _draw_class_masks self selected <> Raise "IndexError".
Proof.
  intros Hshapes. apply sample_shapes_outcomes in Hshapes as [Hcount _].
  destruct (filter_shapes_selects shapes (iou_thresh self))
    as (selected & boxes & Hfilter & Hlen & _).
  exists selected, boxes. split; [done|]. split; [lia|].
  unfold _draw_class_masks. destruct (image_size self) as [height width].
  intros Hraise. unfold enumerate in Hraise.
  apply (draw_class_masks_loop_raises self selected 0) in Hraise; [done|].
  rewrite length_map, length_seq. lia.
Qed.
End Capacity.

Lemma survivors_fit_mask_channels_nested_squares :
  exists selected boxes,
    _filter_shapes (_compute_bounding_boxes nested_squares) nested_squares
                   (iou_thresh example_loader)
    = Ok (selected, boxes)
    /\ Z.of_nat (length selected) <= max_num_shapes example_loader
    /\ @_draw_class_masks filled_shapes example_loader selected
       <> Raise "IndexError".
Proof.
  apply (@survivors_fit_mask_channels filled_shapes example_loader
           nested_squares).
  apply sample_shapes_outcomes. split; [simpl; lia|].
  repeat constructor; try (vm_compute; congruence).
Defined.

(** ** Occlusion *)

Lemma lookup_pixel_map (f : list Z -> list Z) (masks : image) (y x : nat)
    (row : list (list Z)) (p : list Z) :
  map (map f) masks !! y = Some row -> row !! x = Some p ->
  exists row0 p0, masks !! y = Some row0 /\ row0 !! x = Some p0 /\ p = f p0.
Proof.
  rewrite lookup_map. intros Hrow Hp.
  apply fmap_Some in Hrow as (row0 & Hrow0 & ->).
  rewrite lookup_map in Hp. apply fmap_Some in Hp as (p0 & Hp0 & ->).
  by exists row0, p0.
Qed.

Section Occlusion.
Context `{Rasterizer}.

(** ** Rows of box_data *)

(** C5, as the code has it.  In every sample of [load_sample] the number
    of rows of box_data is the number of shapes that passed the overlap
    filter, and the number of mask channels with a nonzero pixel is at
    most that number. *)
Theorem load_sample_box_data_rows (self : Shapes) (s : sample) :
  Ok s ∈ outcomes (load_sample self) ->
  exists shapes selected boxes,
    Ok shapes ∈ outcomes (_sample_shapes self (max_num_shapes self)
                            (image_size self).1 (image_size self).2 20)
    /\ _filter_shapes (_compute_bounding_boxes shapes) shapes (iou_thresh self)
       = Ok (selected, boxes)
    /\ length (sample_box_data s) = length selected
    /\ (nonempty_channels (Z.to_nat (max_num_shapes self)) (sample_masks s)
        <= length (sample_box_data s))%nat.
Proof.
  intros Hs.
  apply load_sample_inv in Hs
    as (shapes & selected & boxes & Hshapes & Hfilter & Hmasks & Hrows).
  destruct (filter_shapes_selects shapes (iou_thresh self))
    as (selected' & boxes' & Hfilter' & _ & Hpairs).
  rewrite Hfilter in Hfilter'. injection Hfilter' as <- <-.
  exists shapes, selected, boxes. repeat split; try done; [lia|].
  rewrite Hrows, Hpairs.
  unfold _draw_masks in Hmasks.
  destruct (_draw_class_masks self selected) as [class_masks|e] eqn:Hclass;
    [|done].
  cbn [mbind result_bind] in Hmasks.
  destruct (np_concatenate_last class_masks) as [drawn|e] eqn:Hdrawn; [|done].
  cbn [mbind result_bind] in Hmasks. injection Hmasks as Hmasks.
  apply draw_class_masks_channels in Hclass as (Hlen & Hsingle & Hblank).
  rewrite Hlen in Hmasks.
  unfold nonempty_channels. apply length_filter_seq_below.
  intros i Hi Hnonempty.
  destruct (decide (i < length selected)%nat) as [|Hge]; [done|].
  destruct (lookup_lt_is_Some_2 class_masks i) as [a Ha]; [lia|].
  rewrite channel_nonempty_blank in Hnonempty; [done|].
  rewrite <- Hmasks.
  apply blank_channel_resolve_occlusions; [done|].
  apply blank_channel_astype_uint8.
  eapply np_concatenate_last_blank; [done|done|exact Ha|].
  eapply Hblank; [|exact Ha]. lia.
Qed.
End Occlusion.

Lemma load_sample_box_data_rows_nested_squares :
  exists s,
    Ok s ∈ outcomes (@load_sample filled_shapes example_loader)
    /\ (nonempty_channels 4 (sample_masks s) <= length (sample_box_data s))%nat.
Proof.
  destruct hidden_square_sample as (s & Hs & _). exists s. split; [exact Hs|].
  destruct (@load_sample_box_data_rows filled_shapes example_loader s Hs)
    as (shapes & selected & boxes & _ & _ & _ & Hle).
  exact Hle.
Defined.

(** C5, as the specification words it, fails: the sample of the three
    nested squares has three rows of box_data and two nonempty mask
    channels. *)
Lemma box_data_rows_exceed_nonempty_channels :
  exists s,
    Ok s ∈ outcomes (@load_sample filled_shapes example_loader)
    /\ length (sample_box_data s)
       <> nonempty_channels (Z.to_nat (max_num_shapes example_loader))
                            (sample_masks s).
Proof.
  destruct hidden_square_sample as (s & Hs & Hrows & Hchannels).
  exists s. split; [exact Hs|].
  change (Z.to_nat (max_num_shapes example_loader)) with 4%nat.
  rewrite Hrows, Hchannels. discriminate.
Qed.

(** ** Colours *)

(** C7, the colour range of the code.  Every colour component of every
    shape that [_sample_shapes] can draw lies in 0..254: the upper bound
    255 of [np.random.randint] is exclusive, so 255 is never drawn. *)
Theorem sampled_colors_below_255 (self : Shapes) (num_shapes H W offset : Z)
    (shapes : list shape_descriptor) :
  Ok shapes ∈ outcomes (_sample_shapes self num_shapes H W offset) ->
  Forall (fun s : shape_descriptor =>
            0 <= s.1.2.1.1 <= 254 /\ 0 <= s.1.2.1.2 <= 254
            /\ 0 <= s.1.2.2 <= 254)
         shapes
  /\ ~ Ok 255 ∈ outcomes (np_random_randint 0 255).
Proof.
  intros Hshapes. split.
  - apply sample_shapes_outcomes in Hshapes as [_ Hpossible].
    eapply Forall_impl; [exact Hpossible|].
    intros [[shape [[c1 c2] c3]] [[center_x center_y] size]].
    unfold possible_shape. simpl. lia.
  - rewrite Ok_elem_of_np_random_randint. lia.
Qed.

Lemma sampled_colors_below_255_nested_squares :
  Forall (fun s : shape_descriptor =>
            0 <= s.1.2.1.1 <= 254 /\ 0 <= s.1.2.1.2 <= 254
            /\ 0 <= s.1.2.2 <= 254)
         nested_squares
  /\ ~ Ok 255 ∈ outcomes (np_random_randint 0 255).
Proof.
  apply (sampled_colors_below_255 example_loader 4 160 160 20).
  apply sample_shapes_outcomes. split; [simpl; lia|].
  repeat constructor; try (vm_compute; congruence).
Defined.

(** * Further properties of the anchor generator *)

(** ** Closed forms *)

Lemma center_x_of_cell (image_W feature_W : Z) (j : nat) :
  0 < image_W -> 0 < feature_W ->
  center_x_of image_W feature_W j = ((INR j + / 2) / IZR feature_W)%R.
Proof.
  intros HW Hw. unfold center_x_of, stride_x_of.
  assert (0 < IZR image_W)%R by (apply IZR_lt; lia).
  assert (0 < IZR feature_W)%R by (apply IZR_lt; lia).
  field. repeat split; lra.
Qed.

Lemma center_y_of_cell (image_H feature_H : Z) (i : nat) :
  0 < image_H -> 0 < feature_H ->
  center_y_of image_H feature_H i = ((INR i + / 2) / IZR feature_H)%R.
Proof.
  intros HH Hh. unfold center_y_of, stride_y_of.
  assert (0 < IZR image_H)%R by (apply IZR_lt; lia).
  assert (0 < IZR feature_H)%R by (apply IZR_lt; lia).
  field. repeat split; lra.
Qed.

Lemma half_width_cell (image_W : Z) (num_scales : nat) (scale : R)
    (feature_W : Z) (s : nat) (a : R) :
  0 < image_W -> 0 < feature_W ->
  half_width image_W num_scales scale feature_W s a
  = (scale * Rpower 2 (octave_of num_scales s) * sqrt a
     / (2 * IZR feature_W))%R.
Proof.
  intros HW Hw. unfold half_width, stride_x_of.
  assert (0 < IZR image_W)%R by (apply IZR_lt; lia).
  assert (0 < IZR feature_W)%R by (apply IZR_lt; lia).
  field. repeat split; lra.
Qed.

Lemma half_height_cell (image_H : Z) (num_scales : nat) (scale : R)
    (feature_H : Z) (s : nat) (a : R) :
  0 < image_H -> 0 < feature_H ->
  half_height image_H num_scales scale feature_H s a
  = (scale * Rpower 2 (octave_of num_scales s) * (1 / sqrt a)
     / (2 * IZR feature_H))%R.
Proof.
  intros HH Hh. unfold half_height, stride_y_of.
  assert (0 < IZR image_H)%R by (apply IZR_lt; lia).
  assert (0 < IZR feature_H)%R by (apply IZR_lt; lia).
  generalize (1 / sqrt a)%R as q. intros q.
  field. repeat split; lra.
Qed.

Lemma Rdiv_lt_one (a b : R) : (0 < b)%R -> (a < b)%R -> (a / b < 1)%R.
Proof.
  intros Hb Hab. apply (Rmult_lt_reg_r b); [done|].
  replace (a / b * b)%R with a by (field; lra). lra.
Qed.

Lemma flat_map_ext_elem {A B} (f g : A -> list B) (l : list A) :
  (forall a, a ∈ l -> f a = g a) -> flat_map f l = flat_map g l.
Proof.
  induction l as [|a l IH]; intros Hfg; simpl; [done|].
  rewrite Hfg by constructor. rewrite IH; [done|].
  intros; apply Hfg. by constructor.
Qed.




(** ** Centers *)



(** ** The image size *)

(** X2. The returned anchors are normalised: for a valid configuration
    they do not depend on the image shape, which only has to be
    positive. *)
Theorem build_anchors_image_shape_free (image_H image_W image_H' image_W' : Z)
    (branches : list branch) (num_scales : nat) (aspect_ratios : vector)
    (scale : R) :
  0 < image_H -> 0 < image_W -> 0 < image_H' -> 0 < image_W' ->
  branches <> [] -> Forall valid_branch branches ->
  (1 <= num_scales)%nat -> aspect_ratios <> [] ->
  build_anchors [image_H; image_W] branches num_scales aspect_ratios scale
  = build_anchors [image_H'; image_W'] branches num_scales aspect_ratios scale.
Proof.
  intros HH HW HH' HW' Hb Hv Hn Ha.
  rewrite !build_anchors_flat by done. f_equal.
  apply flat_map_ext_elem. intros b Hbin.
  assert (Hvb : valid_branch b) by (rewrite Forall_forall in Hv; by apply Hv).
  destruct (feature_dims_valid b Hvb) as (_ & Hh & Hw).
  unfold level_center_anchors. destruct (feature_dims b) as [fh fw].
  simpl in Hh, Hw.
  apply flat_map_ext. intros p. apply map_ext. intros v.
  unfold center_anchor.
  rewrite (center_x_of_cell image_W), (center_x_of_cell image_W') by done.
  rewrite (center_y_of_cell image_H), (center_y_of_cell image_H') by done.
  rewrite (half_width_cell image_W), (half_width_cell image_W') by done.
  by rewrite (half_height_cell image_H), (half_height_cell image_H') by done.
Qed.

Lemma build_anchors_image_shape_free_scenario :
  build_anchors [128; 128] [Branch [1; 16; 16; 64]] 3 [1; 2; / 2]%R 4%R
  = build_anchors [512; 640] [Branch [1; 16; 16; 64]] 3 [1; 2; / 2]%R 4%R.
Proof.
  apply build_anchors_image_shape_free.
  - lia.
  - lia.
  - lia.
  - lia.
  - discriminate.
  - repeat constructor. exists 16, 16. repeat split; lia.
  - lia.
  - discriminate.
Defined.

(** ** Box shapes *)

(** X3. The aspect ratio changes the shape of an anchor and not its area.
    For the anchor of scale index [s] and aspect ratio [a > 0] on a level
    of [feature_H x feature_W] cells, in units of one cell the width is
    [a] times the height and width times height is
    (scale * 2^(s/num_scales))^2. *)
Theorem build_anchors_aspect_and_area (image_H image_W : Z)
    (branches : list branch) (num_scales : nat) (aspect_ratios : vector)
    (scale : R) l b i j s k a :
  0 < image_H -> 0 < image_W ->
  Forall valid_branch branches ->
  branches !! l = Some b ->
  (i < Z.to_nat (feature_dims b).1)%nat ->
  (j < Z.to_nat (feature_dims b).2)%nat ->
  (s < num_scales)%nat -> aspect_ratios !! k = Some a -> (0 < a)%R ->
  exists anchors center_x center_y W H,
    build_anchors [image_H; image_W] branches num_scales aspect_ratios scale
    = Ok anchors
    /\ anchors !! (level_offset num_scales aspect_ratios branches l
                   + ((i * Z.to_nat (feature_dims b).2 + j)
                      * (num_scales * length aspect_ratios)
                      + (s * length aspect_ratios + k)))%nat
       = Some [center_x; center_y; W; H]
    /\ (W * IZR (feature_dims b).2 = a * (H * IZR (feature_dims b).1))%R
    /\ ((W * IZR (feature_dims b).2) * (H * IZR (feature_dims b).1)
        = (scale * Rpower 2 (INR s / INR num_scales))
          * (scale * Rpower 2 (INR s / INR num_scales)))%R.
Proof.
  intros HH HW Hv Hl Hi Hj Hs Hk Ha.
  assert (Hvb : valid_branch b).
  { rewrite Forall_forall in Hv. apply Hv. by eapply list_elem_of_lookup_2. }
  destruct (feature_dims_valid b Hvb) as (_ & Hh & Hw).
  assert (Hb : branches <> []) by (intros ->; done).
  assert (Hn : (1 <= num_scales)%nat) by lia.
  assert (Har : aspect_ratios <> []) by (intros ->; done).
  eexists _, _, _, _, _.
  split; [by apply build_anchors_flat|].
  split; [by erewrite flat_anchors_lookup|].
  cbn [fst snd].
  rewrite half_width_cell, half_height_cell by done.
  unfold octave_of.
  assert (0 < IZR (feature_dims b).1)%R by (apply IZR_lt; lia).
  assert (0 < IZR (feature_dims b).2)%R by (apply IZR_lt; lia).
  pose proof (sqrt_lt_R0 a Ha) as Hsqrt.
  pose proof (sqrt_sqrt a ltac:(lra)) as Hsq.
  generalize dependent (sqrt a). intros q Hq Hqq.
  generalize (Rpower 2 (INR s / INR num_scales)) as e. intros e.
  split.
  - rewrite <- Hqq. field. repeat split; lra.
  - field. repeat split; lra.
Qed.

Lemma build_anchors_aspect_and_area_scenario :
  exists anchors center_x center_y W H,
    build_anchors [128; 128] [Branch [1; 16; 16; 64]] 3 [1; 2; / 2]%R 4%R
    = Ok anchors
    /\ anchors !! ((5 * 16 + 6) * 9 + (2 * 3 + 1))%nat
       = Some [center_x; center_y; W; H]
    /\ (W * 16 = 2 * (H * 16))%R
    /\ ((W * 16) * (H * 16)
        = (4 * Rpower 2 (INR 2 / INR 3)) * (4 * Rpower 2 (INR 2 / INR 3)))%R.
Proof.
  apply (build_anchors_aspect_and_area 128 128 [Branch [1; 16; 16; 64]] 3
           [1; 2; / 2]%R 4%R 0%nat (Branch [1; 16; 16; 64])
           5%nat 6%nat 2%nat 1%nat 2%R).
  - lia.
  - lia.
  - repeat constructor. exists 16, 16. repeat split; lia.
  - reflexivity.
  - simpl; lia.
  - simpl; lia.
  - lia.
  - reflexivity.
  - lra.
Defined.

(** ** The configuration arrays *)

Lemma length_build_octaves (num_scales : nat) (aspect_ratios : vector) :
  length (build_octaves num_scales aspect_ratios)
  = (num_scales * length aspect_ratios)%nat.
Proof.
  unfold build_octaves, np_repeat. rewrite length_map.
  rewrite (length_flat_map_uniform _ _ (length aspect_ratios)).
  - by rewrite length_seq.
  - intros. apply repeat_length.
Qed.

Lemma length_build_aspect (aspect_ratios : vector) (num_scales : nat) :
  length (build_aspect aspect_ratios num_scales)
  = (num_scales * length aspect_ratios)%nat.
Proof.
  unfold build_aspect, np_tile.
  rewrite <- (map_id (repeat aspect_ratios num_scales)).
  rewrite <- flat_map_concat_map.
  rewrite (length_flat_map_uniform _ _ (length aspect_ratios)).
  - by rewrite repeat_length.
  - intros x Hx. apply list_elem_of_In, repeat_spec in Hx. by subst.
Qed.

(** X4. The octave values all lie in [0, 1), whatever the number of
    scales and of aspect ratios: within a level the base size of an anchor
    varies by less than a factor 2. *)
Theorem build_octaves_range (num_scales : nat) (aspect_ratios : vector) :
  Forall (fun octave => (0 <= octave < 1)%R /\ (1 <= Rpower 2 octave < 2)%R)
         (build_octaves num_scales aspect_ratios).
Proof.
  apply Forall_forall. intros o Ho.
  unfold build_octaves, np_repeat in Ho.
  apply list_elem_of_In, in_map_iff in Ho as (k & <- & Hk).
  apply in_flat_map in Hk as (k' & Hk' & Hk).
  apply repeat_spec in Hk as ->. apply in_seq in Hk'.
  assert (Hn : (0 < INR num_scales)%R) by (apply lt_0_INR; lia).
  assert (Hlt : (INR k' < INR num_scales)%R) by (apply lt_INR; lia).
  pose proof (pos_INR k') as Hpos.
  assert (Hrange : (0 <= INR k' / INR num_scales < 1)%R).
  { split; [|apply Rdiv_lt_one; lra].
    apply Rmult_le_pos; [lra|]. left. by apply Rinv_0_lt_compat. }
  split; [done|]. split.
  - destruct Hrange as [[Hgt|Heq] _].
    + rewrite <- (Rpower_O 2) at 1 by lra. left. apply Rpower_lt; lra.
    + rewrite <- Heq, Rpower_O by lra. lra.
  - rewrite <- (Rpower_1 2) at 2 by lra. apply Rpower_lt; lra.
Qed.

(** X5. The arrays that [build_branch_boxes] zips have one entry per
    variant each: whenever [build_strides] returns, it returns two arrays
    of [num_scales * len(aspect_ratios)] strides, as many as there are
    octaves, aspects and scales, so that [zip] drops nothing. *)
Theorem configuration_arrays_aligned (branch_arg : nat) (image_shape : list Z)
    (branches : list branch) (num_scales : nat) (aspect_ratios : vector)
    (scale : R) (strides_y strides_x : vector) :
  let n := (num_scales * length aspect_ratios)%nat in
  build_strides branch_arg image_shape branches n = Ok (strides_y, strides_x) ->
  length strides_y = n /\ length strides_x = n
  /\ length (build_octaves num_scales aspect_ratios) = n
  /\ length (build_aspect aspect_ratios num_scales) = n
  /\ length (build_scales scale n) = n
  /\ length (zip5 strides_y strides_x
                  (build_octaves num_scales aspect_ratios)
                  (build_aspect aspect_ratios num_scales)
                  (build_scales scale n)) = n.
Proof.
  intros n. unfold build_strides.
  destruct (unpack2 image_shape) as [[h w]|e]; [|done].
  cbn [mbind result_bind].
  destruct (getitem branches branch_arg) as [b|e]; [|done].
  cbn [mbind result_bind].
  destruct (unpack2 (slice 1 3 (shape b))) as [[fh fw]|e]; [|done].
  cbn [mbind result_bind]. intros [= <- <-].
  unfold np_repeat_scalar. rewrite !map_repeat.
  pose proof (zip5_configurations
                (IZR h * / IZR fh)%R (IZR w * / IZR fw)%R scale num_scales
                aspect_ratios) as Hzip.
  cbv zeta in Hzip. unfold np_repeat_scalar in Hzip. fold n in Hzip.
  rewrite Hzip, length_map, length_variants.
  rewrite length_build_octaves, length_build_aspect.
  unfold build_scales, np_repeat_scalar. rewrite !repeat_length. done.
Qed.

Lemma configuration_arrays_aligned_scenario :
  length (zip5 (repeat (128 * / 16)%R 9) (repeat (128 * / 16)%R 9)
               (build_octaves 3 [1; 2; / 2]%R)
               (build_aspect [1; 2; / 2]%R 3)
               (build_scales 4%R 9)) = 9%nat.
Proof.
  destruct (configuration_arrays_aligned 0 [128; 128]
              [Branch [1; 16; 16; 64]] 3 [1; 2; / 2]%R 4%R
              (repeat (128 * / 16)%R 9) (repeat (128 * / 16)%R 9))
    as (_ & _ & _ & _ & _ & Hzip); [reflexivity|exact Hzip].
Defined.

(** ** More errors *)

Lemma for_each_raises {A B} (f : A -> result B) (l : list A) (e : exn) :
  for_each f l = Raise e -> exists a, a ∈ l /\ f a = Raise e.
Proof.
  induction l as [|a l IH]; simpl; [done|].
  destruct (f a) as [b|e'] eqn:Hf; cbn [mbind result_bind].
  - destruct (for_each f l) as [bs|e'] eqn:Hrest; cbn [mbind result_bind];
      [done|].
    intros [= ->]. destruct (IH eq_refl) as (a' & Ha' & Hfa').
    exists a'. split; [by constructor|done].
  - intros [= ->]. exists a. split; [constructor|done].
Qed.

Lemma for_each_raises_elem {A B} (f : A -> result B) (l : list A) (a : A)
    (e : exn) :
  a ∈ l -> f a = Raise e -> exists e', for_each f l = Raise e'.
Proof.
  induction 1 as [a l|a a' l Hin IH]; intros Hf; simpl.
  - rewrite Hf. by exists e.
  - destruct (f a') as [b|e']; cbn [mbind result_bind]; [|by exists e'].
    destruct (IH Hf) as (e' & ->). by exists e'.
Qed.

Lemma np_arange_raises (start stop step : R) (e : exn) :
  np_arange start stop step = Raise e -> e = "ValueError".
Proof. unfold np_arange. destruct (Req_dec_T step 0); by intros [= <-]. Qed.

Lemma compute_box_coordinates_raises image_shape sy sx o a s (e : exn) :
  compute_box_coordinates image_shape sy sx o a s = Raise e ->
  e = "ValueError".
Proof.
  unfold compute_box_coordinates.
  destruct (unpack2 image_shape) as [[W H]|e'] eqn:Himage;
    cbn [mbind result_bind].
  - destruct (np_arange _ _ sx) as [x|e'] eqn:Hx; cbn [mbind result_bind].
    + destruct (np_arange _ _ sy) as [y|e'] eqn:Hy; cbn [mbind result_bind].
      * by destruct (np_meshgrid x y).
      * intros [= <-]. by eapply np_arange_raises.
    + intros [= <-]. by eapply np_arange_raises.
  - intros [= <-]. by eapply unpack2_raises.
Qed.

Lemma np_concatenate_axis1_raises (arrays : list tensor3) (e : exn) :
  np_concatenate_axis1 arrays = Raise e -> e = "ValueError".
Proof.
  induction arrays as [|a rest IH]; [by intros [= <-]|].
  destruct rest as [|a' rest']; [done|].
  change (np_concatenate_axis1 (a :: a' :: rest'))
    with (r ← np_concatenate_axis1 (a' :: rest');
          if Nat.eqb (length a) (length r) then Ok (zip_with app a r)
          else Raise "ValueError").
  destruct (np_concatenate_axis1 (a' :: rest')) as [r|e'];
    cbn [mbind result_bind].
  - destruct (Nat.eqb _ _); [done|]. by intros [= <-].
  - intros [= <-]. by apply IH.
Qed.

Lemma build_branch_boxes_raises sy sx octave aspect scales image_shape
    (e : exn) :
  build_branch_boxes sy sx octave aspect scales image_shape = Raise e ->
  e = "ValueError".
Proof.
  unfold build_branch_boxes.
  destruct (for_each _ _) as [branch_boxes|e'] eqn:Hloop;
    cbn [mbind result_bind].
  - apply np_concatenate_axis1_raises.
  - intros [= <-]. apply for_each_raises in Hloop
      as ([[[[y x] o] a] s] & _ & Hraise).
    destruct (compute_box_coordinates _ _ _ _ _ _) as [boxes|e''] eqn:Hboxes;
      [done|].
    cbn [mbind result_bind] in Hraise. injection Hraise as <-.
    by eapply compute_box_coordinates_raises.
Qed.

Lemma build_anchors_level_raises_ValueError image_shape branches num_scales
    aspect_ratios scale n (branch_arg : nat) (e : exn) :
  (branch_arg < length branches)%nat ->
  build_anchors_level image_shape branches num_scales aspect_ratios scale n
                      branch_arg = Raise e ->
  e = "ValueError".
Proof.
  intros Hlt. unfold build_anchors_level, build_strides.
  destruct (unpack2 image_shape) as [[h w]|e'] eqn:Himage;
    cbn [mbind result_bind]; [|intros [= <-]; by eapply unpack2_raises].
  destruct (lookup_lt_is_Some_2 branches branch_arg Hlt) as [b Hb].
  rewrite (getitem_lookup _ _ _ Hb). cbn [mbind result_bind].
  destruct (unpack2 (slice 1 3 (shape b))) as [[fh fw]|e'] eqn:Hshape;
    cbn [mbind result_bind]; [|intros [= <-]; by eapply unpack2_raises].
  destruct (build_branch_boxes _ _ _ _ _ _) as [t|e'] eqn:Ht;
    cbn [mbind result_bind]; [done|].
  intros [= <-]. by eapply build_branch_boxes_raises.
Qed.

(** X6. Without scales there are no anchors to concatenate: with
    [num_scales = 0] the call raises a ValueError, whatever the other
    arguments are. *)
Theorem build_anchors_no_scales (image_shape : list Z)
    (branches : list branch) (aspect_ratios : vector) (scale : R) :
  build_anchors image_shape branches 0 aspect_ratios scale
  = Raise "ValueError".
Proof.
  unfold build_anchors, build_anchor_boxes.
  destruct branches as [|b bs]; [reflexivity|].
  cbn [length seq for_each].
  destruct (build_anchors_level image_shape (b :: bs) 0 aspect_ratios scale
              (0 * length aspect_ratios) 0) as [m|e] eqn:Hlevel.
  - exfalso. revert Hlevel. unfold build_anchors_level, build_strides.
    destruct (unpack2 image_shape) as [[h w]|e]; [|done].
    cbn [mbind result_bind]. unfold getitem. simpl lookup.
    cbn [mbind result_bind].
    destruct (unpack2 (slice 1 3 (shape b))) as [[fh fw]|e]; [|done].
    cbn [mbind result_bind]. simpl. done.
  - apply build_anchors_level_raises_ValueError in Hlevel as ->;
      [reflexivity|simpl; lia].
Qed.

(** X7. One branch whose shape has no feature height and width at
    indices 1:3 makes the whole call fail with a ValueError: no anchors of
    the other branches are returned. *)
Theorem build_anchors_malformed_branch (image_shape : list Z)
    (branches : list branch) (num_scales : nat) (aspect_ratios : vector)
    (scale : R) (b : branch) :
  b ∈ branches -> length (slice 1 3 (shape b)) <> 2%nat ->
  build_anchors image_shape branches num_scales aspect_ratios scale
  = Raise "ValueError".
Proof.
  intros Hb Hshape. unfold build_anchors, build_anchor_boxes.
  apply list_elem_of_lookup in Hb as (i & Hi).
  assert (Hi' : (i < length branches)%nat) by by eapply lookup_lt_Some.
  set (level := build_anchors_level image_shape branches num_scales
                  aspect_ratios scale (num_scales * length aspect_ratios)).
  assert (Hraise : exists e, level i = Raise e).
  { unfold level, build_anchors_level, build_strides.
    destruct (unpack2 image_shape) as [[h w]|e]; [|by exists e].
    cbn [mbind result_bind]. rewrite (getitem_lookup _ _ _ Hi).
    cbn [mbind result_bind].
    destruct (slice 1 3 (shape b)) as [|? [|? [|? ?]]]; simpl in *;
      try lia; by eexists. }
  destruct Hraise as (e & Hraise).
  destruct (for_each_raises_elem level (seq 0 (length branches)) i e)
    as (e' & Hloop); [apply elem_of_seq; lia|done|].
  rewrite Hloop. cbn [mbind result_bind].
  apply for_each_raises in Hloop as (i' & Hin & Hlevel).
  apply elem_of_seq in Hin.
  apply build_anchors_level_raises_ValueError in Hlevel as ->;
    [reflexivity|lia].
Qed.

Lemma build_anchors_malformed_branch_second :
  build_anchors [128; 128] [Branch [1; 16; 16; 64]; Branch [1; 8]] 3
                [1; 2; / 2]%R 4%R
  = Raise "ValueError".
Proof.
  apply (build_anchors_malformed_branch [128; 128]
           [Branch [1; 16; 16; 64]; Branch [1; 8]] 3 [1; 2; / 2]%R 4%R
           (Branch [1; 8])).
  - apply list_elem_of_In. right. left. reflexivity.
  - simpl. lia.
Defined.

(** ** Branches *)

Lemma for_each_ext_elem {A B} (f g : A -> result B) (l : list A) :
  (forall a, a ∈ l -> f a = g a) -> for_each f l = for_each g l.
Proof.
  induction l as [|a l IH]; intros Hfg; simpl; [done|].
  rewrite Hfg by constructor. rewrite IH; [done|].
  intros; apply Hfg. by constructor.
Qed.

(** X8. Of a branch only the feature height and width are read: two
    lists of branches whose shapes agree at indices 1:3 give the same
    result, anchors or exception. *)
Theorem build_anchors_reads_feature_shape (image_shape : list Z)
    (branches branches' : list branch) (num_scales : nat)
    (aspect_ratios : vector) (scale : R) :
  map (fun b => slice 1 3 (shape b)) branches
  = map (fun b => slice 1 3 (shape b)) branches' ->
  build_anchors image_shape branches num_scales aspect_ratios scale
  = build_anchors image_shape branches' num_scales aspect_ratios scale.
Proof.
  intros Hsame. unfold build_anchors, build_anchor_boxes.
  assert (Hlen : length branches = length branches').
  { apply (f_equal length) in Hsame. by rewrite !length_map in Hsame. }
  rewrite Hlen. do 2 f_equal.
  apply for_each_ext_elem. intros i _.
  unfold build_anchors_level. f_equal. unfold build_strides.
  destruct (unpack2 image_shape) as [[h w]|e]; [|done].
  cbn [mbind result_bind]. unfold getitem.
  apply (f_equal (fun l => l !! i)) in Hsame. rewrite !lookup_map in Hsame.
  destruct (branches !! i) as [b|], (branches' !! i) as [b'|];
    simpl in Hsame; try done.
  cbn [mbind result_bind]. by injection Hsame as ->.
Qed.

Lemma build_anchors_reads_feature_shape_scenario :
  build_anchors [128; 128] [Branch [1; 16; 16; 64]] 3 [1; 2; / 2]%R 4%R
  = build_anchors [128; 128] [Branch [8; 16; 16; 3; 7]] 3 [1; 2; / 2]%R 4%R.
Proof.
  apply build_anchors_reads_feature_shape. reflexivity.
Defined.

(** ** Boxes beyond the image *)

(** X9. Anchors are not clipped to the image: when
    [scale * sqrt(a) > 1] for the first aspect ratio [a], the first anchor
    returned starts left of the image, its center_x - width/2 being
    negative. *)
Theorem build_anchors_first_anchor_overhangs (image_H image_W : Z)
    (b : branch) (branches : list branch) (num_scales : nat) (a : R)
    (aspect_ratios : vector) (scale : R) :
  0 < image_H -> 0 < image_W ->
  Forall valid_branch (b :: branches) -> (1 <= num_scales)%nat ->
  (1 < scale * sqrt a)%R ->
  exists anchors center_x center_y W H,
    build_anchors [image_H; image_W] (b :: branches) num_scales
                  (a :: aspect_ratios) scale = Ok anchors
    /\ anchors !! 0%nat = Some [center_x; center_y; W; H]
    /\ (center_x - W / 2 < 0)%R.
Proof.
  intros HH HW Hv Hn Hbig.
  assert (Hvb : valid_branch b) by by inversion Hv.
  destruct (feature_dims_valid b Hvb) as (_ & Hh & Hw).
  eexists _, _, _, _, _.
  split; [by apply build_anchors_flat|]. split.
  - apply (flat_anchors_lookup image_H image_W (b :: branches) num_scales
             (a :: aspect_ratios) scale _ 0 b 0 0 0 0 a);
      try done; lia.
  - cbn [fst snd].
    rewrite center_x_of_cell, half_width_cell by done.
    unfold octave_of.
    replace (INR 0 / INR num_scales)%R with 0%R by (simpl; lra).
    rewrite Rpower_O by lra.
    assert (Hpos : (0 < IZR (feature_dims b).2)%R) by (apply IZR_lt; lia).
    replace ((INR 0 + / 2) / IZR (feature_dims b).2
             - 2 * (scale * 1 * sqrt a / (2 * IZR (feature_dims b).2)) / 2)%R
      with ((1 - scale * sqrt a) * / (2 * IZR (feature_dims b).2))%R
      by (simpl; field; lra).
    assert (0 < / (2 * IZR (feature_dims b).2))%R
      by (apply Rinv_0_lt_compat; lra).
    nra.
Qed.

Lemma build_anchors_first_anchor_overhangs_scenario :
  exists anchors center_x center_y W H,
    build_anchors [128; 128] [Branch [1; 16; 16; 64]] 3 [1; 2; / 2]%R 4%R
    = Ok anchors
    /\ anchors !! 0%nat = Some [center_x; center_y; W; H]
    /\ (center_x - W / 2 < 0)%R.
Proof.
  apply (build_anchors_first_anchor_overhangs 128 128
           (Branch [1; 16; 16; 64]) [] 3 1%R [2; / 2]%R 4%R).
  - lia.
  - lia.
  - repeat constructor. exists 16, 16. repeat split; lia.
  - lia.
  - rewrite sqrt_1. lra.
Defined.

(** * Further properties of the shapes loader *)

(** ** The occlusion loops as an operation on masks *)

Lemma length_resolve_pair_pixel (i j : nat) (pixel : list Z) :
  length (resolve_pair_pixel i j pixel) = length pixel.
Proof. unfold resolve_pair_pixel. apply length_insert. Qed.

Lemma length_foldl_pixel {J} (f : J -> list Z -> list Z) (js : list J)
    (pixel : list Z) :
  (forall j p, length (f j p) = length p) ->
  length (foldl (fun p j => f j p) pixel js) = length pixel.
Proof.
  intros Hf. revert pixel. induction js as [|j js IH]; intros pixel; simpl;
    [done|].
  by rewrite IH, Hf.
Qed.

Lemma length_resolve_pixel (n : nat) (pixel : list Z) :
  length (resolve_pixel n pixel) = length pixel.
Proof.
  unfold resolve_pixel.
  apply (length_foldl_pixel
           (fun i p => foldl (fun p j => resolve_pair_pixel i j p) p
                             (seq (i + 1) (n - (i + 1))))).
  intros i p. apply (length_foldl_pixel (resolve_pair_pixel i)).
  intros j q. apply length_resolve_pair_pixel.
Qed.

(** Channels from [n] on are not touched. *)
Lemma resolve_pixel_beyond (n i : nat) (pixel : list Z) :
  (n <= i)%nat -> nth i (resolve_pixel n pixel) 0 = nth i pixel 0.
Proof.
  intros Hi. unfold resolve_pixel.
  assert (Hgen : forall ks p,
            Forall (fun k => k <> i) ks ->
            nth i (foldl (fun p k =>
                            foldl (fun p j => resolve_pair_pixel k j p) p
                                  (seq (k + 1) (n - (k + 1)))) p ks) 0
            = nth i p 0).
  { induction ks as [|k ks IH]; intros p Hks; simpl; [done|].
    inversion Hks as [|? ? Hk Hks']; subst.
    rewrite IH by done.
    destruct (inner_loop_value n k p) as [_ Hother]. by apply Hother. }
  apply Hgen. apply Forall_forall. intros k Hk. apply elem_of_seq in Hk. lia.
Qed.

Lemma resolved_value_resolved (n i : nat) (pixel : list Z) :
  (i < n)%nat ->
  resolved_value n (resolve_pixel n pixel) i = resolved_value n pixel i.
Proof.
  intros Hi. unfold resolved_value at 1.
  rewrite resolve_pixel_value by done.
  destruct (Nat.ltb_spec (S i) n) as [Hlast|Hlast].
  - unfold resolved_value. destruct (Nat.ltb_spec (S i) n); [|lia].
    f_equal. unfold on_top at 1. rewrite resolve_pixel_value by done.
    unfold resolved_value. destruct (Nat.ltb_spec (S i) n); [|lia].
    rewrite truth_b2z. destruct (on_top n pixel i) eqn:Htop; [|done].
    simpl. apply forallb_forall. intros j Hj. apply in_seq in Hj.
    rewrite resolve_pixel_value by lia. apply negb_true_iff.
    pose proof (on_top_later_off n pixel i j ltac:(lia) Htop) as Hoff.
    unfold resolved_value, on_top. rewrite Hoff.
    by destruct (S j <? n)%nat.
  - unfold resolved_value. destruct (Nat.ltb_spec (S i) n); [lia|done].
Qed.

Lemma resolve_pixel_idempotent (n : nat) (pixel : list Z) :
  resolve_pixel n (resolve_pixel n pixel) = resolve_pixel n pixel.
Proof.
  apply (nth_ext _ _ 0 0); [by rewrite !length_resolve_pixel|].
  intros i _. destruct (decide (i < n)%nat) as [Hi|Hi].
  - rewrite (resolve_pixel_value n i (resolve_pixel n pixel)) by done.
    rewrite resolved_value_resolved by done.
    by rewrite resolve_pixel_value.
  - by rewrite resolve_pixel_beyond by lia.
Qed.

(** X10. Resolving occlusions a second time changes nothing: the loops
    of [_draw_masks] are idempotent on every array of masks. *)
Theorem resolve_occlusions_idempotent (n : nat) (masks : image) :
  resolve_occlusions n (resolve_occlusions n masks)
  = resolve_occlusions n masks.
Proof.
  rewrite !resolve_occlusions_pixelwise, map_map.
  apply map_ext. intros row. rewrite map_map.
  apply map_ext. intros pixel. apply resolve_pixel_idempotent.
Qed.

(** The last channel below [n] that covers a pixel. *)
Lemma last_covering_channel (n : nat) (pixel : list Z) :
  (exists i, (i < n)%nat /\ nth i pixel 0 <> 0) ->
  exists j, (j < n)%nat /\ nth j pixel 0 <> 0
            /\ forall k, (j < k < n)%nat -> nth k pixel 0 = 0.
Proof.
  induction n as [|n IH]; intros (i & Hi & Hcov); [lia|].
  destruct (decide (nth n pixel 0 = 0)) as [Hn|Hn].
  - destruct (decide (i = n)) as [->|Hne]; [done|].
    destruct IH as (j & Hj & Hcovj & Hlast); [exists i; split; [lia|done]|].
    exists j. split; [lia|]. split; [done|].
    intros k Hk. destruct (decide (k = n)) as [->|]; [done|].
    apply Hlast. lia.
  - exists n. split; [lia|]. split; [done|]. intros k Hk. lia.
Qed.

(** X11. The occlusion loops lose no pixel and share none: a pixel that
    is nonzero in some of the [n] channels is, afterwards, nonzero in
    exactly one of them. *)
Theorem resolve_occlusions_partition (n : nat) (masks : image) (y x : nat)
    (row : list (list Z)) (pixel : list Z) :
  masks !! y = Some row -> row !! x = Some pixel ->
  (exists i, (i < n)%nat /\ nth i pixel 0 <> 0) ->
  exists row' pixel' j,
    resolve_occlusions n masks !! y = Some row' /\ row' !! x = Some pixel'
    /\ (j < n)%nat /\ nth j pixel' 0 <> 0
    /\ forall k, (k < n)%nat -> nth k pixel' 0 <> 0 -> k = j.
Proof.
  intros Hrow Hpixel Hcov.
  destruct (last_covering_channel n pixel Hcov) as (j & Hj & Hcovj & Hlast).
  exists (map (resolve_pixel n) row), (resolve_pixel n pixel), j.
  rewrite resolve_occlusions_pixelwise, lookup_map, Hrow.
  split; [done|]. rewrite lookup_map, Hpixel. split; [done|].
  split; [done|]. split; [by apply resolve_pixel_top|].
  intros k Hk Hnz. destruct (decide (k = j)) as [|Hne]; [done|].
  exfalso. pose proof (resolve_pixel_top n pixel j Hj Hcovj Hlast) as Htop.
  destruct (decide (k < j)%nat).
  - by apply (resolve_pixel_disjoint n pixel k j ltac:(lia)).
  - by apply (resolve_pixel_disjoint n pixel j k ltac:(lia)).
Qed.

Lemma resolve_occlusions_partition_overlap :
  exists row' pixel' j,
    resolve_occlusions 3 [[[1; 1; 0]; [0; 1; 1]]] !! 0%nat = Some row'
    /\ row' !! 1%nat = Some pixel'
    /\ (j < 3)%nat /\ nth j pixel' 0 <> 0
    /\ forall k, (k < 3)%nat -> nth k pixel' 0 <> 0 -> k = j.
Proof.
  apply (resolve_occlusions_partition 3 [[[1; 1; 0]; [0; 1; 1]]] 0 1
           [[1; 1; 0]; [0; 1; 1]] [0; 1; 1]).
  - reflexivity.
  - reflexivity.
  - exists 1%nat. split; [lia|]. simpl. lia.
Defined.

(** ** Bounding boxes *)

(** X12. The bounding box of every shape that can be sampled is a square
    of side [2 * size], between 40 and [2 * (H // 4)].  The margin of 20
    keeps the centers on the canvas, not the shapes: a box may overhang
    each side of the canvas by up to [H // 4 - 20] pixels. *)
Theorem sampled_boxes_extent (self : Shapes) (num_shapes H W offset : Z)
    (shapes : list shape_descriptor) :
  Ok shapes ∈ outcomes (_sample_shapes self num_shapes H W offset) ->
  Forall (fun box => exists x_min y_min x_max y_max,
            box = [x_min; y_min; x_max; y_max]
            /\ x_max - x_min = y_max - y_min
            /\ 40 <= x_max - x_min <= 2 * (H / 4)
            /\ - (H / 4 - 20) <= x_min /\ x_max <= W - 1 + (H / 4 - 20)
            /\ - (H / 4 - 20) <= y_min /\ y_max <= H - 1 + (H / 4 - 20))
         (_compute_bounding_boxes shapes).
Proof.
  intros Hshapes. apply sample_shapes_outcomes in Hshapes as [_ Hpossible].
  unfold _compute_bounding_boxes. apply Forall_forall. intros box Hbox.
  apply list_elem_of_In, in_map_iff in Hbox as (s & <- & Hs).
  rewrite Forall_forall in Hpossible.
  specialize (Hpossible s ltac:(by apply list_elem_of_In)).
  destruct s as [[shape [[c1 c2] c3]] [[center_x center_y] size]].
  unfold possible_shape in Hpossible. simpl.
  eexists _, _, _, _. split; [done|]. lia.
Qed.

Lemma sampled_boxes_extent_nested_squares :
  Forall (fun box => exists x_min y_min x_max y_max,
            box = [x_min; y_min; x_max; y_max]
            /\ x_max - x_min = y_max - y_min
            /\ 40 <= x_max - x_min <= 2 * (160 / 4)
            /\ - (160 / 4 - 20) <= x_min /\ x_max <= 160 - 1 + (160 / 4 - 20)
            /\ - (160 / 4 - 20) <= y_min /\ y_max <= 160 - 1 + (160 / 4 - 20))
         (_compute_bounding_boxes nested_squares).
Proof.
  apply (sampled_boxes_extent example_loader 4 160 160 20).
  exact nested_squares_possible.
Defined.

(** X13. Shapes do leave the canvas: on a canvas with [H // 4 > 20] and
    room for a center, [_sample_shapes] can draw a shape whose bounding
    box starts at a negative x and a negative y. *)
Theorem sampled_box_can_overhang (self : Shapes) (num_shapes H W offset : Z)
    (name : string) :
  21 <= H / 4 -> 41 <= W -> 1 <= num_shapes ->
  name ∈ drop 1 (class_names self) ->
  exists shapes x_min y_min x_max y_max,
    Ok shapes ∈ outcomes (_sample_shapes self num_shapes H W offset)
    /\ _compute_bounding_boxes shapes = [[x_min; y_min; x_max; y_max]]
    /\ x_min < 0 /\ y_min < 0.
Proof.
  intros HH HW Hn Hname.
  exists [(name, (0, 0, 0), (20, 20, 21))], (-1), (-1), 41, 41.
  split; [|done].
  apply sample_shapes_outcomes. split; [simpl; lia|].
  constructor; [|constructor]. unfold possible_shape.
  assert (84 <= H) by (pose proof (Z.mul_div_le H 4); lia).
  repeat split; try done; lia.
Qed.

Lemma sampled_box_can_overhang_example :
  exists shapes x_min y_min x_max y_max,
    Ok shapes ∈ outcomes (_sample_shapes example_loader 4 160 160 20)
    /\ _compute_bounding_boxes shapes = [[x_min; y_min; x_max; y_max]]
    /\ x_min < 0 /\ y_min < 0.
Proof.
  apply (sampled_box_can_overhang example_loader 4 160 160 20 "circle").
  - vm_compute. congruence.
  - lia.
  - lia.
  - apply list_elem_of_In. right. left. reflexivity.
Defined.

(** ** Pairs of shapes and boxes *)

Lemma getitem_lookup_None {A} (l : list A) (i : nat) :
  l !! i = None -> getitem l i = Raise "IndexError".
Proof. unfold getitem. by intros ->. Qed.

Lemma for_each_getitem_map {A B} (f : A -> B) (l : list A)
    (indices : list nat) (xs : list A) (ys : list B) :
  for_each (getitem l) indices = Ok xs ->
  for_each (getitem (map f l)) indices = Ok ys ->
  ys = map f xs /\ Forall (fun x => x ∈ l) xs.
Proof.
  revert xs ys. induction indices as [|i indices IH]; intros xs ys;
    cbn [for_each].
  - intros [= <-] [= <-]. done.
  - intros Hxs Hys. destruct (l !! i) as [x|] eqn:Hx.
    + assert (Hfx : map f l !! i = Some (f x)) by by rewrite lookup_map, Hx.
      rewrite (getitem_lookup _ _ _ Hx) in Hxs.
      rewrite (getitem_lookup _ _ _ Hfx) in Hys.
      cbn [mbind result_bind] in Hxs, Hys.
      destruct (for_each (getitem l) indices) as [xs'|e]; [|done].
      destruct (for_each (getitem (map f l)) indices) as [ys'|e]; [|done].
      cbn [mbind result_bind] in Hxs, Hys.
      injection Hxs as <-. injection Hys as <-.
      destruct (IH xs' ys' eq_refl eq_refl) as [-> Hin].
      split; [done|]. constructor; [by eapply list_elem_of_lookup_2|done].
    + by rewrite (getitem_lookup_None _ _ Hx) in Hxs.
Qed.

Lemma filter_shapes_keeps_pairs_aux (shapes selected : list shape_descriptor)
    (boxes : list (list Z)) (iou_thresh : Q) :
  _filter_shapes (_compute_bounding_boxes shapes) shapes iou_thresh
  = Ok (selected, boxes) ->
  boxes = _compute_bounding_boxes selected
  /\ Forall (fun s => s ∈ shapes) selected.
Proof.
  unfold _filter_shapes.
  destruct (apply_non_max_suppression _ _ _) as [args num_boxes].
  destruct (for_each (getitem shapes) _) as [sel|e] eqn:Hsel; [|done].
  cbn [mbind result_bind].
  destruct (for_each (getitem (_compute_bounding_boxes shapes)) _)
    as [bxs|e] eqn:Hbxs; [|done].
  cbn [mbind result_bind]. intros [= <- <-].
  unfold _compute_bounding_boxes in *.
  by eapply for_each_getitem_map.
Qed.

(** X14. [_filter_shapes] keeps shapes and boxes in step: the boxes it
    returns are the bounding boxes of the shapes it returns, in the same
    order, and every shape it returns is one it was given. *)
Theorem filter_shapes_keeps_pairs (shapes selected : list shape_descriptor)
    (boxes : list (list Z)) (iou_thresh : Q) :
  _filter_shapes (_compute_bounding_boxes shapes) shapes iou_thresh
  = Ok (selected, boxes) ->
  boxes = _compute_bounding_boxes selected
  /\ Forall (fun s => s ∈ shapes) selected.
Proof. apply filter_shapes_keeps_pairs_aux. Qed.

Lemma filter_shapes_keeps_pairs_nested_squares :
  [[40; 40; 80; 80]; [40; 40; 120; 120]; [80; 80; 120; 120]]
  = _compute_bounding_boxes nested_squares
  /\ Forall (fun s => s ∈ nested_squares) nested_squares.
Proof.
  apply (filter_shapes_keeps_pairs nested_squares nested_squares
           [[40; 40; 80; 80]; [40; 40; 120; 120]; [80; 80; 120; 120]]
           (3 # 10)%Q).
  vm_compute. reflexivity.
Defined.

(** ** Class indices *)

Lemma dict_zip_snoc {V} (keys : list string) (values : list V) (k : string)
    (v : V) :
  length keys = length values ->
  dict_zip (keys ++ [k]) (values ++ [v]) = <[k := v]> (dict_zip keys values).
Proof.
  intros Hlen. unfold dict_zip.
  rewrite zip_with_app by done. simpl.
  by rewrite reverse_snoc, list_to_map_cons.
Qed.

(** Looking a name up gives the last position at which it occurs. *)
Lemma dict_zip_seq_lookup (keys : list string) (k : string) (i : nat) :
  dict_zip keys (seq 0 (length keys)) !! k = Some i
  <-> keys !! i = Some k /\ forall j, (i < j)%nat -> keys !! j <> Some k.
Proof.
  revert i. induction keys as [|x keys IH] using rev_ind; intros i.
  - unfold dict_zip. simpl. rewrite lookup_empty. split; [done|].
    by intros [? _].
  - rewrite length_app. simpl. rewrite seq_app. simpl.
    rewrite dict_zip_snoc by by rewrite length_seq.
    destruct (decide (x = k)) as [->|Hne].
    + rewrite lookup_insert_eq. split.
      * intros [= <-]. split.
        -- rewrite lookup_app_r by lia. by rewrite Nat.sub_diag.
        -- intros j Hj. rewrite lookup_ge_None_2; [done|].
           rewrite length_app. simpl. lia.
      * intros [Hi Hlast]. f_equal.
        apply lookup_lt_Some in Hi as Hlt. rewrite length_app in Hlt.
        simpl in Hlt. destruct (decide (i = length keys)) as [|Hi']; [done|].
        exfalso. apply (Hlast (length keys)); [lia|].
        rewrite lookup_app_r by lia. by rewrite Nat.sub_diag.
    + rewrite lookup_insert_ne by done. rewrite IH. split.
      * intros [Hi Hlast]. split; [by apply lookup_app_l_Some|].
        intros j Hj. destruct (decide (j < length keys)%nat).
        -- rewrite lookup_app_l by done. by apply Hlast.
        -- destruct (decide (j = length keys)) as [->|].
           ++ rewrite lookup_app_r by lia. rewrite Nat.sub_diag. simpl.
              congruence.
           ++ rewrite lookup_ge_None_2; [done|].
              rewrite length_app. simpl. lia.
      * intros [Hi Hlast].
        assert (Hlt : (i < length keys)%nat).
        { apply lookup_lt_Some in Hi as Hlt. rewrite length_app in Hlt.
          simpl in Hlt. destruct (decide (i = length keys)) as [->|]; [|lia].
          rewrite lookup_app_r in Hi by lia. rewrite Nat.sub_diag in Hi.
          simpl in Hi. congruence. }
        rewrite lookup_app_l in Hi by done. split; [done|].
        intros j Hj Hkj. apply (Hlast j Hj).
        by apply lookup_app_l_Some.
Qed.

Lemma dict_zip_seq_is_Some (keys : list string) (k : string) :
  k ∈ keys -> is_Some (dict_zip keys (seq 0 (length keys)) !! k).
Proof.
  intros Hk. unfold dict_zip.
  destruct (list_to_map _ !! k) eqn:Hnone; [done|].
  apply not_elem_of_list_to_map in Hnone. exfalso. apply Hnone.
  rewrite fmap_reverse, elem_of_reverse, fst_zip; [done|].
  by rewrite length_seq.
Qed.

(** X15. [Shapes.__init__] maps every class name to its position in
    [class_names]; a name that occurs more than once is mapped to its last
    position. *)
Theorem name_to_arg_is_last_position (num_samples : nat) (image_size : Z * Z)
    (class_names_arg : option (list string)) (iou_thresh : Q)
    (max_num_shapes : Z) (name : string) (i : nat) :
  let self := Shapes_init num_samples image_size class_names_arg iou_thresh
                          max_num_shapes in
  name_to_arg self !! name = Some i
  <-> class_names self !! i = Some name
      /\ forall j, (i < j)%nat -> class_names self !! j <> Some name.
Proof. intros self. apply dict_zip_seq_lookup. Qed.

(** X16. For class names without repetition the dictionary inverts the
    list: [name_to_arg[class_names[i]] = i], and a name that is not a
    class name is not a key. *)
Theorem name_to_arg_round_trip (num_samples : nat) (image_size : Z * Z)
    (class_names_arg : option (list string)) (iou_thresh : Q)
    (max_num_shapes : Z) :
  let self := Shapes_init num_samples image_size class_names_arg iou_thresh
                          max_num_shapes in
  NoDup (class_names self) ->
  (forall i name, class_names self !! i = Some name ->
                  dict_getitem (name_to_arg self) name = Ok i)
  /\ (forall name, name ∉ class_names self ->
                   dict_getitem (name_to_arg self) name = Raise "KeyError").
Proof.
  intros self Hnodup. split.
  - intros i name Hi. unfold dict_getitem.
    assert (Hsome : name_to_arg self !! name = Some i); [|by rewrite Hsome].
    apply dict_zip_seq_lookup. split; [done|].
    intros j Hj Hname. pose proof (NoDup_lookup _ _ _ _ Hnodup Hi Hname). lia.
  - intros name Hname. unfold dict_getitem.
    destruct (name_to_arg self !! name) as [i|] eqn:Hi; [|done].
    apply dict_zip_seq_lookup in Hi as [Hi _].
    exfalso. apply Hname. by eapply list_elem_of_lookup_2.
Qed.

Lemma name_to_arg_round_trip_default :
  (forall i name, class_names example_loader !! i = Some name ->
                  dict_getitem (name_to_arg example_loader) name = Ok i)
  /\ (forall name, name ∉ class_names example_loader ->
                   dict_getitem (name_to_arg example_loader) name
                   = Raise "KeyError").
Proof.
  apply (name_to_arg_round_trip 1 (160, 160) None (3 # 10)%Q 4).
  simpl. repeat constructor; rewrite ?list_elem_of_In; simpl;
    intuition discriminate.
Defined.

(** ** Rows of a sample *)

Lemma for_each_Forall2 {A B} (f : A -> result B) (l : list A) (bs : list B) :
  for_each f l = Ok bs -> Forall2 (fun a b => f a = Ok b) l bs.
Proof.
  revert bs. induction l as [|a l IH]; simpl; intros bs Hrun.
  - injection Hrun as <-. constructor.
  - destruct (f a) as [b|e] eqn:Hb; [|done]. cbn [mbind result_bind] in Hrun.
    destruct (for_each f l) as [bs'|e]; [|done].
    cbn [mbind result_bind] in Hrun. injection Hrun as <-.
    constructor; [done|by apply IH].
Qed.

Section Rows.
Context `{Rasterizer}.

Lemma load_sample_rows_inv (self : Shapes) (s : sample) :
  Ok s ∈ outcomes (load_sample self) ->
  exists shapes selected class_args,
    Ok shapes ∈ outcomes (_sample_shapes self (max_num_shapes self)
                            (image_size self).1 (image_size self).2 20)
    /\ Forall (fun s => s ∈ shapes) selected
    /\ _draw_masks self selected = Ok (sample_masks s)
    /\ Forall2 (fun shape arg =>
                  dict_getitem (name_to_arg self) shape.1.1 = Ok arg)
               selected class_args
    /\ sample_box_data s
       = zip_with (fun box arg => box ++ [Z.of_nat arg])
                  (_compute_bounding_boxes selected) class_args.
Proof.
  unfold load_sample. destruct (image_size self) as [height width].
  intros Hs.
  apply Ok_elem_of_bind in Hs as (shapes & Hshapes & Hs).
  apply Ok_elem_of_bind in Hs as ([selected boxes] & Hfilter & Hs).
  apply Ok_elem_of_lift in Hfilter.
  apply filter_shapes_keeps_pairs_aux in Hfilter as [-> Hsub].
  apply Ok_elem_of_bind in Hs as (img & _ & Hs).
  apply Ok_elem_of_bind in Hs as (masks & Hmasks & Hs).
  apply Ok_elem_of_lift in Hmasks.
  apply Ok_elem_of_bind in Hs as (class_args & Hargs & Hs).
  apply Ok_elem_of_lift in Hargs.
  apply Ok_elem_of_bind in Hs as (box_data & Hdata & Hs).
  apply Ok_elem_of_lift in Hdata.
  apply Ok_elem_of_mret in Hs as ->. cbn [sample_masks sample_box_data].
  exists shapes, selected, class_args.
  split; [done|]. split; [done|]. split; [done|].
  split; [by apply for_each_Forall2 in Hargs|].
  destruct (Nat.eqb _ _); [|done]. injection Hdata as <-.
  generalize (_compute_bounding_boxes selected) as boxes.
  clear. induction class_args as [|arg class_args IH]; intros [|box boxes];
    simpl; try done.
  by rewrite IH.
Qed.

(** X17. Every sample comes from shapes that [_sample_shapes] drew and
    [_filter_shapes] kept, and row [i] of its box_data describes the shape
    drawn into mask channel [i]: it is the bounding box of the [i]-th shape
    that passed the filter, followed by the class index of its name, and
    the masks are drawn from the same shapes in the same order. *)
Theorem load_sample_rows_match_channels (self : Shapes) (s : sample) :
  Ok s ∈ outcomes (load_sample self) ->
  exists shapes selected boxes class_args,
    Ok shapes ∈ outcomes (_sample_shapes self (max_num_shapes self)
                            (image_size self).1 (image_size self).2 20)
    /\ _filter_shapes (_compute_bounding_boxes shapes) shapes (iou_thresh self)
       = Ok (selected, boxes)
    /\ boxes = _compute_bounding_boxes selected
    /\ _draw_masks self selected = Ok (sample_masks s)
    /\ Forall2 (fun shape arg =>
                  dict_getitem (name_to_arg self) shape.1.1 = Ok arg)
               selected class_args
    /\ sample_box_data s
       = zip_with (fun box arg => box ++ [Z.of_nat arg]) boxes class_args.
Proof.
  unfold load_sample. destruct (image_size self) as [height width].
  intros Hs.
  apply Ok_elem_of_bind in Hs as (shapes & Hshapes & Hs).
  apply Ok_elem_of_bind in Hs as ([selected boxes] & Hfilter & Hs).
  apply Ok_elem_of_lift in Hfilter.
  pose proof (filter_shapes_keeps_pairs_aux _ _ _ _ Hfilter) as [Hboxes _].
  apply Ok_elem_of_bind in Hs as (img & _ & Hs).
  apply Ok_elem_of_bind in Hs as (masks & Hmasks & Hs).
  apply Ok_elem_of_lift in Hmasks.
  apply Ok_elem_of_bind in Hs as (class_args & Hargs & Hs).
  apply Ok_elem_of_lift in Hargs.
  apply Ok_elem_of_bind in Hs as (box_data & Hdata & Hs).
  apply Ok_elem_of_lift in Hdata.
  apply Ok_elem_of_mret in Hs as ->. cbn [sample_masks sample_box_data].
  exists shapes, selected, boxes, class_args.
  split; [done|]. split; [done|]. split; [done|]. split; [done|].
  split; [by apply for_each_Forall2 in Hargs|].
  destruct (Nat.eqb _ _); [|done]. injection Hdata as <-.
  clear. revert boxes.
  induction class_args as [|arg class_args IH]; intros [|box boxes];
    simpl; try done.
  by rewrite IH.
Qed.

(** X18. A sample exists only on a feasible configuration: when
    [load_sample] produces a sample the canvas is at least 80 high and 41
    wide, [max_num_shapes] is at least 1 and there is a class besides the
    first.  Otherwise no call returns a sample. *)
Theorem load_sample_needs_room (self : Shapes) (s : sample) :
  Ok s ∈ outcomes (load_sample self) ->
  80 <= (image_size self).1 /\ 41 <= (image_size self).2
  /\ 1 <= max_num_shapes self /\ (2 <= length (class_names self))%nat.
Proof.
  intros Hs.
  apply load_sample_inv in Hs as (shapes & _ & _ & Hshapes & _).
  apply sample_shapes_outcomes in Hshapes as [Hcount Hpossible].
  destruct shapes as [|shape shapes]; [simpl in Hcount; lia|].
  apply Forall_inv in Hpossible.
  destruct shape as [[name [[c1 c2] c3]] [[center_x center_y] size]].
  destruct Hpossible as (Hname & _ & Hx & Hy & Hsize).
  pose proof (Z.mul_div_le (image_size self).1 4 ltac:(lia)).
  repeat split; try lia.
  destruct (class_names self) as [|bg [|name' names]]; simpl in *;
    try lia; by apply elem_of_nil in Hname.
Qed.
End Rows.

Lemma load_sample_rows_match_channels_nested_squares :
  exists s shapes selected boxes class_args,
    Ok s ∈ outcomes (@load_sample filled_shapes example_loader)
    /\ Ok shapes ∈ outcomes (_sample_shapes example_loader
                               (max_num_shapes example_loader)
                               (image_size example_loader).1
                               (image_size example_loader).2 20)
    /\ _filter_shapes (_compute_bounding_boxes shapes) shapes
                      (iou_thresh example_loader)
       = Ok (selected, boxes)
    /\ boxes = _compute_bounding_boxes selected
    /\ @_draw_masks filled_shapes example_loader selected
       = Ok (sample_masks s)
    /\ sample_box_data s
       = zip_with (fun box arg => box ++ [Z.of_nat arg]) boxes class_args.
Proof.
  destruct hidden_square_sample as (s & Hs & _).
  destruct (@load_sample_rows_match_channels filled_shapes example_loader s Hs)
    as (shapes & selected & boxes & class_args & Hshapes & Hfilter & Hboxes
        & Hmasks & _ & Hrows).
  exists s, shapes, selected, boxes, class_args.
  exact (conj Hs (conj Hshapes (conj Hfilter (conj Hboxes
           (conj Hmasks Hrows))))).
Defined.

Lemma load_sample_needs_room_nested_squares :
  80 <= (image_size example_loader).1 /\ 41 <= (image_size example_loader).2
  /\ 1 <= max_num_shapes example_loader
  /\ (2 <= length (class_names example_loader))%nat.
Proof.
  destruct hidden_square_sample as (s & Hs & _).
  exact (@load_sample_needs_room filled_shapes example_loader s Hs).
Defined.

(** ** The class column *)

Section ClassColumn.
Context `{Rasterizer}.

(** X19. For a loader built by [Shapes.__init__], every row of box_data
    has five entries, four box coordinates and a class index, and the
    class index is never 0: it lies between 1 and [len(class_names) - 1],
    even when class names repeat. *)
Theorem load_sample_class_column (num_samples : nat) (image_size : Z * Z)
    (class_names_arg : option (list string)) (iou_thresh : Q)
    (max_num_shapes : Z) (s : sample) :
  let self := Shapes_init num_samples image_size class_names_arg iou_thresh
                          max_num_shapes in
  Ok s ∈ outcomes (load_sample self) ->
  Forall (fun row => exists x_min y_min x_max y_max class_arg,
            row = [x_min; y_min; x_max; y_max; class_arg]
            /\ 1 <= class_arg < Z.of_nat (length (class_names self)))
         (sample_box_data s).
Proof.
  intros self Hs.
  apply load_sample_rows_inv in Hs
    as (shapes & selected & class_args & Hshapes & Hsub & _ & Hargs & ->).
  apply sample_shapes_outcomes in Hshapes as [_ Hpossible].
  unfold _compute_bounding_boxes.
  induction Hargs as [|shape arg selected class_args Harg Hargs IH];
    simpl; [constructor|].
  inversion Hsub as [|? ? Hin Hsub']; subst.
  constructor; [|by apply IH].
  rewrite Forall_forall in Hpossible. specialize (Hpossible shape Hin).
  destruct shape as [[name [[c1 c2] c3]] [[center_x center_y] size]].
  destruct Hpossible as (Hname & _).
  simpl. eexists _, _, _, _, _. split; [done|].
  unfold dict_getitem in Harg. cbn [fst] in Harg.
  destruct (name_to_arg self !! name) as [i|] eqn:Hi; [|done].
  injection Harg as <-.
  apply dict_zip_seq_lookup in Hi as [Hi Hlast].
  apply lookup_lt_Some in Hi as Hlt.
  apply list_elem_of_lookup in Hname as (j & Hj).
  rewrite lookup_drop in Hj.
  destruct (decide (i = 0)%nat) as [->|]; [|lia].
  exfalso. by apply (Hlast (1 + j)%nat ltac:(lia)).
Qed.
End ClassColumn.

Lemma load_sample_class_column_nested_squares :
  exists s,
    Ok s ∈ outcomes (@load_sample filled_shapes example_loader)
    /\ Forall (fun row => exists x_min y_min x_max y_max class_arg,
                 row = [x_min; y_min; x_max; y_max; class_arg]
                 /\ 1 <= class_arg < 4)
              (sample_box_data s).
Proof.
  destruct hidden_square_sample as (s & Hs & _). exists s. split; [exact Hs|].
  exact (@load_sample_class_column filled_shapes 1 (160, 160) None
           (3 # 10)%Q 4 s Hs).
Defined.

(** ** Several samples *)

Section Data.
Context `{Rasterizer}.

(** X20. [load_data] returns [num_samples] samples, each of them a
    sample that [load_sample] can produce on its own, and every such list
    can be returned. *)
Theorem load_data_samples (self : Shapes) (samples : list sample) :
  Ok samples ∈ outcomes (load_data self)
  <-> length samples = num_samples self
      /\ Forall (fun s => Ok s ∈ outcomes (load_sample self)) samples.
Proof.
  unfold load_data. rewrite Ok_elem_of_sample_each. split.
  - intros Hall. pose proof (Forall2_length _ _ _ Hall) as Hlen.
    rewrite length_seq in Hlen. split; [done|].
    apply Forall_forall. intros s Hs.
    apply list_elem_of_lookup in Hs as (i & Hi).
    by destruct (Forall2_lookup_r _ _ _ _ _ Hall Hi) as (k & _ & Hk).
  - intros [Hlen Hall].
    apply Forall2_same_length_lookup_2; [by rewrite length_seq|].
    intros i k s _ Hi. rewrite Forall_forall in Hall. apply Hall.
    by eapply list_elem_of_lookup_2.
Qed.

(** ** Classes without a drawing primitive *)

(** X21. Only the first three classes after the background have a
    drawing primitive.  With a fourth, differently named class on a
    feasible canvas, [load_sample] can raise a KeyError: the class can be
    sampled and cannot be drawn. *)
Theorem load_sample_fourth_class_raises (self : Shapes)
    (bg n1 n2 n3 n4 : string) (names : list string) :
  class_names self = bg :: n1 :: n2 :: n3 :: n4 :: names ->
  n4 <> n1 -> n4 <> n2 -> n4 <> n3 ->
  80 <= (image_size self).1 -> 41 <= (image_size self).2 ->
  1 <= max_num_shapes self ->
  Raise "KeyError" ∈ outcomes (load_sample self).
Proof.
  intros Hnames H1 H2 H3 HH HW Hmax. unfold load_sample.
  destruct (image_size self) as [height width]. simpl in HH, HW.
  set (shape := (n4, (0, 0, 0), (20, 20, 20)) : shape_descriptor).
  apply elem_of_bind. left. exists [shape]. split.
  { apply sample_shapes_outcomes. split; [simpl; lia|].
    constructor; [|constructor]. unfold shape, possible_shape.
    rewrite Hnames. simpl.
    pose proof (Z.div_le_lower_bound height 4 20 ltac:(lia) ltac:(lia)).
    repeat split; try lia.
    apply list_elem_of_In. simpl. auto. }
  apply elem_of_bind. left.
  exists ([shape], [[0; 0; 40; 40]]). split.
  { apply Ok_elem_of_lift. reflexivity. }
  cbv beta iota.
  apply elem_of_bind. right. exists "KeyError". split; [|done].
  unfold _draw_shapes. destruct (image_size self) as [height' width'].
  apply elem_of_bind. left. exists (0, 0, 0). split.
  { apply Ok_elem_of_np_random_randint_3. simpl. lia. }
  cbv beta iota. unfold lift. simpl outcomes.
  apply list_elem_of_singleton. cbn [for_fold].
  unfold shape, _draw_shape. rewrite Hnames. unfold dict_getitem, dict_zip.
  simpl. rewrite !lookup_insert_ne, lookup_empty by done. reflexivity.
Qed.
End Data.

Lemma load_sample_fourth_class_raises_star :
  Raise "KeyError"
  ∈ outcomes (@load_sample filled_shapes
                (Shapes_init 1 (160, 160)
                   (Some ["BG"; "square"; "circle"; "triangle"; "star"])
                   (3 # 10)%Q 4)).
Proof.
  apply (@load_sample_fourth_class_raises filled_shapes _
           "BG" "square" "circle" "triangle" "star" []);
    try reflexivity; try discriminate; simpl; lia.
Defined.

(** ** The shape and the entries of the masks *)

Lemma binary_array_np_full (height width : Z) :
  binary_array (Z.to_nat height) (Z.to_nat width) 1 (np_full height width [0]).
Proof.
  unfold binary_array, np_full. split; [by rewrite length_replicate|].
  apply Forall_replicate. split; [by rewrite length_replicate|].
  apply Forall_replicate. split; [done|]. repeat constructor.
Qed.

Lemma binary_array_stamp (covers : Z -> Z -> bool) (H W : nat) (a : image) :
  binary_array H W 1 a -> binary_array H W 1 (stamp covers (1, 1, 1) a).
Proof.
  unfold binary_array, stamp. intros [Hlen Ha].
  split; [by rewrite length_imap|].
  apply Forall_forall. intros row Hrow.
  apply elem_of_lookup_imap in Hrow as (y & row0 & -> & Hy).
  rewrite Forall_forall in Ha.
  destruct (Ha row0 ltac:(by eapply list_elem_of_lookup_2)) as [Hw Hrow0].
  split; [by rewrite length_imap|].
  apply Forall_forall. intros pixel Hpixel.
  apply elem_of_lookup_imap in Hpixel as (x & pixel0 & -> & Hx).
  rewrite Forall_forall in Hrow0.
  destruct (Hrow0 pixel0 ltac:(by eapply list_elem_of_lookup_2)) as [Hn Hv].
  destruct (covers _ _); [|done].
  unfold paint. rewrite Hn. simpl. split; [done|].
  constructor; [by right|constructor].
Qed.

Lemma binary_array_row_lengths (H W n : nat) (a : image) :
  binary_array H W n a -> map length a = replicate H W.
Proof.
  intros [<- Ha]. induction Ha as [|row a [Hw _] _ IH]; simpl; [done|].
  by rewrite Hw, IH.
Qed.

Lemma binary_array_zip_app (H W n m : nat) (a b : image) :
  binary_array H W n a -> binary_array H W m b ->
  binary_array H W (n + m) (zip_with (zip_with app) a b).
Proof.
  intros [Hla Ha] [Hlb Hb]. split; [rewrite length_zip_with; lia|].
  eapply Forall_zip_with_both; [|exact Ha|exact Hb].
  intros ra rb [Hwa Hra] [Hwb Hrb]. split; [rewrite length_zip_with; lia|].
  eapply Forall_zip_with_both; [|exact Hra|exact Hrb].
  intros p q [Hp Hvp] [Hq Hvq]. split; [rewrite length_app; lia|].
  by apply Forall_app.
Qed.

(** One-channel arrays of one height and width can be concatenated, into
    as many channels as there are arrays. *)
Lemma np_concatenate_last_binary (H W : nat) (arrays : list image) :
  arrays <> [] -> Forall (binary_array H W 1) arrays ->
  exists m, np_concatenate_last arrays = Ok m
            /\ binary_array H W (length arrays) m.
Proof.
  intros Hne Hall. induction Hall as [|a rest Ha Hrest IH]; [done|].
  destruct rest as [|a1 rest'].
  - by exists a.
  - destruct (IH ltac:(done)) as (r & Hr & Hbin).
    change (np_concatenate_last (a :: a1 :: rest'))
      with (r ← np_concatenate_last (a1 :: rest');
            if bool_decide (map length a = map length r)
            then Ok (zip_with (zip_with app) a r)
            else Raise "ValueError").
    rewrite Hr. cbn [mbind result_bind].
    rewrite bool_decide_true.
    2:{ by rewrite (binary_array_row_lengths _ _ _ _ Ha),
                   (binary_array_row_lengths _ _ _ _ Hbin). }
    eexists. split; [done|].
    change (length (a :: a1 :: rest')) with (1 + length (a1 :: rest'))%nat.
    by apply binary_array_zip_app.
Qed.

Lemma binary_array_map_pixels (H W n : nat) (f : list Z -> list Z)
    (a : image) :
  (forall p, length p = n -> Forall (fun v => v = 0 \/ v = 1) p ->
             length (f p) = n /\ Forall (fun v => v = 0 \/ v = 1) (f p)) ->
  binary_array H W n a -> binary_array H W n (map (map f) a).
Proof.
  intros Hf [Hlen Ha]. split; [by rewrite length_map|].
  clear Hlen. induction Ha as [|row a [Hw Hrow] _ IH]; simpl; constructor;
    [|done].
  split; [by rewrite length_map|].
  clear Hw. induction Hrow as [|p row [Hn Hp] _ IHrow]; simpl; constructor;
    [by apply Hf|done].
Qed.

Lemma binary_array_astype_uint8 (H W n : nat) (a : image) :
  binary_array H W n a -> binary_array H W n (astype_uint8 a).
Proof.
  apply binary_array_map_pixels. intros p Hn Hp.
  split; [by rewrite length_map|].
  clear Hn. induction Hp as [|v p Hv _ IH]; simpl; [constructor|].
  constructor; [|done]. destruct Hv as [-> | ->]; [by left|by right].
Qed.

Lemma foldl_invariant {S J} (Q : S -> Prop) (f : S -> J -> S) (js : list J)
    (s : S) :
  (forall s j, Q s -> Q (f s j)) -> Q s -> Q (foldl f s js).
Proof.
  intros Hf. revert s. induction js as [|j js IH]; intros s Hs; simpl; auto.
Qed.

Lemma resolve_pixel_binary (n : nat) (pixel : list Z) :
  Forall (fun v => v = 0 \/ v = 1) pixel ->
  Forall (fun v => v = 0 \/ v = 1) (resolve_pixel n pixel).
Proof.
  unfold resolve_pixel. apply foldl_invariant. intros p i.
  apply foldl_invariant. intros q j Hq. unfold resolve_pair_pixel.
  apply Forall_insert; [done|]. destruct (xorb _ _); simpl; auto.
Qed.

Lemma binary_array_resolve_occlusions (H W n k : nat) (a : image) :
  binary_array H W n a -> binary_array H W n (resolve_occlusions k a).
Proof.
  rewrite resolve_occlusions_pixelwise. apply binary_array_map_pixels.
  intros p Hn Hp. split; [by rewrite length_resolve_pixel|].
  by apply resolve_pixel_binary.
Qed.

Section MaskEntries.
Context `{Rasterizer}.

Lemma binary_array_draw_shape (self : Shapes) (H0 W : nat) (a a' : image)
    (shape : string) (dims : dimensions) :
  binary_array H0 W 1 a -> _draw_shape self a shape dims (1, 1, 1) = Ok a' ->
  binary_array H0 W 1 a'.
Proof.
  intros Ha. unfold _draw_shape. destruct dims as [[center_x center_y] size].
  unfold dict_getitem, dict_zip.
  destruct (list_to_map _ !! shape) as [f|] eqn:Hf; [|done].
  cbn [mbind result_bind]. intros [= <-].
  apply elem_of_list_to_map_2, elem_of_reverse, elem_of_zip_r in Hf.
  apply list_elem_of_In in Hf. simpl in Hf.
  destruct Hf as [<-|[<-|[<-|[]]]]; by apply binary_array_stamp.
Qed.

(** What every drawing call keeps, the first loop of [_draw_masks]
    keeps for every channel. *)
Lemma draw_class_masks_invariant (self : Shapes) (P : image -> Prop)
    (items : list (nat * shape_descriptor)) (class_masks class_masks' : list image) :
  (forall a a' shape dims,
     P a -> _draw_shape self a shape dims (1, 1, 1) = Ok a' -> P a') ->
  Forall P class_masks ->
  for_fold (draw_class_mask self) class_masks items = Ok class_masks' ->
  Forall P class_masks'.
Proof.
  intros HP. revert class_masks.
  induction items as [|item items IH]; intros class_masks Hall;
    cbn [for_fold].
  - by intros [= <-].
  - destruct (draw_class_mask self class_masks item)
      as [class_masks1|e] eqn:Hstep; [|done].
    cbn [mbind result_bind]. apply IH.
    destruct item as [shape_arg [[shape c] dims]].
    unfold draw_class_mask, getitem in Hstep.
    destruct (class_masks !! shape_arg) as [mask|] eqn:Hmask; [|done].
    cbn [mbind result_bind] in Hstep.
    destruct (_draw_shape self mask shape dims (1, 1, 1)) as [class_mask|e]
      eqn:Hdraw; [|done].
    cbn [mbind result_bind] in Hstep. injection Hstep as <-.
    apply Forall_insert; [done|]. eapply HP; [|exact Hdraw].
    rewrite Forall_forall in Hall. apply Hall.
    by eapply list_elem_of_lookup_2.
Qed.

Lemma draw_class_masks_binary (self : Shapes)
    (shapes : list shape_descriptor) (class_masks : list image) :
  _draw_class_masks self shapes = Ok class_masks ->
  Forall (binary_array (Z.to_nat (image_size self).1)
                       (Z.to_nat (image_size self).2) 1)
         class_masks.
Proof.
  unfold _draw_class_masks. destruct (image_size self) as [height width].
  apply draw_class_masks_invariant.
  - intros a a' shape dims. apply binary_array_draw_shape.
  - apply Forall_forall. intros a Ha.
    apply list_elem_of_In, in_map_iff in Ha as (k & <- & _).
    apply binary_array_np_full.
Qed.

Lemma draw_masks_binary (self : Shapes) (shapes : list shape_descriptor)
    (masks : image) :
  _draw_masks self shapes = Ok masks ->
  binary_array (Z.to_nat (image_size self).1) (Z.to_nat (image_size self).2)
               (Z.to_nat (max_num_shapes self)) masks.
Proof.
  unfold _draw_masks.
  destruct (_draw_class_masks self shapes) as [class_masks|e] eqn:Hloop;
    [|done].
  cbn [mbind result_bind].
  pose proof (draw_class_masks_channels _ _ _ Hloop) as (Hlen & _ & _).
  pose proof (draw_class_masks_binary _ _ _ Hloop) as Hbin.
  destruct (np_concatenate_last class_masks) as [m|e] eqn:Hm; [|done].
  cbn [mbind result_bind]. intros [= <-].
  assert (Hne : class_masks <> []) by (by intros ->).
  destruct (np_concatenate_last_binary _ _ _ Hne Hbin) as (m' & Hm' & Hbin').
  rewrite Hm in Hm'. injection Hm' as <-. rewrite Hlen in Hbin'.
  by apply binary_array_resolve_occlusions, binary_array_astype_uint8.
Qed.

(** X22. The masks of a sample have the shape
    [(H, W, max_num_shapes)] of the loader, and every entry is 0 or 1. *)
Theorem load_sample_masks_binary (self : Shapes) (s : sample) :
  Ok s ∈ outcomes (load_sample self) ->
  binary_array (Z.to_nat (image_size self).1) (Z.to_nat (image_size self).2)
               (Z.to_nat (max_num_shapes self)) (sample_masks s).
Proof.
  intros Hs.
  apply load_sample_inv in Hs as (shapes & selected & boxes & _ & _ & Hmasks & _).
  by apply draw_masks_binary in Hmasks.
Qed.
End MaskEntries.

Lemma load_sample_masks_binary_nested_squares :
  exists s,
    Ok s ∈ outcomes (@load_sample filled_shapes example_loader)
    /\ binary_array 160 160 4 (sample_masks s).
Proof.
  destruct hidden_square_sample as (s & Hs & _). exists s. split; [exact Hs|].
  exact (@load_sample_masks_binary filled_shapes example_loader s Hs).
Defined.

(** ** Calls that return *)

Lemma returns_bind {A B} (m : sampler A) (k : A -> sampler B) :
  returns m -> (forall a, Ok a ∈ outcomes m -> returns (k a)) ->
  returns (m ≫= k).
Proof.
  intros [(a & Ha) Hm] Hk. destruct (Hk a Ha) as [(b & Hb) _]. split.
  - exists b. apply Ok_elem_of_bind. by exists a.
  - intros e He. apply elem_of_bind in He as [(a' & Ha' & He)|(e' & He' & _)].
    + by apply (proj2 (Hk a' Ha') e).
    + by apply Hm in He'.
Qed.

Lemma returns_mret {A} (a : A) : returns (mret a : sampler A).
Proof.
  split; [exists a; by apply Ok_elem_of_mret|].
  intros e He. unfold mret, sampler_ret in He. simpl in He.
  by apply list_elem_of_singleton in He.
Qed.

Lemma returns_lift_bind {A B} (a : A) (k : A -> sampler B) :
  returns (k a) -> returns (lift (Ok a) ≫= k).
Proof.
  unfold returns, lift, mbind, sampler_bind. simpl. by rewrite app_nil_r.
Qed.

Lemma returns_uniform {A} (values : list A) (if_empty : exn) (v : A) :
  v ∈ values -> returns (uniform values if_empty).
Proof.
  intros Hv. split; [exists v; by apply Ok_elem_of_uniform|].
  intros e He. unfold uniform in He.
  destruct values as [|v0 values]; [by apply elem_of_nil in Hv|].
  cbn [outcomes] in He.
  by apply list_elem_of_In, in_map_iff in He as (x & [=] & _).
Qed.

Lemma returns_random_randint (a b : Z) :
  a <= b -> returns (random_randint a b).
Proof.
  intros Hab. apply (returns_uniform _ _ a). rewrite elem_of_seqZ. lia.
Qed.

Lemma returns_np_random_randint_3 (low high : Z) :
  low < high -> returns (np_random_randint_3 low high).
Proof.
  intros Hlow.
  assert (Hone : returns (np_random_randint low high)).
  { apply (returns_uniform _ _ low). rewrite elem_of_seqZ. lia. }
  unfold np_random_randint_3.
  repeat (apply returns_bind; [exact Hone|intros ? _]).
  apply returns_mret.
Qed.

Lemma returns_sample_each {A B} (f : A -> sampler B) (l : list A) :
  (forall a, returns (f a)) -> returns (sample_each f l).
Proof.
  intros Hf. induction l as [|a l IH]; cbn [sample_each].
  - apply returns_mret.
  - apply returns_bind; [apply Hf|intros b _].
    apply returns_bind; [exact IH|intros bs _]. apply returns_mret.
Qed.

(** On a canvas with room for a shape, with a class to choose and a
    shape to draw, the shapes can always be drawn. *)
Lemma sample_shapes_returns (self : Shapes) (num_shapes H W : Z) :
  80 <= H -> 41 <= W -> 1 <= num_shapes ->
  (2 <= length (class_names self))%nat ->
  returns (_sample_shapes self num_shapes H W 20).
Proof.
  intros HH HW Hnum Hnames. unfold _sample_shapes.
  apply returns_bind; [by apply returns_random_randint|intros N _].
  apply returns_sample_each. intros _. unfold _sample_shape.
  pose proof (Z.div_le_lower_bound H 4 20 ltac:(lia) ltac:(lia)).
  apply returns_bind; [|intros shape _].
  { destruct (class_names self) as [|bg [|name names]]; simpl in Hnames;
      try lia.
    apply (returns_uniform _ _ name). simpl. apply list_elem_of_here. }
  apply returns_bind; [by apply returns_np_random_randint_3|intros c _].
  apply returns_bind; [apply returns_random_randint; lia|intros x _].
  apply returns_bind; [apply returns_random_randint; lia|intros y _].
  apply returns_bind; [apply returns_random_randint; lia|intros size _].
  apply returns_mret.
Qed.

Lemma fst_zip_take {A B} (l : list A) (k : list B) :
  (zip l k).*1 = take (length k) l.
Proof.
  revert k. induction l as [|a l IH]; intros [|b k]; simpl; try done.
  by rewrite IH.
Qed.

Lemma for_each_returns {A B} (f : A -> result B) (l : list A) :
  Forall (fun a => exists b, f a = Ok b) l ->
  exists bs, for_each f l = Ok bs /\ length bs = length l.
Proof.
  induction 1 as [|a l [b Hb] _ (bs & IH & Hlen)]; cbn [for_each].
  - by exists [].
  - rewrite Hb. cbn [mbind result_bind]. rewrite IH.
    cbn [mbind result_bind]. exists (b :: bs). simpl. by rewrite Hlen.
Qed.

Section Returns.
Context `{Rasterizer}.

Lemma draw_shape_returns (self : Shapes) (a : image) (shape : string)
    (dims : dimensions) (c : color) :
  shape ∈ take 3 (drop 1 (class_names self)) ->
  exists a', _draw_shape self a shape dims c = Ok a'.
Proof.
  intros Hshape. unfold _draw_shape.
  destruct dims as [[center_x center_y] size].
  unfold dict_getitem, dict_zip.
  destruct (list_to_map _ !! shape) as [f|] eqn:Hf.
  - cbn [mbind result_bind]. by eexists.
  - exfalso. apply not_elem_of_list_to_map in Hf. apply Hf.
    by rewrite fmap_reverse, elem_of_reverse, fst_zip_take.
Qed.

Lemma draw_shapes_returns (self : Shapes) (shapes : list shape_descriptor) :
  Forall (fun s : shape_descriptor =>
            s.1.1 ∈ take 3 (drop 1 (class_names self))) shapes ->
  returns (_draw_shapes self shapes).
Proof.
  intros Hshapes. unfold _draw_shapes.
  destruct (image_size self) as [height width].
  apply returns_bind; [apply returns_np_random_randint_3; lia|].
  intros [[b1 b2] b3] _. cbv beta iota.
  generalize (np_full height width [b1 mod 256; b2 mod 256; b3 mod 256]).
  induction Hshapes as [|s shapes Hs _ IH]; intros img; cbn [for_fold].
  - split; [exists img; by apply Ok_elem_of_lift|].
    intros e He. by apply list_elem_of_singleton in He.
  - destruct s as [[shape c] dims].
    destruct (draw_shape_returns self img shape dims c Hs) as [img' Himg'].
    rewrite Himg'. cbn [mbind result_bind]. apply IH.
Qed.

Lemma draw_class_masks_loop_returns (self : Shapes)
    (shapes : list shape_descriptor) (off : nat) (class_masks : list image) :
  (off + length shapes <= length class_masks)%nat ->
  Forall (fun s : shape_descriptor =>
            s.1.1 ∈ take 3 (drop 1 (class_names self))) shapes ->
  exists class_masks',
    for_fold (draw_class_mask self) class_masks
             (imap (fun i a => ((off + i)%nat, a)) shapes) = Ok class_masks'.
Proof.
  intros Hfit Hshapes. revert off class_masks Hfit.
  induction Hshapes as [|s shapes Hs _ IH]; intros off class_masks Hfit.
  - by eexists.
  - rewrite imap_cons. cbn [for_fold length] in *.
    destruct (draw_class_mask self class_masks ((off + 0)%nat, s))
      as [class_masks1|e] eqn:Hstep; cbn [mbind result_bind].
    + apply draw_class_mask_keeps in Hstep as (Hlen1 & _ & _).
      rewrite (imap_ext _ (fun i a => ((S off + i)%nat, a))).
      2:{ intros i a _. simpl. f_equal. lia. }
      apply IH. lia.
    + exfalso. unfold draw_class_mask in Hstep.
      destruct s as [[shape c] dims]. unfold getitem in Hstep.
      destruct (lookup_lt_is_Some_2 class_masks (off + 0)) as [mask Hmask];
        [lia|].
      rewrite Hmask in Hstep. cbn [mbind result_bind] in Hstep.
      destruct (draw_shape_returns self mask shape dims (1, 1, 1) Hs)
        as [m Hm].
      by rewrite Hm in Hstep.
Qed.

Lemma draw_masks_returns (self : Shapes) (shapes : list shape_descriptor) :
  1 <= max_num_shapes self ->
  Z.of_nat (length shapes) <= max_num_shapes self ->
  Forall (fun s : shape_descriptor =>
            s.1.1 ∈ take 3 (drop 1 (class_names self))) shapes ->
  exists masks, _draw_masks self shapes = Ok masks.
Proof.
  intros Hmax Hfit Hshapes. unfold _draw_masks.
  destruct (_draw_class_masks self shapes) as [class_masks|e] eqn:Hloop.
  - cbn [mbind result_bind].
    pose proof (draw_class_masks_channels _ _ _ Hloop) as (Hlen & _ & _).
    pose proof (draw_class_masks_binary _ _ _ Hloop) as Hbin.
    assert (Hne : class_masks <> []).
    { intros ->. simpl in Hlen. lia. }
    destruct (np_concatenate_last_binary _ _ _ Hne Hbin) as (m & -> & _).
    cbn [mbind result_bind]. by eexists.
  - exfalso. unfold _draw_class_masks in Hloop.
    destruct (image_size self) as [height width]. unfold enumerate in Hloop.
    destruct (draw_class_masks_loop_returns self shapes 0
                (map (fun _ => np_full height width [0])
                     (seq 0 (Z.to_nat (max_num_shapes self)))))
      as [class_masks Hok]; [|done|].
    + rewrite length_map, length_seq. lia.
    + discriminate (eq_trans (eq_sym Hloop) Hok).
Qed.

(** The statements of [load_sample] after the shapes are drawn all
    return when the classes of the shapes can be drawn. *)
Lemma load_sample_continues (self : Shapes) (shapes : list shape_descriptor) :
  1 <= max_num_shapes self ->
  Z.of_nat (length shapes) <= max_num_shapes self ->
  Forall (fun s : shape_descriptor => drawable_class self s.1.1) shapes ->
  exists selected boxes masks class_args,
    _filter_shapes (_compute_bounding_boxes shapes) shapes (iou_thresh self)
    = Ok (selected, boxes)
    /\ returns (_draw_shapes self selected)
    /\ _draw_masks self selected = Ok masks
    /\ for_each (fun name : shape_descriptor =>
                   dict_getitem (name_to_arg self) name.1.1)
                selected = Ok class_args
    /\ length boxes = length class_args.
Proof.
  intros Hmax Hfit Hshapes.
  destruct (filter_shapes_selects shapes (iou_thresh self))
    as (selected & boxes & Hfilter & Hcount & Hboxes).
  pose proof (filter_shapes_keeps_pairs_aux _ _ _ _ Hfilter) as [_ Hsub].
  assert (Hsel : Forall (fun s : shape_descriptor =>
                           drawable_class self s.1.1) selected).
  { rewrite Forall_forall in Hshapes, Hsub. apply Forall_forall.
    intros s Hs. by apply Hshapes, Hsub. }
  assert (Hdraw : Forall (fun s : shape_descriptor =>
                            s.1.1 ∈ take 3 (drop 1 (class_names self)))
                         selected).
  { eapply Forall_impl; [exact Hsel|]. by intros s [Hs _]. }
  destruct (draw_masks_returns self selected Hmax ltac:(lia) Hdraw)
    as [masks Hmasks].
  destruct (for_each_returns
              (fun name : shape_descriptor =>
                 dict_getitem (name_to_arg self) name.1.1) selected)
    as (class_args & Hargs & Hlen).
  { eapply Forall_impl; [exact Hsel|]. intros s [_ [arg Harg]].
    exists arg. unfold dict_getitem. by rewrite Harg. }
  exists selected, boxes, masks, class_args.
  repeat split; try done.
  - by apply draw_shapes_returns.
  - by apply draw_shapes_returns.
  - lia.
Qed.

Lemma Shapes_init_image_size (n : nat) (size : Z * Z)
    (names : option (list string)) (thresh : Q) (most : Z) :
  image_size (Shapes_init n size names thresh most) = size.
Proof. reflexivity. Qed.

Lemma Shapes_init_max_num_shapes (n : nat) (size : Z * Z)
    (names : option (list string)) (thresh : Q) (most : Z) :
  max_num_shapes (Shapes_init n size names thresh most) = most.
Proof. reflexivity. Qed.

(** The classes of a loader built by [Shapes.__init__]: the first three
    after the background can be drawn. *)
Lemma Shapes_init_drawable (num_samples : nat) (image_size : Z * Z)
    (class_names_arg : option (list string)) (iou_thresh : Q)
    (max_num_shapes : Z) (name : string) :
  let self := Shapes_init num_samples image_size class_names_arg iou_thresh
                          max_num_shapes in
  name ∈ take 3 (drop 1 (class_names self)) -> drawable_class self name.
Proof.
  intros self Hname. split; [done|].
  apply dict_zip_seq_is_Some.
  apply elem_of_take in Hname as (i & Hi & _).
  rewrite lookup_drop in Hi. by eapply list_elem_of_lookup_2.
Qed.

(** X23. With at most three shape classes, on a canvas at least 80 high
    and 41 wide and with [max_num_shapes] at least 1, [load_sample] of a
    loader built by [Shapes.__init__] returns a sample whatever the draws:
    it has an outcome and none of its outcomes is an exception. *)
Theorem load_sample_returns (num_samples : nat) (image_size : Z * Z)
    (class_names_arg : option (list string)) (iou_thresh : Q)
    (max_num_shapes : Z) :
  let self := Shapes_init num_samples image_size class_names_arg iou_thresh
                          max_num_shapes in
  80 <= image_size.1 -> 41 <= image_size.2 -> 1 <= max_num_shapes ->
  (2 <= length (class_names self) <= 4)%nat ->
  returns (load_sample self).
Proof.
  intros self HH HW Hmax [Hlow Hhigh].
  pose proof (Shapes_init_drawable num_samples image_size class_names_arg
                iou_thresh max_num_shapes) as Hdrawable.
  fold self in Hdrawable.
  pose proof (load_sample_continues self) as Hcontinue.
  pose proof (sample_shapes_returns self max_num_shapes image_size.1
                image_size.2 HH HW Hmax Hlow) as Hsample.
  pose proof (fun shapes =>
                proj1 (sample_shapes_outcomes self max_num_shapes
                         image_size.1 image_size.2 20 shapes)) as Hpossible.
  unfold load_sample.
  pose proof (Shapes_init_image_size num_samples image_size class_names_arg
                iou_thresh max_num_shapes) as Hsize.
  pose proof (Shapes_init_max_num_shapes num_samples image_size
                class_names_arg iou_thresh max_num_shapes) as Hmost.
  fold self in Hsize, Hmost. rewrite Hsize. rewrite Hmost in Hcontinue |- *.
  clear Hsize Hmost.
  destruct image_size as [height width]. cbn [fst snd] in *.
  apply returns_bind; [exact Hsample|]. intros shapes Hshapes.
  apply Hpossible in Hshapes as [Hcount Hshapes].
  destruct (Hcontinue shapes Hmax ltac:(lia))
    as (selected & boxes & masks & class_args & Hf & Himg & Hm & Ha & Hlen).
  { eapply Forall_impl; [exact Hshapes|].
    intros [[shape [[c1 c2] c3]] [[center_x center_y] size]] [Hshape _].
    apply Hdrawable. rewrite take_ge; [done|]. rewrite length_drop. lia. }
  rewrite Hf. apply returns_lift_bind. cbv beta iota.
  apply returns_bind; [exact Himg|]. intros img _.
  rewrite Hm. apply returns_lift_bind.
  rewrite Ha. apply returns_lift_bind.
  rewrite length_map, Hlen, Nat.eqb_refl.
  apply returns_lift_bind. apply returns_mret.
Qed.

(** X24. A loader built by [Shapes.__init__] can produce a sample as soon
    as the canvas is at least 80 high and 41 wide, [max_num_shapes] is at
    least 1 and there is a class besides the first, however many classes
    follow. *)
Theorem load_sample_room_suffices (num_samples : nat) (image_size : Z * Z)
    (class_names_arg : option (list string)) (iou_thresh : Q)
    (max_num_shapes : Z) :
  let self := Shapes_init num_samples image_size class_names_arg iou_thresh
                          max_num_shapes in
  80 <= image_size.1 -> 41 <= image_size.2 -> 1 <= max_num_shapes ->
  (2 <= length (class_names self))%nat ->
  exists s, Ok s ∈ outcomes (load_sample self).
Proof.
  intros self HH HW Hmax Hlow.
  pose proof (Shapes_init_drawable num_samples image_size class_names_arg
                iou_thresh max_num_shapes) as Hdrawable.
  fold self in Hdrawable.
  pose proof (load_sample_continues self) as Hcontinue.
  pose proof (fun shapes =>
                proj2 (sample_shapes_outcomes self max_num_shapes
                         image_size.1 image_size.2 20 shapes)) as Hpossible.
  unfold load_sample.
  pose proof (Shapes_init_image_size num_samples image_size class_names_arg
                iou_thresh max_num_shapes) as Hsize.
  pose proof (Shapes_init_max_num_shapes num_samples image_size
                class_names_arg iou_thresh max_num_shapes) as Hmost.
  fold self in Hsize, Hmost. rewrite Hsize. rewrite Hmost in Hcontinue |- *.
  clear Hsize Hmost.
  destruct image_size as [height width]. cbn [fst snd] in *.
  destruct (class_names self) as [|bg [|name names]] eqn:Hnames;
    simpl in Hlow; try lia.
  set (shapes := [(name, (0, 0, 0), (20, 20, 20))] : list shape_descriptor).
  destruct (Hcontinue shapes Hmax ltac:(simpl; lia))
    as (selected & boxes & masks & class_args & Hf & Himg & Hm & Ha & Hlen).
  { constructor; [|constructor]. apply Hdrawable.
    simpl. apply list_elem_of_here. }
  destruct Himg as [[img Himg] _].
  eexists. apply Ok_elem_of_bind. exists shapes. split.
  { apply Hpossible. split; [simpl; lia|].
    constructor; [|constructor]. unfold possible_shape. rewrite Hnames.
    pose proof (Z.div_le_lower_bound height 4 20 ltac:(lia) ltac:(lia)).
    simpl. repeat split; try lia. apply list_elem_of_here. }
  apply Ok_elem_of_bind. exists (selected, boxes).
  split; [by apply Ok_elem_of_lift|]. cbv beta iota.
  apply Ok_elem_of_bind. exists img. split; [exact Himg|].
  apply Ok_elem_of_bind. exists masks. split; [by apply Ok_elem_of_lift|].
  apply Ok_elem_of_bind. exists class_args.
  split; [by apply Ok_elem_of_lift|].
  apply Ok_elem_of_bind. eexists. split.
  { apply Ok_elem_of_lift. by rewrite length_map, Hlen, Nat.eqb_refl. }
  by apply Ok_elem_of_mret.
Qed.
End Returns.

Lemma load_sample_returns_default :
  returns (@load_sample filled_shapes example_loader).
Proof.
  apply (@load_sample_returns filled_shapes 1 (160, 160) None (3 # 10)%Q 4);
    simpl; lia.
Defined.

Lemma load_sample_room_suffices_five_classes :
  exists s,
    Ok s ∈ outcomes (@load_sample filled_shapes
                       (Shapes_init 1 (80, 41)
                          (Some ["BG"; "square"; "circle"; "triangle"; "star"])
                          (3 # 10)%Q 1)).
Proof.
  apply (@load_sample_room_suffices filled_shapes 1 (80, 41)
           (Some ["BG"; "square"; "circle"; "triangle"; "star"])
           (3 # 10)%Q 1);
    simpl; lia.
Defined.

(** * The masks, shape by shape *)

(** A dictionary of values mapped through [g]. *)
Lemma dict_zip_map {V W} (g : V -> W) (keys : list string) (values : list V)
    (k : string) :
  dict_zip keys (map g values) !! k = g <$> (dict_zip keys values !! k).
Proof.
  unfold dict_zip.
  replace (zip keys (map g values))
    with (prod_map Datatypes.id g <$> zip keys values).
  - by rewrite <- fmap_reverse, list_to_map_fmap, lookup_fmap.
  - revert values. induction keys as [|key keys IH]; intros [|v values];
      simpl; try done.
    by rewrite <- IH.
Qed.

Lemma binary_array_lookup (H W n : nat) (a : image) (y x : nat) :
  binary_array H W n a -> (y < H)%nat -> (x < W)%nat ->
  exists row pixel,
    a !! y = Some row /\ row !! x = Some pixel /\ length pixel = n.
Proof.
  intros [Hlen Ha] Hy Hx.
  destruct (lookup_lt_is_Some_2 a y) as [row Hrow]; [lia|].
  rewrite Forall_forall in Ha.
  destruct (Ha row ltac:(by eapply list_elem_of_lookup_2)) as [Hw Hpixels].
  destruct (lookup_lt_is_Some_2 row x) as [pixel Hpixel]; [lia|].
  rewrite Forall_forall in Hpixels.
  destruct (Hpixels pixel ltac:(by eapply list_elem_of_lookup_2)) as [Hn _].
  by exists row, pixel.
Qed.

(** Concatenating one-channel arrays puts the value of array [i] into
    channel [i] of every pixel. *)
Lemma np_concatenate_last_values (H W : nat) (arrays : list image) (m : image)
    (y x : nat) :
  Forall (binary_array H W 1) arrays ->
  np_concatenate_last arrays = Ok m ->
  (y < H)%nat -> (x < W)%nat ->
  exists row pixel,
    m !! y = Some row /\ row !! x = Some pixel
    /\ pixel = map (fun a => value_at a y x) arrays.
Proof.
  intros Hall. revert m.
  induction Hall as [|a rest Ha Hrest IH]; intros m Hrun Hy Hx; [done|].
  destruct (binary_array_lookup _ _ _ _ y x Ha Hy Hx)
    as (rowa & pa & Hrowa & Hpa & Hlen).
  assert (Hva : pa = [value_at a y x]).
  { unfold value_at. rewrite (nth_lookup_Some _ _ _ _ Hrowa).
    rewrite (nth_lookup_Some _ _ _ _ Hpa).
    destruct pa as [|v [|? ?]]; try done. }
  destruct rest as [|a1 rest'].
  - simpl in Hrun. injection Hrun as <-. exists rowa, pa. by subst pa.
  - change (np_concatenate_last (a :: a1 :: rest'))
      with (r ← np_concatenate_last (a1 :: rest');
            if bool_decide (map length a = map length r)
            then Ok (zip_with (zip_with app) a r)
            else Raise "ValueError") in Hrun.
    destruct (np_concatenate_last (a1 :: rest')) as [r|e] eqn:Hr; [|done].
    cbn [mbind result_bind] in Hrun.
    destruct (bool_decide _); [|done]. injection Hrun as <-.
    destruct (IH r eq_refl Hy Hx) as (rowr & pr & Hrowr & Hpr & ->).
    exists (zip_with app rowa rowr), (pa ++ map (fun a => value_at a y x) (a1 :: rest')).
    split; [by rewrite lookup_zip_with, Hrowa, Hrowr|].
    split; [by rewrite lookup_zip_with, Hpa, Hpr|].
    by subst pa.
Qed.

Lemma value_at_np_full (height width : Z) (y x : nat) :
  (y < Z.to_nat height)%nat -> (x < Z.to_nat width)%nat ->
  value_at (np_full height width [0]) y x = 0.
Proof.
  intros Hy Hx. unfold value_at, np_full.
  rewrite (nth_lookup_Some _ _ _ _ (lookup_replicate_2 _ _ _ Hy)).
  by rewrite (nth_lookup_Some _ _ _ _ (lookup_replicate_2 _ _ _ Hx)).
Qed.

Lemma value_at_stamp (covers : Z -> Z -> bool) (height width : Z) (y x : nat) :
  (y < Z.to_nat height)%nat -> (x < Z.to_nat width)%nat ->
  value_at (stamp covers (1, 1, 1) (np_full height width [0])) y x
  = Z.b2z (covers (Z.of_nat x) (Z.of_nat y)).
Proof.
  intros Hy Hx. unfold value_at, stamp, np_full.
  erewrite (nth_lookup_Some _ y).
  2:{ rewrite list_lookup_imap, (lookup_replicate_2 _ _ _ Hy). done. }
  erewrite (nth_lookup_Some _ x).
  2:{ rewrite list_lookup_imap, (lookup_replicate_2 _ _ _ Hx). done. }
  by destruct (covers _ _).
Qed.

Section ShapeByShape.
Context `{Rasterizer}.

(** [_draw_shape] stamps the rasterisation of the class of the shape. *)
Lemma draw_shape_stamp (self : Shapes) (a a' : image) (shape : string)
    (center_x center_y size : Z) (c : color) :
  _draw_shape self a shape (center_x, center_y, size) c = Ok a' ->
  exists covers,
    dict_zip (drop 1 (class_names self))
             [square_covers; circle_covers; triangle_covers] !! shape
    = Some covers
    /\ a' = stamp (covers (center_x, center_y) size) c a.
Proof.
  unfold _draw_shape, dict_getitem.
  change [draw_square; draw_circle; draw_triangle]
    with (map (fun covers (img : image) (center : Z * Z) (c : color)
                   (size : Z) => stamp (covers center size) c img)
              [square_covers; circle_covers; triangle_covers]).
  rewrite dict_zip_map.
  destruct (dict_zip _ _ !! shape) as [covers|]; [|done].
  cbn. intros [= <-]. by exists covers.
Qed.

(** The first loop of [_draw_masks] draws shape [i] into channel
    [off + i] and leaves the channels before [off] as they were. *)
Lemma draw_class_masks_loop_content (self : Shapes)
    (shapes : list shape_descriptor) (off : nat)
    (class_masks class_masks' : list image) :
  for_fold (draw_class_mask self) class_masks
           (imap (fun i a => ((off + i)%nat, a)) shapes) = Ok class_masks' ->
  (forall k, (k < off)%nat -> class_masks' !! k = class_masks !! k)
  /\ forall i shape c dims,
       shapes !! i = Some (shape, c, dims) ->
       exists a a',
         class_masks !! (off + i)%nat = Some a
         /\ _draw_shape self a shape dims (1, 1, 1) = Ok a'
         /\ class_masks' !! (off + i)%nat = Some a'.
Proof.
  revert off class_masks.
  induction shapes as [|s shapes IH]; intros off class_masks.
  - simpl. intros [= <-]. by split.
  - rewrite imap_cons. cbn [for_fold].
    destruct (draw_class_mask self class_masks ((off + 0)%nat, s))
      as [class_masks1|e] eqn:Hstep; [|done].
    cbn [mbind result_bind]. intros Hrest.
    rewrite (imap_ext _ (fun i a => ((S off + i)%nat, a))) in Hrest.
    2:{ intros i a _. simpl. f_equal. lia. }
    apply IH in Hrest as [Hbefore Hdrawn].
    pose proof (draw_class_mask_keeps _ _ _ _ _ Hstep) as (_ & _ & Hother).
    unfold draw_class_mask in Hstep. destruct s as [[shape0 c0] dims0].
    unfold getitem in Hstep.
    destruct (class_masks !! (off + 0)%nat) as [mask|] eqn:Hmask; [|done].
    cbn [mbind result_bind] in Hstep.
    destruct (_draw_shape self mask shape0 dims0 (1, 1, 1)) as [mask'|e]
      eqn:Hdraw; [|done].
    cbn [mbind result_bind] in Hstep. injection Hstep as <-.
    split.
    + intros k Hk. rewrite Hbefore by lia. apply Hother. lia.
    + intros [|i] shape c dims Hi.
      * injection Hi as -> -> ->. exists mask, mask'.
        split; [done|]. split; [done|].
        rewrite Hbefore by lia. apply list_lookup_insert_eq.
        by eapply lookup_lt_Some.
      * destruct (Hdrawn i shape c dims Hi) as (a & a' & Ha & Hdraw' & Ha').
        exists a, a'. replace (off + S i)%nat with (S off + i)%nat by lia.
        split; [|done]. rewrite <- Ha. symmetry. apply Hother. lia.
Qed.

(** Before they are concatenated, channel [i] holds 1 where shape [i]
    covers the pixel and 0 elsewhere. *)
Lemma draw_class_masks_values (self : Shapes)
    (shapes : list shape_descriptor) (class_masks : list image)
    (i y x : nat) (a : image) :
  _draw_class_masks self shapes = Ok class_masks ->
  class_masks !! i = Some a ->
  (y < Z.to_nat (image_size self).1)%nat ->
  (x < Z.to_nat (image_size self).2)%nat ->
  value_at a y x = Z.b2z (shape_covers self shapes i x y).
Proof.
  intros Hloop Ha Hy Hx.
  pose proof (draw_class_masks_channels _ _ _ Hloop) as (Hlen & _ & _).
  unfold _draw_class_masks in Hloop.
  destruct (image_size self) as [height width]. cbn [fst snd] in Hy, Hx.
  unfold enumerate in Hloop.
  pose proof (draw_class_masks_loop self shapes 0 _ _ Hloop) as (_ & _ & Hafter).
  apply (draw_class_masks_loop_content self shapes 0) in Hloop as [_ Hdrawn].
  unfold shape_covers.
  destruct (shapes !! i) as [[[shape c] [[center_x center_y] size]]|] eqn:Hi.
  - destruct (Hdrawn i _ _ _ Hi) as (a0 & a' & Ha0 & Hdraw & Ha').
    cbn [Nat.add] in Ha0, Ha'. rewrite Ha in Ha'. injection Ha' as <-.
    apply list_elem_of_lookup_2, list_elem_of_In, in_map_iff in Ha0
      as (k & <- & _).
    apply draw_shape_stamp in Hdraw as (covers & -> & ->).
    by apply value_at_stamp.
  - apply lookup_ge_None in Hi. specialize (Hafter i Hi).
    rewrite Hafter in Ha.
    apply list_elem_of_lookup_2, list_elem_of_In, in_map_iff in Ha
      as (k & <- & _).
    by apply value_at_np_full.
Qed.
End ShapeByShape.

Section MasksOfSample.
Context `{Rasterizer}.

(** The masks that [_draw_masks] returns, pixel by pixel: channel [i]
    holds 1 where shape [i] is on top and 0 elsewhere. *)
Lemma draw_masks_values (self : Shapes) (shapes : list shape_descriptor)
    (masks : image) (y x : nat) :
  let n := Z.to_nat (max_num_shapes self) in
  _draw_masks self shapes = Ok masks ->
  (y < Z.to_nat (image_size self).1)%nat ->
  (x < Z.to_nat (image_size self).2)%nat ->
  exists row pixel,
    masks !! y = Some row /\ row !! x = Some pixel /\ length pixel = n
    /\ forall i, (i < n)%nat ->
                 nth i pixel 0
                 = if shape_on_top self shapes n i x y then 1 else 0.
Proof.
  intros n Hmasks Hy Hx. unfold _draw_masks in Hmasks.
  destruct (_draw_class_masks self shapes) as [class_masks|e] eqn:Hloop;
    [|done].
  cbn [mbind result_bind] in Hmasks.
  destruct (np_concatenate_last class_masks) as [drawn|e] eqn:Hdrawn; [|done].
  cbn [mbind result_bind] in Hmasks. injection Hmasks as <-.
  pose proof (draw_class_masks_channels _ _ _ Hloop) as (Hlen & _ & _).
  pose proof (draw_class_masks_binary _ _ _ Hloop) as Hbin.
  destruct (np_concatenate_last_values _ _ _ _ y x Hbin Hdrawn Hy Hx)
    as (row0 & pixel0 & Hrow0 & Hpixel0 & Hvalues).
  rewrite Hlen. fold n. rewrite resolve_occlusions_pixelwise.
  unfold astype_uint8.
  exists (map (resolve_pixel n) (map (map (fun v => v mod 256)) row0)),
         (resolve_pixel n (map (fun v => v mod 256) pixel0)).
  split; [by rewrite !lookup_map, Hrow0|].
  split; [by rewrite !lookup_map, Hpixel0|].
  split.
  { rewrite length_resolve_pixel, length_map, Hvalues, length_map. done. }
  assert (Hchannel : forall i, (i < n)%nat ->
            nth i (map (fun v => v mod 256) pixel0) 0
            = Z.b2z (shape_covers self shapes i x y)).
  { intros i Hi. rewrite nth_map_zero by done.
    destruct (lookup_lt_is_Some_2 class_masks i) as [a Ha]; [lia|].
    rewrite Hvalues.
    rewrite (nth_lookup_Some _ i 0 (value_at a y x)).
    2:{ by rewrite lookup_map, Ha. }
    rewrite (draw_class_masks_values self shapes class_masks i y x a)
      by done.
    by destruct (shape_covers _ _ _ _ _). }
  intros i Hi. rewrite resolve_pixel_value by done.
  unfold resolved_value, shape_on_top.
  destruct (Nat.ltb_spec (S i) n) as [Hlt|Hge].
  - unfold on_top. rewrite Hchannel, truth_b2z by done.
    rewrite (forallb_ext_seq _
               (fun j => negb (shape_covers self shapes j x y))).
    + by destruct (_ && _).
    + intros j Hj. apply in_seq in Hj. by rewrite Hchannel, truth_b2z by lia.
  - replace (n - S i)%nat with 0%nat by lia. cbn [seq forallb].
    rewrite Hchannel, andb_true_r by done.
    by destruct (shape_covers _ _ _ _ _).
Qed.

(** C2. Every sample of [load_sample] comes from shapes that
    [_sample_shapes] drew and [_filter_shapes] kept, and at every pixel
    of its masks: no two channels are both nonzero, and channel [i] is 1
    exactly when shape [i] covers the pixel and no later shape does, and
    0 otherwise.  So a pixel that several shapes cover is removed from
    every channel but that of the last shape drawn over it. *)
Theorem load_sample_masks_disjoint (self : Shapes) (s : sample) :
  Ok s ∈ outcomes (load_sample self) ->
  let n := Z.to_nat (max_num_shapes self) in
  exists shapes selected boxes,
    Ok shapes ∈ outcomes (_sample_shapes self (max_num_shapes self)
                            (image_size self).1 (image_size self).2 20)
    /\ _filter_shapes (_compute_bounding_boxes shapes) shapes (iou_thresh self)
       = Ok (selected, boxes)
    /\ forall y x,
        (y < Z.to_nat (image_size self).1)%nat ->
        (x < Z.to_nat (image_size self).2)%nat ->
        exists row pixel,
          sample_masks s !! y = Some row /\ row !! x = Some pixel
          /\ length pixel = n
          /\ (forall i j, (i < n)%nat -> (j < n)%nat -> i <> j ->
                          ~ (nth i pixel 0 <> 0 /\ nth j pixel 0 <> 0))
          /\ (forall i, (i < n)%nat ->
                        nth i pixel 0
                        = if shape_on_top self selected n i x y then 1 else 0).
Proof.
  intros Hs n.
  apply load_sample_inv in Hs
    as (shapes & selected & boxes & Hshapes & Hfilter & Hmasks & _).
  exists shapes, selected, boxes. split; [done|]. split; [done|].
  intros y x Hy Hx.
  destruct (draw_masks_values self selected _ y x Hmasks Hy Hx)
    as (row & pixel & Hrow & Hpixel & Hlen & Hvalues).
  exists row, pixel. repeat split; try done.
  intros i j Hi Hj Hij [Hi1 Hj1].
  rewrite Hvalues in Hi1, Hj1 by done. fold n in Hi1, Hj1.
  destruct (shape_on_top self selected n i x y) eqn:Htopi; [|done].
  destruct (shape_on_top self selected n j x y) eqn:Htopj; [|done].
  unfold shape_on_top in Htopi, Htopj.
  apply andb_true_iff in Htopi as [Hci Hlateri].
  apply andb_true_iff in Htopj as [Hcj Hlaterj].
  rewrite forallb_forall in Hlateri, Hlaterj.
  destruct (decide (i < j)%nat).
  - specialize (Hlateri j ltac:(apply in_seq; lia)). by rewrite Hcj in Hlateri.
  - specialize (Hlaterj i ltac:(apply in_seq; lia)). by rewrite Hci in Hlaterj.
Qed.
End MasksOfSample.

(** The sample of the three nested squares again, with two of its
    pixels: one under the first and the second square, one under the
    second and the third. *)
Lemma nested_squares_sample :
  exists s,
    Ok s ∈ outcomes (@load_sample filled_shapes example_loader)
    /\ (exists row, sample_masks s !! 70%nat = Some row
                    /\ row !! 70%nat = Some [0; 1; 0; 0])
    /\ (exists row, sample_masks s !! 100%nat = Some row
                    /\ row !! 100%nat = Some [0; 0; 1; 0]).
Proof.
  eexists. split.
  - unfold load_sample.
    change (image_size example_loader) with (160, 160).
    apply Ok_elem_of_bind. exists nested_squares.
    split; [exact nested_squares_possible|].
    apply Ok_elem_of_bind. eexists. split.
    { apply Ok_elem_of_lift. vm_compute. reflexivity. }
    cbv beta iota.
    apply Ok_elem_of_bind. eexists. split.
    { unfold _draw_shapes.
      change (image_size example_loader) with (160, 160).
      apply Ok_elem_of_bind. exists (0, 0, 0). split.
      { apply Ok_elem_of_np_random_randint_3. simpl. lia. }
      apply Ok_elem_of_lift. vm_compute. reflexivity. }
    apply Ok_elem_of_bind. eexists. split.
    { apply Ok_elem_of_lift. vm_compute. reflexivity. }
    apply Ok_elem_of_bind. eexists. split.
    { apply Ok_elem_of_lift. vm_compute. reflexivity. }
    apply Ok_elem_of_bind. eexists. split.
    { apply Ok_elem_of_lift. vm_compute. reflexivity. }
    apply Ok_elem_of_mret. reflexivity.
  - split; eexists; split; vm_compute; reflexivity.
Qed.

Lemma load_sample_masks_disjoint_nested_squares :
  exists s,
    Ok s ∈ outcomes (@load_sample filled_shapes example_loader)
    /\ (let n := Z.to_nat (max_num_shapes example_loader) in
        exists shapes selected boxes,
          Ok shapes ∈ outcomes (_sample_shapes example_loader
                                  (max_num_shapes example_loader)
                                  (image_size example_loader).1
                                  (image_size example_loader).2 20)
          /\ _filter_shapes (_compute_bounding_boxes shapes) shapes
                            (iou_thresh example_loader)
             = Ok (selected, boxes)
          /\ forall y x,
               (y < Z.to_nat (image_size example_loader).1)%nat ->
               (x < Z.to_nat (image_size example_loader).2)%nat ->
               exists row pixel,
                 sample_masks s !! y = Some row /\ row !! x = Some pixel
                 /\ length pixel = n
                 /\ (forall i j, (i < n)%nat -> (j < n)%nat -> i <> j ->
                                 ~ (nth i pixel 0 <> 0 /\ nth j pixel 0 <> 0))
                 /\ (forall i, (i < n)%nat ->
                               nth i pixel 0
                               = if @shape_on_top filled_shapes example_loader
                                      selected n i x y
                                 then 1 else 0))
    /\ (exists row, sample_masks s !! 70%nat = Some row
                    /\ row !! 70%nat = Some [0; 1; 0; 0])
    /\ (exists row, sample_masks s !! 100%nat = Some row
                    /\ row !! 100%nat = Some [0; 0; 1; 0]).
Proof.
  destruct nested_squares_sample as (s & Hs & Hfirst & Hsecond).
  exists s.
  exact (conj Hs
           (conj (@load_sample_masks_disjoint filled_shapes example_loader s Hs)
                 (conj Hfirst Hsecond))).
Defined.

(** * Properties of the model output *)

(** What [change_box_coordinates] computes, by the slices of a row. *)
Lemma change_box_coordinates_slices (a : array2) (rest : list array2) :
  (4 <= columns a)%nat ->
  change_box_coordinates (a :: rest)
  = Ok [Array2 (columns a)
               (map (fun row =>
                       (take 1 (drop 1 (take 4 row))
                        ++ take 1 (drop 0 (take 4 row))
                        ++ take 1 (drop 3 (take 4 row))
                        ++ take 1 (drop 2 (take 4 row)))
                       ++ drop 4 row)
                    (rows a))].
Proof.
  intros Hcolumns. unfold change_box_coordinates.
  cbn [getitem lookup list_lookup mbind result_bind].
  unfold np_hsplit, columns_until, columns_from. cbn [columns rows].
  rewrite Nat.min_l by done.
  do 4 (cbn; rewrite ?map_map, ?zip_with_map_map, ?length_map, ?Nat.eqb_refl).
  cbn. do 3 f_equal. lia.
Qed.

Lemma exchange_coordinates_slices (row : list R) :
  (4 <= length row)%nat ->
  (take 1 (drop 1 (take 4 row)) ++ take 1 (drop 0 (take 4 row))
   ++ take 1 (drop 3 (take 4 row)) ++ take 1 (drop 2 (take 4 row)))
  ++ drop 4 row
  = exchange_coordinates row.
Proof.
  destruct row as [|y_min [|x_min [|y_max [|x_max classes]]]]; simpl; try lia.
  done.
Qed.

Lemma exchange_coordinates_twice (row : list R) :
  exchange_coordinates (exchange_coordinates row) = row.
Proof. by destruct row as [|y_min [|x_min [|y_max [|x_max classes]]]]. Qed.

Lemma length_exchange_coordinates (row : list R) :
  length (exchange_coordinates row) = length row.
Proof. by destruct row as [|y_min [|x_min [|y_max [|x_max classes]]]]. Qed.

Lemma change_box_coordinates_rows (a : array2) (rest : list array2) :
  rectangular a -> (4 <= columns a)%nat ->
  change_box_coordinates (a :: rest)
  = Ok [Array2 (columns a) (map exchange_coordinates (rows a))].
Proof.
  intros Ha Hcolumns. rewrite change_box_coordinates_slices by done.
  do 3 f_equal. apply map_ext_in. intros row Hrow.
  apply exchange_coordinates_slices.
  unfold rectangular in Ha. rewrite Forall_forall in Ha.
  rewrite (Ha row) by (by apply list_elem_of_In). done.
Qed.

(** X25. On an output whose rows have four columns or more,
    [change_box_coordinates] returns one array, made from the first
    entry of the batch alone: the rows in their order, in each row
    [y_min, x_min] and [y_max, x_max] exchanged and the class columns as
    they were. *)
Theorem change_box_coordinates_exchanges (a : array2) (rest : list array2) :
  rectangular a -> (4 <= columns a)%nat ->
  change_box_coordinates (a :: rest)
  = Ok [Array2 (columns a) (map exchange_coordinates (rows a))].
Proof. apply change_box_coordinates_rows. Qed.

Lemma change_box_coordinates_exchanges_two_rows :
  change_box_coordinates
    [Array2 5 [[1; 2; 3; 4; 5]; [6; 7; 8; 9; 10]]%R; Array2 5 [[0; 0; 0; 0; 0]%R]]
  = Ok [Array2 5 [[2; 1; 4; 3; 5]; [7; 6; 9; 8; 10]]%R].
Proof.
  apply (change_box_coordinates_exchanges
           (Array2 5 [[1; 2; 3; 4; 5]; [6; 7; 8; 9; 10]]%R)).
  - repeat constructor.
  - simpl. lia.
Defined.

(** X26. Applied twice, [change_box_coordinates] gives the first entry
    of the batch back, and nothing of the others. *)
Theorem change_box_coordinates_twice (a : array2) (rest : list array2) :
  rectangular a -> (4 <= columns a)%nat ->
  (outputs ← change_box_coordinates (a :: rest);
   change_box_coordinates outputs)
  = Ok [a].
Proof.
  intros Ha Hcolumns. rewrite change_box_coordinates_rows by done.
  cbn [mbind result_bind].
  rewrite change_box_coordinates_rows.
  - cbn [columns rows]. destruct a as [c rs]. cbn [columns rows].
    do 3 f_equal. rewrite map_map. rewrite <- (map_id rs) at 2.
    apply map_ext. apply exchange_coordinates_twice.
  - unfold rectangular in *. cbn [columns rows].
    rewrite Forall_forall in Ha. apply Forall_forall. intros row Hrow.
    apply list_elem_of_In, in_map_iff in Hrow as (row0 & <- & Hrow0).
    rewrite length_exchange_coordinates. apply Ha. by apply list_elem_of_In.
  - done.
Qed.

Lemma change_box_coordinates_twice_two_rows :
  (outputs ← change_box_coordinates
               [Array2 5 [[1; 2; 3; 4; 5]; [6; 7; 8; 9; 10]]%R;
                Array2 5 [[0; 0; 0; 0; 0]%R]];
   change_box_coordinates outputs)
  = Ok [Array2 5 [[1; 2; 3; 4; 5]; [6; 7; 8; 9; 10]]%R].
Proof.
  apply (change_box_coordinates_twice
           (Array2 5 [[1; 2; 3; 4; 5]; [6; 7; 8; 9; 10]]%R)).
  - repeat constructor.
  - simpl. lia.
Defined.

(** X27. [change_box_coordinates] raises in two cases only: an
    IndexError on an empty batch, and a ValueError when the first entry
    has one, two or three columns.  An entry without columns passes. *)
Theorem change_box_coordinates_raises (outputs : list array2) (e : exn) :
  change_box_coordinates outputs = Raise e
  <-> (outputs = [] /\ e = "IndexError")
      \/ (exists a rest, outputs = a :: rest
                         /\ (1 <= columns a <= 3)%nat /\ e = "ValueError").
Proof.
  destruct outputs as [|a rest].
  - cbn. split.
    + intros [= <-]. by left.
    + intros [[_ ->]|(a & rest & [=] & _)]. done.
  - destruct (decide (4 <= columns a)%nat) as [Hfour|Hless].
    { rewrite change_box_coordinates_slices by done. split; [done|].
      intros [[[=] _]|(a' & rest' & [= <- <-] & Hcolumns & _)]. lia. }
    destruct a as [c rs]. cbn [columns] in Hless.
    unfold change_box_coordinates.
    cbn [getitem lookup list_lookup mbind result_bind].
    unfold np_hsplit, columns_until, columns_from. cbn [columns rows].
    destruct c as [|[|[|[|c]]]]; [| | | |lia].
    + do 4 (cbn; rewrite ?map_map, ?zip_with_map_map, ?length_map,
                 ?Nat.eqb_refl).
      cbn. split; [done|].
      intros [[[=] _]|(a' & rest' & [= <- <-] & Hcolumns & _)].
      cbn [columns] in Hcolumns. lia.
    + cbn. split.
      * intros [= <-]. right. eexists _, _. split; [done|]. cbn. split; [lia|done].
      * by intros [[[=] _]|(a' & rest' & _ & _ & ->)].
    + cbn. split.
      * intros [= <-]. right. eexists _, _. split; [done|]. cbn. split; [lia|done].
      * by intros [[[=] _]|(a' & rest' & _ & _ & ->)].
    + cbn. split.
      * intros [= <-]. right. eexists _, _. split; [done|]. cbn. split; [lia|done].
      * by intros [[[=] _]|(a' & rest' & _ & _ & ->)].
Qed.
